(** * Automacao de cancelamento: orchestrator, progress publisher, retry loop

    A shallow embedding of the TypeScript services

      - [StatusService]     (src/services/status.service.ts)
      - [DatabaseService]   (src/services/database.service.ts)
      - [processarRegistro] (src/playwright/fluxo.ts)
      - [AutomacaoService]  (src/services/automacao.service.ts)
      - the routes [/api/executar] and [/api/retomar/:id] and the loop of
        [/api/reprocessar] (src/server.ts)
      - the status column of the spreadsheet, as [readSpreadsheet] reads it
        and [saveSpreadsheet] writes it (src/services/planilha.service.ts)

    Conventions of the embedding.

      - Array indices and counters are JavaScript numbers that only ever hold
        natural numbers here: they are [nat].  [maxRetries] and the attempt
        counter are [Z], because the configuration can hold zero or a
        negative number.
      - Everything the program observes from outside (the browser, the
        SQLite driver, the HTTP routes that call pause/resume/stop while the
        loop is suspended in an [await]) is gathered in an [Ambiente], an
        oracle the theorems quantify over.
      - An asynchronous method is a function from the world to the events it
        produced, its outcome and the new world.  Every event carries the
        place of [processarRegistros] it was emitted from.
      - A route call that arrives during an [await] runs to its end before
        the loop goes on, and a call into the store is rejected or applied
        as a whole; the statements of one connection take effect in the
        order in which they were issued.
      - The route calls that arrive during a run are those of POST
        /api/pausar, /api/retomar and /api/parar.  POST /api/reprocessar
        and POST /api/upload, which the server also accepts during a run
        (the first rewrites the records in error, both reset the
        publisher), are not among them.
      - After a successful login the waits of [initialize] are taken to
        succeed: a stop that closes the page meanwhile is not followed into
        the rejection it would cause.
      - The server holds one [AutomacaoService] at a time.  Timestamps,
        random log ids and the dates of a session are not modelled.
      - The percentage of the progress bar is computed in double
        precision, as the program does: the quotient and the product are
        each rounded to the nearest double. *)

From Stdlib Require Import ZArith Lia Ascii.
From Stdlib Require Import Floats.SpecFloat.
From stdpp Require Import base option list strings pretty.

Local Open Scope string_scope.
Local Open Scope list_scope.
Local Open Scope nat_scope.

(** ** Data model (src/types/index.ts) *)

Inductive RecordStatus := pendente | processando | cancelado | erro.

#[global] Instance RecordStatus_eq_dec : EqDecision RecordStatus.
Proof. solve_decision. Defined.

Module PolicyRecord.
Record t := mk {
  apolice : string;
  parcela : string;
  proposta : string;
  valor : string;
  vigencia : string;
  cnpjCpf : string;
  nome : string;
  status : RecordStatus;
  observacao : string
}.

Definition set_status (s : RecordStatus) (r : t) : t :=
  mk (apolice r) (parcela r) (proposta r) (valor r) (vigencia r)
     (cnpjCpf r) (nome r) s (observacao r).

Definition set_observacao (o : string) (r : t) : t :=
  mk (apolice r) (parcela r) (proposta r) (valor r) (vigencia r)
     (cnpjCpf r) (nome r) (status r) o.
End PolicyRecord.

Module ProcessStatus.
Record t := mk {
  isProcessing : bool;
  isPaused : bool;
  currentIndex : nat;
  total : nat;
  cancelados : nat;
  erros : nat;
  progress : nat
}.
End ProcessStatus.

Module LogEntry.
Inductive kind := success | error | info.
(** [id] and [timestamp] come from the clock and the random generator. *)
Record t := mk { type : kind; message : string }.
End LogEntry.

Module AutomationResult.
Record t := mk { success : bool; message : string }.
End AutomationResult.

(** ** Progress publisher (src/services/status.service.ts) *)

(** Double-precision arithmetic on positive numbers.  A double is kept as
    an exact fraction, numerator and denominator. *)

(** The integer nearest to [N / D], the even one of the two when [N / D]
    lies half way. *)
Definition rne (N D : Z) : Z :=
  let q := (N / D)%Z in
  let r := (N mod D)%Z in
  if decide (2 * r < D)%Z then q
  else if decide (D < 2 * r)%Z then (q + 1)%Z
  else if Z.even q then q else (q + 1)%Z.

(** The exponent of the double nearest to [n / d]: the [e] with
    [2^52 <= (n / d) / 2^e < 2^53]. *)
Definition expoente (n d : Z) : Z :=
  let s := (Z.log2 d + 1)%Z in
  (Z.log2 (n * 2 ^ s / d) - s - 52)%Z.

(** [n / d] rounded to a double (53 bits, to nearest, ties to even): the
    quotient is scaled by the power of two that brings it into
    [[2^52, 2^53)], rounded to an integer and scaled back.  The numbers
    divided here are indices and lengths, below [2^53]: no quotient of
    theirs is subnormal or overflows. *)
Definition arredondar (n d : Z) : Z * Z :=
  let e := expoente n d in
  let up := (2 ^ Z.max 0 e)%Z in
  let down := (2 ^ Z.max 0 (- e))%Z in
  ((rne (n * down) (d * up) * up)%Z, down).

(** [Math.round(x)]: the nearest integer, the greater of the two when [x]
    lies half way. *)
Definition Math_round (x : Z * Z) : Z := ((2 * x.1 + x.2) / (2 * x.2))%Z.

(** [Math.round((num / den) * 100)] for a natural [num] and a positive
    [den]: the division and the multiplication are those of doubles. *)
Definition Math_round_pct (num den : nat) : nat :=
  let q := arredondar (Z.of_nat num) (Z.of_nat den) in
  Z.to_nat (Math_round (arredondar (q.1 * 100)%Z q.2)).

Module StatusService.
Import ProcessStatus.

Record t := mk { status : ProcessStatus.t; logs : list LogEntry.t }.

(** The field initialisers of the class. *)
Definition new : t :=
  mk (ProcessStatus.mk false false 0 0 0 0 0) [].

Definition initialize (n : nat) (s : t) : t :=
  mk (ProcessStatus.mk false false 0 n 0 0 0) [].

Definition start (s : t) : t :=
  let st := status s in
  mk (ProcessStatus.mk true false (currentIndex st) (total st)
        (cancelados st) (erros st) (progress st)) (logs s).

Definition pause (s : t) : t :=
  let st := status s in
  mk (ProcessStatus.mk (isProcessing st) true (currentIndex st) (total st)
        (cancelados st) (erros st) (progress st)) (logs s).

Definition resume (s : t) : t :=
  let st := status s in
  mk (ProcessStatus.mk (isProcessing st) false (currentIndex st) (total st)
        (cancelados st) (erros st) (progress st)) (logs s).

Definition stop (s : t) : t :=
  let st := status s in
  mk (ProcessStatus.mk false false (currentIndex st) (total st)
        (cancelados st) (erros st) (progress st)) (logs s).

Definition updateProgress (index cancelados erros : nat) (s : t) : t :=
  let st := status s in
  mk (ProcessStatus.mk (isProcessing st) (ProcessStatus.isPaused st) index
        (total st) cancelados erros
        (if decide (0 < total st)
         then Math_round_pct (index + 1) (total st)
         else 0))
     (logs s).

(** [this.logs.unshift(log)], then the cut to the first hundred. *)
Definition addLog (ty : LogEntry.kind) (msg : string) (s : t) : t :=
  let l := LogEntry.mk ty msg :: logs s in
  mk (status s) (if decide (100 < length l) then take 100 l else l).

Definition getStatus (s : t) : ProcessStatus.t := status s.
Definition getLogs (s : t) : list LogEntry.t := logs s.
Definition isPaused (s : t) : bool := ProcessStatus.isPaused (status s).
End StatusService.

(** ** Checkpoint store (src/services/database.service.ts) *)

Module ExecutionSession.
Inductive state := running | completed | paused | stopped | error.

(** A row of [execution_sessions]; [ended] stands for [endDate] being set. *)
Record t := mk {
  id : nat;
  fileName : string;
  ended : bool;
  status : state;
  totalRecords : nat;
  processedRecords : nat;
  canceledRecords : nat;
  errorRecords : nat
}.
End ExecutionSession.

#[global] Instance ExecutionSession_state_eq_dec :
  EqDecision ExecutionSession.state.
Proof. solve_decision. Defined.

Module ProcessedRecord.
(** A row of [processed_records].  [recordData] is the record serialised
    with [JSON.stringify]; reading it back with [JSON.parse] gives the same
    fields, so the column holds the record itself. *)
Record t := mk {
  sessionId : nat;
  recordIndex : nat;
  status : RecordStatus;
  observacao : string;
  recordData : PolicyRecord.t
}.
End ProcessedRecord.

Module DatabaseService.
Record t := mk {
  execution_sessions : list ExecutionSession.t;
  processed_records : list ProcessedRecord.t
}.

Definition empty : t := mk [] [].

Definition rowsOf (sessionId : nat) (db : t) : list ProcessedRecord.t :=
  filter (λ r, ProcessedRecord.sessionId r = sessionId) (processed_records db).

(** [ORDER BY recordIndex ASC] *)
Fixpoint insertByIndex (r : ProcessedRecord.t) (l : list ProcessedRecord.t)
  : list ProcessedRecord.t :=
  match l with
  | [] => [r]
  | x :: l' =>
      if decide (ProcessedRecord.recordIndex r < ProcessedRecord.recordIndex x)
      then r :: l
      else x :: insertByIndex r l'
  end.

Definition orderByIndex (l : list ProcessedRecord.t) : list ProcessedRecord.t :=
  foldr insertByIndex [] l.

Definition toRow (sessionId i : nat) (r : PolicyRecord.t) : ProcessedRecord.t :=
  ProcessedRecord.mk sessionId i (PolicyRecord.status r)
    (PolicyRecord.observacao r) r.

(** The [UPDATE ... WHERE sessionId = ? AND recordIndex = ?] of one record. *)
Definition updateRow (sessionId i : nat) (r : PolicyRecord.t)
    (rows : list ProcessedRecord.t) : list ProcessedRecord.t :=
  (λ x, if decide (ProcessedRecord.sessionId x = sessionId
                   ∧ ProcessedRecord.recordIndex x = i)
        then toRow sessionId i r else x) <$> rows.

Definition saveRecords (sessionId : nat) (records : list PolicyRecord.t)
    (db : t) : t :=
  match rowsOf sessionId db with
  | [] =>
      mk (execution_sessions db)
         (processed_records db ++ imap (toRow sessionId) records)
  | _ :: _ =>
      mk (execution_sessions db)
         (foldl (λ rows ir, updateRow sessionId ir.1 ir.2 rows)
            (processed_records db) (imap pair records))
  end.

(** [AUTOINCREMENT] on a table no row is ever deleted from. *)
Definition nextId (db : t) : nat := S (length (execution_sessions db)).

Definition createSession (fileName : string) (records : list PolicyRecord.t)
    (db : t) : nat * t :=
  let sid := nextId db in
  let s := ExecutionSession.mk sid fileName false ExecutionSession.running
             (length records) 0 0 0 in
  (sid,
   saveRecords sid records
     (mk (execution_sessions db ++ [s]) (processed_records db))).

Definition updateSession (sessionId : nat)
    (f : ExecutionSession.t → ExecutionSession.t) (db : t) : t :=
  mk ((λ s, if decide (ExecutionSession.id s = sessionId) then f s else s)
        <$> execution_sessions db)
     (processed_records db).

Definition updateSessionProgress (sessionId processed canceled errors : nat)
    (status : option ExecutionSession.state) (db : t) : t :=
  updateSession sessionId
    (λ s, ExecutionSession.mk (ExecutionSession.id s)
            (ExecutionSession.fileName s) (ExecutionSession.ended s)
            (default (ExecutionSession.status s) status)
            (ExecutionSession.totalRecords s) processed canceled errors)
    db.

Definition finishSession (sessionId : nat) (status : ExecutionSession.state)
    (db : t) : t :=
  updateSession sessionId
    (λ s, ExecutionSession.mk (ExecutionSession.id s)
            (ExecutionSession.fileName s) true status
            (ExecutionSession.totalRecords s)
            (ExecutionSession.processedRecords s)
            (ExecutionSession.canceledRecords s)
            (ExecutionSession.errorRecords s))
    db.

Definition getSession (sessionId : nat) (db : t) : option ExecutionSession.t :=
  head (filter (λ s, ExecutionSession.id s = sessionId) (execution_sessions db)).

Definition getSessionRecordsAsPolicyRecords (sessionId : nat) (db : t)
  : list PolicyRecord.t :=
  ProcessedRecord.recordData <$> orderByIndex (rowsOf sessionId db).
End DatabaseService.

(** ** The world the orchestrator runs in *)

Module AutomacaoService.
(** The fields of the class.  [databaseService] tells whether a checkpoint
    store was handed to the constructor; [browser] and [page] whether the
    field holds an object or [null]; [maxRetries] is [config.maxRetries]. *)
Record t := mk {
  databaseService : bool;
  browser : bool;
  page : bool;
  maxRetries : Z;
  isRunning : bool;
  sessionId : option nat;
  currentFileName : string
}.

(** [new AutomacaoService(statusService, config, databaseService)] *)
Definition new (attached : bool) (maxRetries : Z) : t :=
  mk attached false false maxRetries false None "".

Definition set_isRunning (b : bool) (a : t) : t :=
  mk (databaseService a) (browser a) (page a) (maxRetries a) b
     (sessionId a) (currentFileName a).

Definition set_sessionId (sid : nat) (a : t) : t :=
  mk (databaseService a) (browser a) (page a) (maxRetries a) (isRunning a)
     (Some sid) (currentFileName a).

Definition set_currentFileName (name : string) (a : t) : t :=
  mk (databaseService a) (browser a) (page a) (maxRetries a) (isRunning a)
     (sessionId a) name.

Definition set_browser (b : bool) (a : t) : t :=
  mk (databaseService a) b b (maxRetries a) (isRunning a)
     (sessionId a) (currentFileName a).

(** [this.databaseService && this.sessionId]: the session to write to, if
    the store is attached and the id is a truthy number. *)
Definition activeSession (a : t) : option nat :=
  if databaseService a then
    match sessionId a with
    | Some (S n) => Some (S n)
    | _ => None
    end
  else None.

Definition isRunningCheck (a : t) : bool := isRunning a.
End AutomacaoService.

Record World := mkWorld {
  automacao : AutomacaoService.t;
  statusService : StatusService.t;
  database : DatabaseService.t;
  records : list PolicyRecord.t;   (* the array handed to processarRegistros *)
  dbCalls : nat;                   (* calls made to the store so far *)
  actorCalls : nat                 (* calls made to cancelarApolice so far *)
}.

Definition with_automacao (f : AutomacaoService.t → AutomacaoService.t)
    (w : World) : World :=
  mkWorld (f (automacao w)) (statusService w) (database w) (records w)
    (dbCalls w) (actorCalls w).

Definition with_status (f : StatusService.t → StatusService.t)
    (w : World) : World :=
  mkWorld (automacao w) (f (statusService w)) (database w) (records w)
    (dbCalls w) (actorCalls w).

Definition with_records (f : list PolicyRecord.t → list PolicyRecord.t)
    (w : World) : World :=
  mkWorld (automacao w) (statusService w) (database w) (f (records w))
    (dbCalls w) (actorCalls w).

(** Where in [processarRegistros] an event comes from.  The index is the loop
    variable [i]. *)
Inductive Site :=
| SInicio                (* initialize, start, updateProgress(startIndex) *)
| SSessao                (* createSession, or updateSessionProgress "running" *)
| SLogin                 (* this.initialize() *)
| SPausa (i : nat)       (* the writes on finding the pause flag set *)
| SEspera (i : nat)      (* the 500 ms polls while paused *)
| SRetoma (i : nat)      (* the write after being resumed *)
| SAntes (i : nat)       (* "processando", publish, checkpoint *)
| STentativa (i : nat)   (* processarRegistro *)
| SDepois (i : nat)      (* publish, checkpoint after the record *)
| SFim                   (* finishSession "completed" *)
| SCatch
| SFinally
| SControle.             (* pause(), resume(), stop() called by a route *)

#[global] Instance Site_eq_dec : EqDecision Site.
Proof. solve_decision. Defined.

Inductive Event :=
| EmitStatus (s : ProcessStatus.t)
| EmitLog (l : LogEntry.t)
| DbCreateSession (sid : nat) (fileName : string) (rs : list PolicyRecord.t)
| DbSaveRecords (sid : nat) (rs : list PolicyRecord.t)
| DbUpdateSessionProgress (sid processed canceled errors : nat)
    (status : option ExecutionSession.state)
| DbFinishSession (sid : nat) (status : ExecutionSession.state)
| DbRejected (msg : string)
| InitBrowser
| CloseBrowser
| CancelarApolice (record : PolicyRecord.t) (attempt : Z).

Abbreviation LEvent := (Site * Event)%type.

(** What one call of [cancelarApolice] does: it resolves with a result, or
    the awaited promise rejects with an error of the given message. *)
Inductive Attempt := Resolves (r : AutomationResult.t) | Rejects (msg : string).

(** What [initBrowser] followed by [executeLogin] does. *)
Inductive LoginOutcome :=
| BrowserFails (msg : string)   (* chromium.launch rejects *)
| LoginThrows (msg : string)    (* login() rejects *)
| LoginFalse                    (* login() resolves to false *)
| LoginOk.

Inductive Comando := Pausar | Retomar | Parar.

Record Ambiente := mkAmbiente {
  (** the n-th call of cancelarApolice, counted from 0 over the whole run *)
  cancelarApolice : nat → Attempt;
  (** the n-th call into the store rejects with this message *)
  dbRejects : nat → option string;
  initBrowserLogin : LoginOutcome;
  (** the route calls that run while the loop is suspended in its k-th
      [await] at a site *)
  comandos : Site → nat → list Comando
}.

(** ** Asynchronous methods as state transformers *)

Inductive Outcome (A : Type) :=
| Ok (a : A)            (* the promise resolves *)
| Threw (msg : string)  (* the promise rejects with [new Error(msg)] *)
| Blocked.              (* still polling when the fuel ran out *)
Arguments Ok {A} a.
Arguments Threw {A} msg.
Arguments Blocked {A}.

Definition M (A : Type) : Type := World → list LEvent * Outcome A * World.

Definition ret {A} (a : A) : M A := λ w, ([], Ok a, w).

Definition bind {A B} (m : M A) (k : A → M B) : M B := λ w,
  match m w with
  | (e1, Ok a, w1) =>
      match k a w1 with (e2, r, w2) => (e1 ++ e2, r, w2) end
  | (e1, Threw msg, w1) => (e1, Threw msg, w1)
  | (e1, Blocked, w1) => (e1, Blocked, w1)
  end.

Declare Scope async_scope.
Delimit Scope async_scope with async.
Notation "x <- m ;; k" := (bind m (λ x, k))
  (at level 90, m at level 80, right associativity,
   format "'[v' x  <-  m  ;; '/' k ']'") : async_scope.
Notation "m ;;; k" := (bind m (λ _, k))
  (at level 90, right associativity,
   format "'[v' m  ;;; '/' k ']'") : async_scope.
Local Open Scope async_scope.

Definition throw {A} (msg : string) : M A := λ w, ([], Threw msg, w).
Definition gets {A} (f : World → A) : M A := λ w, ([], Ok (f w), w).
Definition modify (f : World → World) : M unit := λ w, ([], Ok tt, f w).
Definition emit (site : Site) (e : Event) : M unit := λ w, ([(site, e)], Ok tt, w).

(** [try { m } catch (error) { h error.message }] *)
Definition tryCatch {A} (m : M A) (h : string → M A) : M A := λ w,
  match m w with
  | (e1, Threw msg, w1) =>
      match h msg w1 with (e2, r, w2) => (e1 ++ e2, r, w2) end
  | other => other
  end.

(** [try { m } finally { f }] *)
Definition tryFinally {A} (m : M A) (f : M unit) : M A := λ w,
  match m w with
  | (e1, Blocked, w1) => (e1, Blocked, w1)
  | (e1, r, w1) =>
      match f w1 with
      | (e2, Ok _, w2) => (e1 ++ e2, r, w2)
      | (e2, Threw msg, w2) => (e1 ++ e2, Threw msg, w2)
      | (e2, Blocked, w2) => (e1 ++ e2, Blocked, w2)
      end
  end.

(** [promise.catch(() => {})] *)
Definition swallow (m : M unit) : M unit := tryCatch m (λ _, ret tt).

Section Execucao.
Variable amb : Ambiente.

(** *** The services seen from an asynchronous method *)

(** A method of [StatusService] that ends in [this.emit("status", ...)]. *)
Definition publish (site : Site) (f : StatusService.t → StatusService.t)
  : M unit :=
  modify (with_status f) ;;;
  s <- gets (λ w, StatusService.getStatus (statusService w)) ;;
  emit site (EmitStatus s).

(** [statusService.addLog(type, message)] *)
Definition addLog (site : Site) (ty : LogEntry.kind) (msg : string) : M unit :=
  modify (with_status (StatusService.addLog ty msg)) ;;;
  emit site (EmitLog (LogEntry.mk ty msg)).

(** One call into the store: the driver rejects it, or the statement is
    applied.  A call is applied as a whole. *)
Definition dbCall (site : Site) (e : Event)
    (f : DatabaseService.t → DatabaseService.t) : M unit := λ w,
  let w' := mkWorld (automacao w) (statusService w) (database w)
              (records w) (S (dbCalls w)) (actorCalls w) in
  match dbRejects amb (dbCalls w) with
  | Some msg => ([(site, DbRejected msg)], Threw msg, w')
  | None =>
      ([(site, e)], Ok tt,
       mkWorld (automacao w) (statusService w) (f (database w))
         (records w) (S (dbCalls w)) (actorCalls w))
  end.

Definition saveRecords (site : Site) (sid : nat) : M unit :=
  rs <- gets records ;;
  dbCall site (DbSaveRecords sid rs) (DatabaseService.saveRecords sid rs).

Definition updateSessionProgress (site : Site)
    (sid processed canceled errors : nat)
    (status : option ExecutionSession.state) : M unit :=
  dbCall site (DbUpdateSessionProgress sid processed canceled errors status)
    (DatabaseService.updateSessionProgress sid processed canceled errors status).

Definition finishSession (site : Site) (sid : nat)
    (status : ExecutionSession.state) : M unit :=
  dbCall site (DbFinishSession sid status)
    (DatabaseService.finishSession sid status).

Definition createSession (site : Site) (fileName : string) : M nat :=
  rs <- gets records ;;
  sid <- gets (λ w, DatabaseService.nextId (database w)) ;;
  dbCall site (DbCreateSession sid fileName rs)
    (λ db, (DatabaseService.createSession fileName rs db).2) ;;;
  ret sid.

(** *** pause, resume, stop (AutomacaoService) *)

(** [async close()]: the page and the browser are closed when there are any. *)
Definition close : M unit :=
  a <- gets automacao ;;
  if AutomacaoService.page a || AutomacaoService.browser a then
    modify (with_automacao (AutomacaoService.set_browser false)) ;;;
    emit SControle CloseBrowser
  else ret tt.

Definition pause : M unit := publish SControle StatusService.pause.
Definition resume : M unit := publish SControle StatusService.resume.

Definition stop : M unit :=
  modify (with_automacao (AutomacaoService.set_isRunning false)) ;;;
  s <- gets (λ w, AutomacaoService.activeSession (automacao w)) ;;
  match s with
  | Some sid =>
      p <- gets (λ w, StatusService.isPaused (statusService w)) ;;
      if p : bool
      then swallow (updateSessionProgress SControle sid 0 0 0
                      (Some ExecutionSession.paused))
      else swallow (finishSession SControle sid ExecutionSession.stopped)
  | None => ret tt
  end ;;;
  publish SControle StatusService.stop ;;;
  close.

Definition comando (c : Comando) : M unit :=
  match c with
  | Pausar => pause
  | Retomar => resume
  | Parar => stop
  end.

Fixpoint entregar (cs : list Comando) : M unit :=
  match cs with
  | [] => ret tt
  | c :: cs' => comando c ;;; entregar cs'
  end.

(** [await m] at the k-th suspension point of a site: [m] is started, the
    route calls that arrive meanwhile run to completion, then the loop goes
    on with the outcome of [m]. *)
Definition await {A} (site : Site) (k : nat) (m : M A) : M A := λ w,
  match m w with
  | (e1, r, w1) =>
      match entregar (comandos amb site k) w1 with
      | (e2, _, w2) => (e1 ++ e2, r, w2)
      end
  end.

(** [await new Promise((resolve) => setTimeout(resolve, ms))] *)
Definition sleep (site : Site) (k : nat) : M unit := await site k (ret tt).

(** *** Retry controller (src/playwright/fluxo.ts) *)

Definition callCancelarApolice (site : Site) (record : PolicyRecord.t)
    (attempt : Z) : M Attempt := λ w,
  ([(site, CancelarApolice record attempt)],
   Ok (cancelarApolice amb (actorCalls w)),
   mkWorld (automacao w) (statusService w) (database w) (records w)
     (dbCalls w) (S (actorCalls w))).

(** [lastError?.message || "Erro desconhecido"] *)
Definition lastErrorMessage (lastError : option string) : string :=
  match lastError with
  | Some msg => if decide (msg = "") then "Erro desconhecido" else msg
  | None => "Erro desconhecido"
  end.

(** The start of the [try] block: the log line and the awaited call. *)
Definition tentar (site : Site) (record : PolicyRecord.t) (maxRetries : Z)
    (attempt : Z) : M Attempt :=
  addLog site LogEntry.info
    ("Processando apólice " +:+ PolicyRecord.apolice record
     +:+ " (tentativa " +:+ pretty attempt +:+ "/"
     +:+ pretty maxRetries +:+ ")") ;;;
  await site (Z.to_nat (2 * (attempt - 1)))
    (callCancelarApolice site record attempt).

(** The [catch] block, followed by the rest of the loop. *)
Definition aposErro {A} (site : Site) (record : PolicyRecord.t)
    (maxRetries : Z) (attempt : Z) (msg : string) (resto : M A) : M A :=
  addLog site LogEntry.error
    ("Apólice " +:+ PolicyRecord.apolice record
     +:+ " – Erro na tentativa " +:+ pretty attempt +:+ ": " +:+ msg) ;;;
  (if decide (attempt < maxRetries)%Z
   then sleep site (S (Z.to_nat (2 * (attempt - 1))))
   else ret tt) ;;;
  resto.

(** The body of [for (let attempt = 1; attempt <= maxRetries; attempt++)];
    [n] counts the iterations that remain. *)
Fixpoint tentativas (site : Site) (record : PolicyRecord.t) (maxRetries : Z)
    (n : nat) (attempt : Z) (lastError : option string)
  : M AutomationResult.t :=
  match n with
  | 0 => ret (AutomationResult.mk false (lastErrorMessage lastError))
  | S n' =>
      out <- tentar site record maxRetries attempt ;;
      match out with
      | Resolves result =>
          if AutomationResult.success result
          then
            addLog site LogEntry.success
              ("Apólice " +:+ PolicyRecord.apolice record
               +:+ " – Cancelada com sucesso") ;;;
            ret result
          else
            aposErro site record maxRetries attempt
              (AutomationResult.message result)
              (tentativas site record maxRetries n' (attempt + 1)%Z
                 (Some (AutomationResult.message result)))
      | Rejects msg =>
          aposErro site record maxRetries attempt msg
            (tentativas site record maxRetries n' (attempt + 1)%Z (Some msg))
      end
  end.

Definition processarRegistro (site : Site) (record : PolicyRecord.t)
    (maxRetries : Z) : M AutomationResult.t :=
  tentativas site record maxRetries (Z.to_nat maxRetries) 1%Z None.

(** *** Orchestrator (src/services/automacao.service.ts) *)

(** [private async initialize()] *)
Definition initialize : M unit :=
  b <- gets (λ w, AutomacaoService.browser (automacao w)) ;;
  p <- gets (λ w, AutomacaoService.page (automacao w)) ;;
  if negb b || negb p then
    match initBrowserLogin amb with
    | BrowserFails msg => await SLogin 0 (emit SLogin InitBrowser ;;; throw msg)
    | outcome =>
        await SLogin 0 (emit SLogin InitBrowser) ;;;
        modify (with_automacao (AutomacaoService.set_browser true)) ;;;
        await SLogin 1
          match outcome with
          | LoginThrows msg => throw ("Falha no login: " +:+ msg)
          | _ => ret tt
          end ;;;
        match outcome with
        | LoginOk =>
            addLog SLogin LogEntry.info "Login realizado com sucesso" ;;;
            sleep SLogin 2
        | _ => throw "Falha no login"
        end
    end
  else ret tt.

Definition typeErrorStatus : string :=
  "Cannot read properties of undefined (reading 'status')".

(** [records[i]], an error when the index is past the end. *)
Definition recordAt (i : nat) : M PolicyRecord.t :=
  rs <- gets records ;;
  match rs !! i with
  | Some r => ret r
  | None => throw typeErrorStatus
  end.

(** The loop that counts the records before [startIndex]; [n] iterations
    remain and [i] is the loop variable. *)
Fixpoint contar (n i cancelados erros : nat) : M (nat * nat) :=
  match n with
  | 0 => ret (cancelados, erros)
  | S n' =>
      r <- recordAt i ;;
      let cancelados :=
        if decide (PolicyRecord.status r = cancelado)
        then S cancelados else cancelados in
      let erros :=
        if decide (PolicyRecord.status r = erro) then S erros else erros in
      contar n' (S i) cancelados erros
  end.

(** [while (this.statusService.isPaused() && this.isRunning)] with a poll of
    500 ms; [fuel] bounds the polls the model follows. *)
Fixpoint esperar (fuel i n : nat) : M unit :=
  p <- gets (λ w, StatusService.isPaused (statusService w)) ;;
  r <- gets (λ w, AutomacaoService.isRunning (automacao w)) ;;
  if p && r then
    match fuel with
    | 0 => λ w, ([], Blocked, w)
    | S fuel' => sleep (SEspera i) n ;;; esperar fuel' i (S n)
    end
  else ret tt.

Definition activeSession : M (option nat) :=
  gets (λ w, AutomacaoService.activeSession (automacao w)).

(** The block guarded by [this.statusService.isPaused()]; the result tells
    whether the loop goes on ([false] is the [break]). *)
Definition pausado (fuel i cancelados erros : nat) : M bool :=
  s <- activeSession ;;
  match s with
  | Some sid =>
      await (SPausa i) 0
        (updateSessionProgress (SPausa i) sid i cancelados erros
           (Some ExecutionSession.paused)) ;;;
      await (SPausa i) 1 (saveRecords (SPausa i) sid)
  | None => ret tt
  end ;;;
  esperar fuel i 0 ;;;
  r <- gets (λ w, AutomacaoService.isRunning (automacao w)) ;;
  if negb r then ret false
  else
    s <- activeSession ;;
    match s with
    | Some sid =>
        await (SRetoma i) 0
          (updateSessionProgress (SRetoma i) sid i cancelados erros
             (Some ExecutionSession.running))
    | None => ret tt
    end ;;;
    ret true.

(** [records[i].status = st], with the note when one is given. *)
Definition setRecord (i : nat) (st : RecordStatus) (obs : option string)
  : M unit :=
  r <- recordAt i ;;
  let r1 := PolicyRecord.set_status st r in
  let r2 := match obs with
            | Some o => PolicyRecord.set_observacao o r1
            | None => r1
            end in
  modify (with_records (λ rs, <[i := r2]> rs)).

(** Lines "Atualizar status para processando" and "Salvar progresso". *)
Definition antes (i cancelados erros : nat) : M unit :=
  setRecord i processando None ;;;
  publish (SAntes i) (StatusService.updateProgress i cancelados erros) ;;;
  s <- activeSession ;;
  match s with
  | Some sid =>
      await (SAntes i) 0 (saveRecords (SAntes i) sid) ;;;
      await (SAntes i) 1
        (updateSessionProgress (SAntes i) sid i cancelados erros None)
  | None => ret tt
  end.

(** "Processar registro": the retry controller and the status it leaves. *)
Definition processar (i cancelados erros : nat) : M (nat * nat) :=
  p <- gets (λ w, AutomacaoService.page (automacao w)) ;;
  if p : bool then
    record <- recordAt i ;;
    n <- gets (λ w, AutomacaoService.maxRetries (automacao w)) ;;
    result <- processarRegistro (STentativa i) record n ;;
    if AutomationResult.success result then
      setRecord i cancelado (Some (AutomationResult.message result)) ;;;
      ret (S cancelados, erros)
    else
      setRecord i erro (Some (AutomationResult.message result)) ;;;
      ret (cancelados, S erros)
  else ret (cancelados, erros).

(** "Atualizar progresso" *)
Definition atualizarProgresso (i cancelados erros : nat) : M unit :=
  publish (SDepois i) (StatusService.updateProgress (i + 1) cancelados erros).

(** "Salvar progresso no banco após cada registro" *)
Definition salvarProgresso (i cancelados erros : nat) : M unit :=
  s <- activeSession ;;
  match s with
  | Some sid =>
      await (SDepois i) 0 (saveRecords (SDepois i) sid) ;;;
      await (SDepois i) 1
        (updateSessionProgress (SDepois i) sid (i + 1) cancelados erros None)
  | None => ret tt
  end.

Definition depois (i cancelados erros : nat) : M unit :=
  atualizarProgresso i cancelados erros ;;;
  salvarProgresso i cancelados erros.

(** [for (let i = startIndex; i < records.length; i++)]: [n] is
    [records.length - i], the iterations that remain. *)
Fixpoint laco (fuel n i cancelados erros : nat) : M unit :=
  match n with
  | 0 => ret tt
  | S n' =>
      p <- gets (λ w, StatusService.isPaused (statusService w)) ;;
      continua <- (if p : bool then pausado fuel i cancelados erros
                   else ret true) ;;
      if negb continua then ret tt
      else
        r <- gets (λ w, AutomacaoService.isRunning (automacao w)) ;;
        if negb r then ret tt
        else
          antes i cancelados erros ;;;
          ce <- processar i cancelados erros ;;
          depois i ce.1 ce.2 ;;;
          laco fuel n' (S i) ce.1 ce.2
  end.

(** "Criar ou recuperar sessão no banco de dados" *)
Definition sessao (fileName : string) (startIndex : nat) : M unit :=
  a <- gets automacao ;;
  if AutomacaoService.databaseService a then
    match AutomacaoService.sessionId a with
    | Some (S n) =>
        await SSessao 0
          (updateSessionProgress SSessao (S n) startIndex 0 0
             (Some ExecutionSession.running))
    | _ =>
        (* [fileName || `execucao_${Date.now()}.xlsx`], without the clock *)
        let name := if decide (fileName = "") then "execucao_.xlsx"
                    else fileName in
        modify (with_automacao (AutomacaoService.set_currentFileName name)) ;;;
        sid <- await SSessao 0 (createSession SSessao name) ;;
        modify (with_automacao (AutomacaoService.set_sessionId sid)) ;;;
        addLog SSessao LogEntry.info
          ("Sessão criada no banco de dados (ID: " +:+ pretty sid +:+ ")")
    end
  else ret tt.

(** "Finalizar sessão" *)
Definition fim : M unit :=
  s <- activeSession ;;
  match s with
  | Some sid =>
      await SFim 0 (finishSession SFim sid ExecutionSession.completed) ;;;
      await SFim 1 (saveRecords SFim sid) ;;;
      addLog SFim LogEntry.info
        ("Sessão finalizada no banco de dados (ID: " +:+ pretty sid +:+ ")")
  | None => ret tt
  end ;;;
  addLog SFim LogEntry.info "Automação concluída".

Definition corpo (fuel : nat) (fileName : string) (startIndex : nat)
  : M unit :=
  sessao fileName startIndex ;;;
  initialize ;;;
  ce <- contar startIndex 0 0 0 ;;
  n <- gets (λ w, length (records w) - startIndex) ;;
  laco fuel n startIndex ce.1 ce.2 ;;;
  fim.

Definition capturar (msg : string) : M unit :=
  s <- activeSession ;;
  match s with
  | Some sid =>
      await SCatch 0 (swallow (finishSession SCatch sid ExecutionSession.error))
  | None => ret tt
  end ;;;
  addLog SCatch LogEntry.error ("Erro na automação: " +:+ msg) ;;;
  throw msg.

Definition finalmente : M unit :=
  modify (with_automacao (AutomacaoService.set_isRunning false)) ;;;
  publish SFinally StatusService.stop.

(** The [try { ... } catch (error) { ... } finally { ... }] block. *)
Definition protegido (fuel : nat) (fileName : string) (startIndex : nat)
  : M unit :=
  tryFinally (tryCatch (corpo fuel fileName startIndex) capturar) finalmente.

Definition jaEmExecucao : string := "Automação já está em execução".

(** [async processarRegistros(records, fileName, startIndex = 0)] *)
Definition processarRegistros (fuel : nat) (rs : list PolicyRecord.t)
    (fileName : string) (startIndex : nat) : M unit :=
  running <- gets (λ w, AutomacaoService.isRunning (automacao w)) ;;
  if running : bool then throw jaEmExecucao
  else
    modify (with_automacao (AutomacaoService.set_isRunning true)) ;;;
    modify (with_records (λ _, rs)) ;;;
    publish SInicio (StatusService.initialize (length rs)) ;;;
    publish SInicio StatusService.start ;;;
    publish SInicio (StatusService.updateProgress startIndex 0 0) ;;;
    protegido fuel fileName startIndex.
End Execucao.

(** ** The routes that start a run (src/server.ts) *)

(** [r.status === "pendente" || r.status === "erro"] *)
Definition pendenteOuErro (r : PolicyRecord.t) : Prop :=
  PolicyRecord.status r = pendente ∨ PolicyRecord.status r = erro.

#[global] Instance pendenteOuErro_dec r : Decision (pendenteOuErro r).
Proof. unfold pendenteOuErro. apply _. Defined.

(** [records.findIndex(...)]; [None] stands for -1. *)
Definition findIndex (rs : list PolicyRecord.t) : option nat :=
  fst <$> list_find pendenteOuErro rs.

Module Server.
(** The module-level variables of the server.  [automacaoService] tells
    whether the variable holds a service; the service itself, the status
    service and the store live in [world].  [currentFilePath] is kept as
    the base name of the file. *)
Record t := mk {
  world : World;
  automacaoService : bool;
  currentRecords : list PolicyRecord.t;
  currentFilePath : option string;
  maxRetries : Z
}.

Inductive Response :=
| Error (code : nat) (error : string)
| Started (message : string)
| Resumed (message : string)
    (sessionId startIndex totalRecords recordsToProcess : nat).

(** The call [automacaoService.processarRegistros(records, fileName,
    startIndex)] a route leaves running in the background. *)
Record Start := mkStart {
  startRecords : list PolicyRecord.t;
  startFileName : string;
  startIndex : nat
}.

(** [automacaoService?.isRunningCheck()] *)
Definition running (s : t) : bool :=
  automacaoService s && AutomacaoService.isRunningCheck (automacao (world s)).

(** [automacaoService = new AutomacaoService(statusService,
    automationConfig, databaseService)] *)
Definition newService (s : t) : World :=
  with_automacao (λ _, AutomacaoService.new true (maxRetries s)) (world s).

(** POST /api/executar *)
Definition executar (s : t) : Response * t * option Start :=
  if decide (length (currentRecords s) = 0)
  then (Error 400 "Nenhuma planilha carregada", s, None)
  else if running s
  then (Error 400 "Automação já está em execução", s, None)
  else
    let recordsToProcess := filter pendenteOuErro (currentRecords s) in
    if decide (length recordsToProcess = 0)
    then (Error 400 "Nenhum registro para processar", s, None)
    else
      let fileName := default "execucao_.xlsx" (currentFilePath s) in
      let startIndex := default 0 (findIndex (currentRecords s)) in
      (Started "Automação iniciada",
       mk (newService s) true (currentRecords s) (currentFilePath s)
          (maxRetries s),
       Some (mkStart recordsToProcess fileName startIndex)).

(** POST /api/retomar/:id; [id] is [parseInt(req.params.id)], [None] when
    it is not a number.  The reads of the store are taken to succeed. *)
Definition retomar (id : option nat) (s : t) : Response * t * option Start :=
  match id with
  | None => (Error 400 "ID de sessão inválido", s, None)
  | Some sessionId =>
      if running s
      then (Error 400 "Automação já está em execução", s, None)
      else
        match DatabaseService.getSession sessionId (database (world s)) with
        | None => (Error 404 "Sessão não encontrada", s, None)
        | Some session =>
            if decide (ExecutionSession.status session
                       = ExecutionSession.completed)
            then (Error 400 "Sessão já foi concluída", s, None)
            else
              let records :=
                DatabaseService.getSessionRecordsAsPolicyRecords sessionId
                  (database (world s)) in
              match findIndex records with
              | None =>
                  (Error 400 "Nenhum registro pendente para processar", s, None)
              | Some startIndex =>
                  let recordsToProcess := filter pendenteOuErro records in
                  (Resumed "Execução retomada" sessionId startIndex
                     (length records) (length recordsToProcess),
                   mk (newService s) true records
                      (Some (ExecutionSession.fileName session))
                      (maxRetries s),
                   Some (mkStart recordsToProcess
                           (ExecutionSession.fileName session) startIndex))
              end
        end
  end.

(** The background call of a route, run to its end. *)
Definition background (amb : Ambiente) (fuel : nat)
    (r : Response * t * option Start)
  : list LEvent * Outcome unit * World :=
  match r.2 with
  | Some st =>
      processarRegistros amb fuel (startRecords st) (startFileName st)
        (startIndex st) (world r.1.2)
  | None => ([], Ok tt, world r.1.2)
  end.
End Server.

(** ** Reading a trace *)

(** The calls of [cancelarApolice], in order. *)
Definition attempts (t : list LEvent) : list (PolicyRecord.t * Z) :=
  omap (λ e, match e.2 with
             | CancelarApolice r k => Some (r, k)
             | _ => None
             end) t.

(** The policies handed to the external actor, in order. *)
Definition attempted (t : list LEvent) : list string :=
  (λ a, PolicyRecord.apolice a.1) <$> attempts t.

(** The counters of every [updateSessionProgress], in order:
    processed, canceled, errors. *)
Definition progressWrites (t : list LEvent) : list (nat * nat * nat) :=
  omap (λ e, match e.2 with
             | DbUpdateSessionProgress _ p c x _ => Some (p, c, x)
             | _ => None
             end) t.

(** The status snapshots handed to the subscribers, in order. *)
Definition published (t : list LEvent) : list ProcessStatus.t :=
  omap (λ e, match e.2 with EmitStatus s => Some s | _ => None end) t.

(** The terminal statuses written by [finishSession], with their origin. *)
Definition finishes (t : list LEvent) : list (Site * ExecutionSession.state) :=
  omap (λ e, match e.2 with
             | DbFinishSession _ s => Some (e.1, s)
             | _ => None
             end) t.

Definition isWrite (e : Event) : bool :=
  match e with
  | DbCreateSession _ _ _ | DbSaveRecords _ _
  | DbUpdateSessionProgress _ _ _ _ _ | DbFinishSession _ _ => true
  | _ => false
  end.

(** What a failed attempt leaves in [lastError.message]; [None] for an
    attempt that succeeds. *)
Definition failure (a : Attempt) : option string :=
  match a with
  | Resolves r =>
      if AutomationResult.success r then None
      else Some (AutomationResult.message r)
  | Rejects msg => Some msg
  end.

(** Sample data for the scenarios. *)
Definition registro (a : string) (st : RecordStatus) : PolicyRecord.t :=
  PolicyRecord.mk a "1" "" "100,00" "" "" "" st "".

Definition sucesso : Attempt :=
  Resolves (AutomationResult.mk true "Cancelamento realizado com sucesso").

Definition falha (msg : string) : Attempt :=
  Resolves (AutomationResult.mk false msg).

(** A fresh process: a service with the store attached and [MAX_RETRIES=2],
    nothing published, an empty store. *)
Definition mundoInicial : World :=
  mkWorld (AutomacaoService.new true 2) StatusService.new
    DatabaseService.empty [] 0 0.

(** An environment in which the actor always succeeds, the store never
    rejects and no route is called. *)
Definition ambienteCalmo : Ambiente :=
  mkAmbiente (λ _, sucesso) (λ _, None) LoginOk (λ _ _, []).

(** Any sequence of [addLog] calls. *)
Definition addLogs (es : list LogEntry.t) (s : StatusService.t)
  : StatusService.t :=
  foldl (λ s e, StatusService.addLog (LogEntry.type e) (LogEntry.message e) s)
    s es.

(** ** Vocabulary of the properties *)

(** A property of traces that the empty trace has and that concatenation
    keeps. *)
Class Closed (Q : list LEvent → Prop) := {
  closed_nil : Q [];
  closed_app t1 t2 : Q t1 → Q t2 → Q (t1 ++ t2)
}.

(** Every trace [m] can produce satisfies [Q]. *)
Definition emits {A} (Q : list LEvent → Prop) (m : M A) : Prop :=
  ∀ w, Q (m w).1.1.

(** An event of a route call that ran while the loop was suspended. *)
Definition deControle (e : LEvent) : Prop :=
  e.1 = SControle ∧ attempts [e] = [].

(** [R] holds of what the orchestrator itself emits at a site. *)
Definition own (R : LEvent → Prop) (site : Site) : Prop :=
  ∀ x, attempts [(site, x)] = [] → R (site, x).

(** [R] holds of what the retry controller emits at a site. *)
Definition ownRetry (R : LEvent → Prop) (site : Site) : Prop :=
  ∀ x, (∀ msg, x ≠ DbRejected msg) → R (site, x).

(** Persist first: every snapshot published after record [i] comes after a
    checkpoint write made for record [i]. *)
Definition persistBeforePublish (t : list LEvent) : Prop :=
  ∀ n i s, t !! n = Some (SDepois i, EmitStatus s) →
    ∃ m e, m < n ∧ t !! m = Some (SDepois i, e) ∧ isWrite e = true.

(** Publish first: every checkpoint write made after record [i] comes after
    the snapshot published for record [i]. *)
Definition publishBeforePersist (t : list LEvent) : Prop :=
  ∀ n i e, t !! n = Some (SDepois i, e) → isWrite e = true →
    ∃ m s, m < n ∧ t !! m = Some (SDepois i, EmitStatus s)
           ∧ ProcessStatus.currentIndex s = i + 1.

(** An event that is not at the site after a record. *)
Definition foraDeDepois (e : LEvent) : Prop := ∀ i, e.1 ≠ SDepois i.

(** The sites at which [processarRegistros] awaits a call into the store
    with no [catch] of its own. *)
Definition checkpoint (site : Site) : bool :=
  match site with
  | SSessao | SPausa _ | SRetoma _ | SAntes _ | SDepois _ | SFim => true
  | _ => false
  end.

(** If a checkpoint write is rejected, the computation rejects with the same
    error, and only route calls that were already under way follow it. *)
Definition haltsAt {A} (t : list LEvent) (r : Outcome A) : Prop :=
  ∀ n site msg, t !! n = Some (site, DbRejected msg) → checkpoint site = true →
    r = Threw msg ∧ ∀ m e, n < m → t !! m = Some e → deControle e.

Definition halting {A} (m : M A) : Prop := ∀ w, haltsAt (m w).1.1 (m w).1.2.

(** An event that is not a rejected checkpoint write. *)
Definition inofensivo (e : LEvent) : Prop :=
  ∀ msg, e.2 = DbRejected msg → checkpoint e.1 = false.

(** What can follow a rejected checkpoint write: the route calls under way,
    the [catch] block and the [finally] block; never a call of the actor. *)
Definition aposFalha (e : LEvent) : Prop :=
  (e.1 = SControle ∨ e.1 = SCatch ∨ e.1 = SFinally) ∧ attempts [e] = [].

(** The world in which a run that was let in enters its protected block. *)
Definition entrada (rs : list PolicyRecord.t) (startIndex : nat) (w : World)
  : World :=
  with_status (StatusService.updateProgress startIndex 0 0)
    (with_status StatusService.start
       (with_status (StatusService.initialize (length rs))
          (with_records (λ _, rs)
             (with_automacao (AutomacaoService.set_isRunning true) w)))).

(** The error the [n]-th of the attempts that start in [w] leaves behind;
    [lastError] when there is no attempt. *)
Definition ultimoErro (amb : Ambiente) (n : nat) (lastError : option string)
    (w : World) : option string :=
  match n with
  | 0 => lastError
  | S m => failure (cancelarApolice amb (actorCalls w + m))
  end.

(** What lines "Atualizar status do registro" leave in [records[i]]. *)
Definition registrado (result : AutomationResult.t) (record : PolicyRecord.t)
  : PolicyRecord.t :=
  PolicyRecord.set_observacao (AutomationResult.message result)
    (PolicyRecord.set_status
       (if AutomationResult.success result then cancelado else erro) record).

(** ** Scenarios *)

(** A service that has logged in and is about to process the only record. *)
Definition mundoLogado : World :=
  mkWorld (AutomacaoService.mk true true true 2 true (Some 1) "planilha.xlsx")
    StatusService.new DatabaseService.empty
    [registro "A0" processando] 0 0.

(** The first call of the actor fails, the following ones succeed. *)
Definition ambienteFalhaSucesso : Ambiente :=
  mkAmbiente
    (λ n, if decide (n = 0) then falha "Timeout 10000ms exceeded" else sucesso)
    (λ _, None) LoginOk (λ _ _, []).

(** Every call of the actor fails; the first two with distinct messages. *)
Definition ambienteFalhaFalha : Ambiente :=
  mkAmbiente
    (λ n, if decide (n = 0) then falha "Timeout 10000ms exceeded"
          else Rejects "Erro no fluxo de cancelamento: sessão inválida")
    (λ _, None) LoginOk (λ _ _, []).

(** The actor fails with an empty message. *)
Definition ambienteMudo : Ambiente :=
  mkAmbiente (λ _, falha "") (λ _, None) LoginOk (λ _ _, []).

(** The fourth call into the store, the [saveRecords] after the first
    record, is rejected. *)
Definition ambienteBanco : Ambiente :=
  mkAmbiente (λ _, sucesso)
    (λ n, if decide (n = 3) then Some "SQLITE_BUSY: database is locked"
          else None)
    LoginOk (λ _ _, []).

(** POST /api/parar arrives while the loop awaits the
    [updateSessionProgress] that follows the first record. *)
Definition ambienteParar : Ambiente :=
  mkAmbiente (λ _, sucesso) (λ _, None) LoginOk
    (λ site k, if decide (site = SDepois 0 ∧ k = 1) then [Parar] else []).

(** POST /api/pausar arrives during the first attempt on the first record,
    POST /api/parar during the first poll of the pause that follows. *)
Definition ambientePausaParar : Ambiente :=
  mkAmbiente (λ _, sucesso) (λ _, None) LoginOk
    (λ site k,
       if decide (site = STentativa 0 ∧ k = 0) then [Pausar]
       else if decide (site = SEspera 1 ∧ k = 0) then [Parar]
       else []).

(** A server whose store holds session 1 with the given records, left
    behind by a process that died: no service, nothing loaded. *)
Definition servidorCom (rs : list PolicyRecord.t) : Server.t :=
  Server.mk
    (mkWorld (AutomacaoService.new true 2) StatusService.new
       (DatabaseService.createSession "planilha.xlsx" rs
          DatabaseService.empty).2
       [] 0 0)
    false [] None 2.

(** A server in the middle of a run over one loaded record. *)
Definition servidorOcupado : Server.t :=
  Server.mk mundoLogado true [registro "A0" processando]
    (Some "planilha.xlsx") 2.

(** A fresh process into which a spreadsheet has been uploaded. *)
Definition servidorCarregado (rs : list PolicyRecord.t) : Server.t :=
  Server.mk mundoInicial false rs (Some "planilha.xlsx") 2.

(** POST /api/parar arrives while the loop is suspended in the first call
    of the actor. *)
Definition ambientePararNaChamada : Ambiente :=
  mkAmbiente (λ _, sucesso) (λ _, None) LoginOk
    (λ site k, if decide (site = STentativa 0 ∧ k = 0) then [Parar] else []).

(** [processarRegistros] from its entry to the first call of the actor,
    with the route calls that arrive during that call: what a run from
    index 0 has done when the loop is suspended in [cancelarApolice] for
    the first time.  The steps are those of [processarRegistros], [corpo],
    [laco] and [processar], in their order. *)
Definition ateAPrimeiraChamada (amb : Ambiente) (rs : list PolicyRecord.t)
    (fileName : string) : M Attempt :=
  modify (with_automacao (AutomacaoService.set_isRunning true)) ;;;
  modify (with_records (λ _, rs)) ;;;
  publish SInicio (StatusService.initialize (length rs)) ;;;
  publish SInicio StatusService.start ;;;
  publish SInicio (StatusService.updateProgress 0 0 0) ;;;
  sessao amb fileName 0 ;;;
  initialize amb ;;;
  antes amb 0 0 0 ;;;
  record <- recordAt 0 ;;
  n <- gets (λ w, AutomacaoService.maxRetries (automacao w)) ;;
  tentar amb (STentativa 0) record n 1.

(** ** Further parts of the program *)

(** The loop of POST /api/reprocessar (src/server.ts) over [currentRecords]:
    a record in error goes back to "pendente" with a fixed note. *)
Definition resetErro (r : PolicyRecord.t) : PolicyRecord.t :=
  if decide (PolicyRecord.status r = erro)
  then PolicyRecord.set_observacao "Aguardando reprocessamento"
         (PolicyRecord.set_status pendente r)
  else r.

Definition reprocessar (rs : list PolicyRecord.t) : list PolicyRecord.t :=
  resetErro <$> rs.

(** The values of the [status] field, as [saveSpreadsheet] writes them to
    the STATUS column (src/services/planilha.service.ts). *)
Definition statusName (s : RecordStatus) : string :=
  match s with
  | pendente => "pendente"
  | processando => "processando"
  | cancelado => "cancelado"
  | erro => "erro"
  end.

(** [String.prototype.trim] and [toLowerCase] on texts of ASCII characters:
    the blanks are TAB, LF, VT, FF, CR and the space, the letters that
    change are A to Z.  (JavaScript also strips the blanks outside ASCII and
    lowers the letters outside ASCII; a text is a string of bytes here, and
    those are left as they are.) *)
Fixpoint trimStart (s : string) : string :=
  match s with
  | String c s' => if Ascii.is_space c then trimStart s' else s
  | EmptyString => s
  end.

Definition trimEnd (s : string) : string :=
  String.rev (trimStart (String.rev s)).

Definition trim (s : string) : string := trimEnd (trimStart s).

Definition lower (c : ascii) : ascii :=
  let n := nat_of_ascii c in
  if decide (65 ≤ n ≤ 90) then ascii_of_nat (n + 32) else c.

Fixpoint toLowerCase (s : string) : string :=
  match s with
  | String c s' => String (lower c) (toLowerCase s')
  | EmptyString => EmptyString
  end.

(** "Normalizar status" of [readSpreadsheet]; [cell] is the text of the
    STATUS cell, [String(row[headerMap["STATUS"]] || "")]. *)
Definition normalizeStatus (cell : string) : RecordStatus :=
  let statusValue := toLowerCase (trim cell) in
  if decide (statusValue = "cancelado" ∨ statusValue = "cancelada")
  then cancelado
  else if decide (statusValue = "processando"
                  ∨ statusValue = "em processamento")
  then processando
  else if decide (statusValue = "erro" ∨ statusValue = "error"
                  ∨ statusValue = "falha")
  then erro
  else if decide (statusValue = "pendente" ∨ statusValue = "aguardando"
                  ∨ statusValue = "")
  then pendente
  else pendente.

(** A text made of blanks only. *)
Fixpoint brancos (s : string) : bool :=
  match s with
  | String c s' => Ascii.is_space c && brancos s'
  | EmptyString => true
  end.

(** ** Vocabulary of the further properties *)

(** *** Double precision *)

(** The same computation with the operations on binary64 numbers of the
    Standard Library ([prec = 53], [emax = 1024]), for comparison. *)
Definition binary64 (n : Z) : spec_float := binary_normalize 53 1024 n 0 false.

Definition fracao (x : spec_float) : Z * Z :=
  match x with
  | S754_finite false m e =>
      ((Zpos m * 2 ^ Z.max 0 e)%Z, (2 ^ Z.max 0 (- e))%Z)
  | _ => (0%Z, 1%Z)
  end.

Definition Math_round_pct_binary64 (num den : nat) : nat :=
  Z.to_nat
    (Math_round
       (fracao
          (SFmul 53 1024
             (SFdiv 53 1024 (binary64 (Z.of_nat num)) (binary64 (Z.of_nat den)))
             (binary64 100)))).

(** *** The store *)

(** The session ids are 1, 2, 3, ... in the order of creation, and every
    record row belongs to a session. *)
Definition wfDb (db : DatabaseService.t) : Prop :=
  ExecutionSession.id <$> DatabaseService.execution_sessions db
  = seq 1 (length (DatabaseService.execution_sessions db))
  ∧ Forall (λ r, 1 ≤ ProcessedRecord.sessionId r
                 ≤ length (DatabaseService.execution_sessions db))
      (DatabaseService.processed_records db).

(** What the UPDATE statements of [saveRecords sid rs] do to one row. *)
Definition overwrite (sid : nat) (rs : list PolicyRecord.t)
    (x : ProcessedRecord.t) : ProcessedRecord.t :=
  if decide (ProcessedRecord.sessionId x = sid) then
    match rs !! ProcessedRecord.recordIndex x with
    | Some r => DatabaseService.toRow sid (ProcessedRecord.recordIndex x) r
    | None => x
    end
  else x.

(** The rows of session [sid] are those of the records [rs], in order. *)
Definition storedAs (sid : nat) (rs : list PolicyRecord.t)
    (db : DatabaseService.t) : Prop :=
  DatabaseService.rowsOf sid db = imap (DatabaseService.toRow sid) rs.

(** The store holds the rows of a run in progress: one row for each of the
    [n] records of session [sid], and the session row, still running. *)
Definition guardado (sid : nat) (name : string) (n : nat)
    (db : DatabaseService.t) : Prop :=
  (∃ old, storedAs sid old db ∧ length old = n)
  ∧ ∃ p c e,
      DatabaseService.getSession sid db
      = Some (ExecutionSession.mk sid name false ExecutionSession.running
                n p c e).

(** *** The routes *)

(** What a route that starts a run answers and leaves behind, for the
    records [rs] it works on: an error and no change, or a run over the
    unfinished records of [rs] with a new service. *)
Definition respondeOuInicia (s : Server.t) (rs : list PolicyRecord.t)
    (r : Server.Response * Server.t * option Server.Start) : Prop :=
  match r.2 with
  | None => (∃ code msg, r.1.1 = Server.Error code msg) ∧ r.1.2 = s
  | Some st =>
      (∀ code msg, r.1.1 ≠ Server.Error code msg)
      ∧ Server.running s = false
      ∧ Server.startRecords st = filter pendenteOuErro rs
      ∧ Server.startRecords st ≠ []
      ∧ findIndex rs = Some (Server.startIndex st)
      ∧ Server.currentRecords r.1.2 = rs
      ∧ Server.automacaoService r.1.2 = true
      ∧ automacao (Server.world r.1.2)
        = AutomacaoService.new true (Server.maxRetries s)
      ∧ database (Server.world r.1.2) = database (Server.world s)
      ∧ statusService (Server.world r.1.2) = statusService (Server.world s)
  end.

(** *** Traces *)

(** The log lines handed to the subscribers, in order. *)
Definition logLines (t : list LEvent) : list LogEntry.t :=
  omap (λ e, match e.2 with EmitLog l => Some l | _ => None end) t.

(** What the loop itself emitted: the trace without the events of the route
    calls. *)
Definition proprios (t : list LEvent) : list LEvent :=
  filter (λ ev, ev.1 ≠ SControle) t.

(** Any trace. *)
Definition qualquer (t : list LEvent) : Prop := True.

(** No call of the actor. *)
Definition semTentativa (t : list LEvent) : Prop := attempts t = [].

(** No progress write. *)
Definition semEscrita (t : list LEvent) : Prop := progressWrites t = [].

(** A progress write whose counters add up. *)
Definition equilibrado (x : nat * nat * nat) : Prop := x.1.1 = x.1.2 + x.2.

(** If the event is a call of the actor, it is made while record [i] is
    processed, for the policy at position [i] of [rs]. *)
Definition tentativaDe (rs : list PolicyRecord.t) (i : nat) (e : LEvent)
  : Prop :=
  match e.2 with
  | CancelarApolice r _ =>
      e.1 = STentativa i
      ∧ PolicyRecord.apolice <$> rs !! i = Some (PolicyRecord.apolice r)
  | _ => True
  end.

(** The calls of the actor in a trace go through [rs] in order, from
    position [lo] on, without ever going back. *)
Fixpoint emOrdem (rs : list PolicyRecord.t) (lo : nat) (t : list LEvent)
  : Prop :=
  match t with
  | [] => True
  | e :: t' =>
      match e.2 with
      | CancelarApolice r _ =>
          ∃ i, e.1 = STentativa i ∧ lo ≤ i
               ∧ PolicyRecord.apolice <$> rs !! i
                 = Some (PolicyRecord.apolice r)
               ∧ emOrdem rs i t'
      | _ => emOrdem rs lo t'
      end
  end.

(** *** Specifications of asynchronous methods *)

(** [{P} m {T; R}]: started in a world with [P], [m] emits a trace with [T]
    and ends with an outcome and a world related by [R]. *)
Definition triple {A} (P : World → Prop) (m : M A)
    (T : list LEvent → Prop) (R : Outcome A → World → Prop) : Prop :=
  ∀ w, P w → T (m w).1.1 ∧ R (m w).1.2 (m w).2.

(** [m] keeps the invariant [I] when it resolves or rejects, and is still
    polling at the end of the fuel only in a world with [B]. *)
Definition mantem {A} (I : World → Prop) (T : list LEvent → Prop)
    (B : World → Prop) (m : M A) : Prop :=
  triple I m T (λ o w, match o with Blocked => B w | _ => I w end).

(** Any world, no world. *)
Definition sempre (w : World) : Prop := True.
Definition nunca (w : World) : Prop := False.

(** A property of the world that the route calls arriving at a suspension
    point keep. *)
Definition estavel (amb : Ambiente) (I : World → Prop) : Prop :=
  ∀ site k w, I w → I (entregar amb (comandos amb site k) w).2.

(** A property of traces that the route calls arriving at a suspension point
    have. *)
Definition discreto (amb : Ambiente) (T : list LEvent → Prop) : Prop :=
  ∀ site k w, T (entregar amb (comandos amb site k) w).1.1.

(** No route is called, the store accepts every call and the login
    succeeds. *)
Definition sossegado (amb : Ambiente) : Prop :=
  (∀ site k, comandos amb site k = [])
  ∧ (∀ n, dbRejects amb n = None)
  ∧ initBrowserLogin amb = LoginOk.

(** *** States of a run *)

(** The loop has been told to stop and holds the records [rs]. *)
Definition parado (rs : list PolicyRecord.t) (w : World) : Prop :=
  AutomacaoService.isRunning (automacao w) = false ∧ records w = rs.

(** The loop is polling: paused and not told to stop. *)
Definition emEspera (w : World) : Prop :=
  StatusService.isPaused (statusService w) = true
  ∧ AutomacaoService.isRunning (automacao w) = true.

(** The error [initialize] rejects with when the browser cannot be started
    or the login fails. *)
Definition erroDeLogin (o : LoginOutcome) : option string :=
  match o with
  | BrowserFails msg => Some msg
  | LoginThrows msg => Some ("Falha no login: " +:+ msg)
  | LoginFalse => Some "Falha no login"
  | LoginOk => None
  end.

(** The service holds no browser and the run holds the records [rs]. *)
Definition semNavegador (rs : list PolicyRecord.t) (w : World) : Prop :=
  AutomacaoService.browser (automacao w) = false ∧ records w = rs.

(** The run holds the records [rs]. *)
Definition comRegistros (rs : list PolicyRecord.t) (w : World) : Prop :=
  records w = rs.

(** The records of the run carry the policy numbers of [rs], in order. *)
Definition mesmaApolice (rs : list PolicyRecord.t) (w : World) : Prop :=
  PolicyRecord.apolice <$> records w = PolicyRecord.apolice <$> rs.

(** The retry loop of [processarRegistro] read as a function of the actor
    alone: [n] attempts remain and the next call of the actor is call
    number [k] of the run.  The result, and the number of calls made. *)
Fixpoint desfecho (actor : nat → Attempt) (n k : nat)
    (lastError : option string) : AutomationResult.t * nat :=
  match n with
  | 0 => (AutomationResult.mk false (lastErrorMessage lastError), 0)
  | S n' =>
      match actor k with
      | Resolves result =>
          if AutomationResult.success result then (result, 1)
          else
            let d := desfecho actor n' (S k)
                       (Some (AutomationResult.message result)) in
            (d.1, S d.2)
      | Rejects msg =>
          let d := desfecho actor n' (S k) (Some msg) in (d.1, S d.2)
      end
  end.

(** The call of the actor with which the processing of record [i] starts
    when every record before it has taken the calls of its own retry loop;
    [k0] is the first call of the run. *)
Fixpoint primeiraChamada (actor : nat → Attempt) (n k0 i : nat) : nat :=
  match i with
  | 0 => k0
  | S j =>
      let k := primeiraChamada actor n k0 j in
      k + (desfecho actor n k None).2
  end.

(** The result of the retry loop for record [i] of such a run. *)
Definition resultadoDe (actor : nat → Attempt) (n k0 i : nat)
  : AutomationResult.t :=
  (desfecho actor n (primeiraChamada actor n k0 i) None).1.

(** What the loop relies on and keeps while nobody interferes. *)
Definition emCurso (a0 : AutomacaoService.t) (sid : nat) (name : string)
    (n : nat) (w : World) : Prop :=
  automacao w = a0
  ∧ StatusService.isPaused (statusService w) = false
  ∧ length (records w) = n
  ∧ guardado sid name n (database w).

(** The records before [i] carry the outcome of their processing, [res j]
    for record [j]; the others are as they were handed in; [c] and [e]
    count the outcomes, and the session row carries the three counters. *)
Definition processados (rs : list PolicyRecord.t)
    (res : nat → AutomationResult.t) (sid : nat) (name : string)
    (i c e : nat) (w : World) : Prop :=
  (∀ j r, j < i → rs !! j = Some r →
     records w !! j = Some (registrado (res j) r))
  ∧ (∀ j, i ≤ j → records w !! j = rs !! j)
  ∧ c = length (filter (λ r, PolicyRecord.status r = cancelado)
                  (take i (records w)))
  ∧ e = length (filter (λ r, PolicyRecord.status r = erro)
                  (take i (records w)))
  ∧ c + e = i
  ∧ DatabaseService.getSession sid (database w)
    = Some (ExecutionSession.mk sid name false ExecutionSession.running
              (length rs) i c e).

(** *** Sessions and records across a run *)

(** The session a call into the store writes to. *)
Definition sessaoDe (e : Event) : option nat :=
  match e with
  | DbCreateSession sid _ _ | DbSaveRecords sid _
  | DbUpdateSessionProgress sid _ _ _ _ | DbFinishSession sid _ => Some sid
  | _ => None
  end.

(** If the event is a write, it is a write to session [sid]. *)
Definition soNaSessao (sid : nat) (e : LEvent) : Prop :=
  ∀ x, sessaoDe e.2 = Some x → x = sid.

(** Session [id] reads in [db] as it does in [db0]. *)
Definition intocada (id : nat) (db0 db : DatabaseService.t) : Prop :=
  DatabaseService.getSession id db = DatabaseService.getSession id db0
  ∧ DatabaseService.rowsOf id db = DatabaseService.rowsOf id db0.

(** Session [id] is as it was, and the service writes to session [sid],
    which it has opened or is about to open. *)
Definition novaSessao (id sid : nat) (db0 : DatabaseService.t) (w : World)
  : Prop :=
  intocada id db0 (database w)
  ∧ (AutomacaoService.sessionId (automacao w) = Some sid
     ∨ AutomacaoService.sessionId (automacao w) = None
       ∧ DatabaseService.nextId (database w) = sid).

(** Session [id] is as it was, and the service has no session yet. *)
Definition semSessao (id : nat) (db0 : DatabaseService.t) (w : World)
  : Prop :=
  intocada id db0 (database w)
  ∧ AutomacaoService.sessionId (automacao w) = None.

(** [r'] is [r] with another status and another note. *)
Definition mesmoRegistro (r r' : PolicyRecord.t) : Prop :=
  ∃ st obs,
    r' = PolicyRecord.set_observacao obs (PolicyRecord.set_status st r).

(** The records of the run are those of [rs], up to status and note. *)
Definition soEstado (rs : list PolicyRecord.t) (w : World) : Prop :=
  Forall2 mesmoRegistro rs (records w).

(** *** Further scenarios *)

(** The login page answers, and refuses the credentials. *)
Definition ambienteSemLogin : Ambiente :=
  mkAmbiente (λ _, sucesso) (λ _, None) LoginFalse (λ _ _, []).

(** A store that holds one session of two pending records. *)
Definition bancoComSessao : DatabaseService.t :=
  (DatabaseService.createSession "planilha.xlsx"
     [registro "A0" pendente; registro "A1" pendente]
     DatabaseService.empty).2.

(** [mundoLogado] with the running flag cleared. *)
Definition mundoParado : World :=
  with_automacao (AutomacaoService.set_isRunning false) mundoLogado.

(** [mundoParado] with the pause flag set. *)
Definition mundoPausado : World :=
  with_status StatusService.pause mundoParado.

(** ** Properties of the progress publisher *)

Lemma addLog_logs ty msg s :
  StatusService.getLogs (StatusService.addLog ty msg s)
  = take 100 (LogEntry.mk ty msg :: StatusService.getLogs s).
Proof.
  unfold StatusService.getLogs, StatusService.addLog.
  cbn [StatusService.logs].
  case_decide as H; [reflexivity|].
  symmetry; apply take_ge. lia.
Qed.

Lemma take_app_take {A} n (l1 l2 : list A) :
  take n (l1 ++ take n l2) = take n (l1 ++ l2).
Proof. rewrite !take_app, take_take. do 2 f_equal. lia. Qed.

Lemma addLogs_logs (es : list LogEntry.t) : ∀ s : StatusService.t,
  length (StatusService.getLogs s) ≤ 100 →
  StatusService.getLogs (addLogs es s)
  = take 100 (reverse es ++ StatusService.getLogs s).
Proof.
  induction es as [|[ty msg] es IH]; intros s Hs.
  - symmetry; apply take_ge; exact Hs.
  - change (addLogs (LogEntry.mk ty msg :: es) s)
      with (addLogs es (StatusService.addLog ty msg s)).
    rewrite IH by (rewrite addLog_logs, length_take; lia).
    rewrite addLog_logs, take_app_take, reverse_cons, <- app_assoc.
    reflexivity.
Qed.

(** C9.  After any sequence of [addLog] calls, made on a new publisher or
    on one that [initialize] has just reset for a run, the buffer returned
    by [getLogs] holds at most 100 entries, and they are exactly the 100
    most recently added ones, newest first. *)
Theorem C9_log_buffer_bounded (es : list LogEntry.t) (n : nat)
    (s0 : StatusService.t) :
  let fresh := addLogs es StatusService.new in
  let reset := addLogs es (StatusService.initialize n s0) in
  (length (StatusService.getLogs fresh) ≤ 100
   ∧ StatusService.getLogs fresh = take 100 (reverse es))
  ∧ (length (StatusService.getLogs reset) ≤ 100
     ∧ StatusService.getLogs reset = take 100 (reverse es)).
Proof.
  assert (H : ∀ s, StatusService.getLogs s = [] →
              length (StatusService.getLogs (addLogs es s)) ≤ 100
              ∧ StatusService.getLogs (addLogs es s) = take 100 (reverse es)).
  { intros s Hs.
    assert (He : StatusService.getLogs (addLogs es s) = take 100 (reverse es)).
    { rewrite addLogs_logs by (rewrite Hs; simpl; lia).
      by rewrite Hs, app_nil_r. }
    split; [|exact He]. rewrite He, length_take. lia. }
  split; by apply H.
Qed.

(** ** What a computation can emit *)

#[global] Instance Forall_Closed (R : LEvent → Prop) : Closed (Forall R).
Proof. split; [constructor | intros; by apply Forall_app]. Qed.

Section Emits.
Variable amb : Ambiente.
Context (Q : list LEvent → Prop) `{!Closed Q}.

Lemma emits_ret {A} (a : A) : emits Q (ret a).
Proof. intros w; apply closed_nil. Qed.

Lemma emits_throw {A} msg : emits Q (@throw A msg).
Proof. intros w; apply closed_nil. Qed.

Lemma emits_gets {A} (f : World → A) : emits Q (gets f).
Proof. intros w; apply closed_nil. Qed.

Lemma emits_modify f : emits Q (modify f).
Proof. intros w; apply closed_nil. Qed.

Lemma emits_emit site e : Q [(site, e)] → emits Q (emit site e).
Proof. intros H w; exact H. Qed.

Lemma emits_bind {A B} (m : M A) (k : A → M B) :
  emits Q m → (∀ a, emits Q (k a)) → emits Q (bind m k).
Proof.
  intros Hm Hk w. unfold bind.
  specialize (Hm w). destruct (m w) as [[t1 [a|msg|]] w1]; simpl in *; auto.
  specialize (Hk a w1). destruct (k a w1) as [[t2 r2] w2]; simpl in *.
  by apply closed_app.
Qed.

Lemma emits_tryCatch {A} (m : M A) h :
  emits Q m → (∀ msg, emits Q (h msg)) → emits Q (tryCatch m h).
Proof.
  intros Hm Hh w. unfold tryCatch.
  specialize (Hm w). destruct (m w) as [[t1 [a|msg|]] w1]; simpl in *; auto.
  specialize (Hh msg w1). destruct (h msg w1) as [[t2 r2] w2]; simpl in *.
  by apply closed_app.
Qed.

Lemma emits_tryFinally {A} (m : M A) f :
  emits Q m → emits Q f → emits Q (tryFinally m f).
Proof.
  intros Hm Hf w. unfold tryFinally.
  specialize (Hm w). destruct (m w) as [[t1 r1] w1]; simpl in *.
  specialize (Hf w1).
  destruct r1, (f w1) as [[t2 [[]|msg2|]] w2]; simpl in *; auto;
    by apply closed_app.
Qed.

Lemma emits_swallow m : emits Q m → emits Q (swallow m).
Proof. intros; apply emits_tryCatch; auto using @emits_ret. Qed.

Lemma emits_publish site f :
  (∀ s, Q [(site, EmitStatus s)]) → emits Q (publish site f).
Proof. intros H w; apply H. Qed.

Lemma emits_addLog site ty msg :
  (∀ l, Q [(site, EmitLog l)]) → emits Q (addLog site ty msg).
Proof. intros H w; apply H. Qed.

Lemma emits_dbCall site e f :
  Q [(site, e)] → (∀ msg, Q [(site, DbRejected msg)]) →
  emits Q (dbCall amb site e f).
Proof.
  intros He Hr w. unfold dbCall.
  destruct (dbRejects amb (dbCalls w)); simpl; auto.
Qed.
End Emits.

Ltac emits_unfold :=
  unfold updateSessionProgress, finishSession, saveRecords, createSession,
    activeSession, sleep, setRecord, recordAt, pause, resume, close.

Ltac emits_step :=
  lazymatch goal with
  | |- emits _ (bind _ _) => apply emits_bind; [typeclasses eauto| |intros ?]
  | |- emits _ (ret _) => apply emits_ret; typeclasses eauto
  | |- emits _ (throw _) => apply emits_throw; typeclasses eauto
  | |- emits _ (gets _) => apply emits_gets; typeclasses eauto
  | |- emits _ (modify _) => apply emits_modify; typeclasses eauto
  | |- emits _ (emit _ _) => apply emits_emit
  | |- emits _ (publish _ _) => apply emits_publish; intros ?
  | |- emits _ (addLog _ _ _) => apply emits_addLog; intros ?
  | |- emits _ (dbCall _ _ _ _) => apply emits_dbCall; [|intros ?]
  | |- emits _ (swallow _) => apply emits_swallow; [typeclasses eauto|]
  | |- emits _ (tryCatch _ _) =>
      apply emits_tryCatch; [typeclasses eauto| |intros ?]
  | |- emits _ (let _ := _ in _) => cbv zeta
  | |- emits _ (if ?b then _ else _) => destruct b
  | |- emits _ (match ?x with _ => _ end) => destruct x
  end.

Ltac emits_single :=
  lazymatch goal with
  | |- Forall _ [_] => constructor; [|constructor]
  end.

Section EmitsForall.
Variable amb : Ambiente.

Lemma entregar_deControle cs : emits (Forall deControle) (entregar amb cs).
Proof.
  induction cs as [|c cs IH]; simpl.
  - apply emits_ret; apply _.
  - apply emits_bind; [apply _| |intros; exact IH].
    destruct c; unfold comando, stop; emits_unfold;
      repeat emits_step; emits_single; by split.
Qed.

Variable R : LEvent → Prop.
Hypothesis R_controle : ∀ e, deControle e → R e.

Lemma emits_entregar cs : emits (Forall R) (entregar amb cs).
Proof.
  intros w. eapply Forall_impl; [apply entregar_deControle|].
  exact R_controle.
Qed.

Lemma emits_await {A} site k (m : M A) :
  emits (Forall R) m → emits (Forall R) (await amb site k m).
Proof.
  intros Hm w. unfold await.
  specialize (Hm w). destruct (m w) as [[t1 r1] w1]; simpl in *.
  pose proof (emits_entregar (comandos amb site k) w1) as Hc.
  destruct (entregar amb (comandos amb site k) w1) as [[t2 r2] w2].
  simpl in *. by apply Forall_app.
Qed.
End EmitsForall.

(** Each part of [processarRegistros] emits at its own site, apart from the
    events of the route calls it lets in.  Only the retry controller calls
    the external actor, and it never calls the store. *)
Section EmitsSite.
Variable amb : Ambiente.
Variable R : LEvent → Prop.
Hypothesis R_controle : ∀ e, deControle e → R e.

Ltac go :=
  emits_unfold;
  repeat (emits_step || (apply emits_await; [exact R_controle|]));
  try (emits_single; auto).

Lemma tentativas_emits site record maxRetries n :
  ownRetry R site →
  ∀ attempt lastError,
    emits (Forall R) (tentativas amb site record maxRetries n attempt lastError).
Proof.
  intros Hs. induction n as [|n IH]; intros attempt lastError; simpl.
  - go.
  - unfold tentar, aposErro. go; try apply IH; try by apply Hs.
    intros w; simpl. constructor; [by apply Hs | constructor].
Qed.

Lemma processarRegistro_emits site record maxRetries :
  ownRetry R site →
  emits (Forall R) (processarRegistro amb site record maxRetries).
Proof. intros; by apply tentativas_emits. Qed.

Lemma initialize_emits : own R SLogin → emits (Forall R) (initialize amb).
Proof. intros Hs. unfold initialize. go. Qed.

Lemma contar_emits n : ∀ i c e, emits (Forall R) (contar n i c e).
Proof. induction n as [|n IH]; intros i c e; simpl; go. apply IH. Qed.

Lemma esperar_emits fuel i : ∀ n, emits (Forall R) (esperar amb fuel i n).
Proof.
  induction fuel as [|fuel IH]; intros n; simpl; go; try apply IH.
  intros w; constructor.
Qed.

Lemma pausado_emits fuel i c e :
  own R (SPausa i) → own R (SRetoma i) →
  emits (Forall R) (pausado amb fuel i c e).
Proof. intros H1 H2. unfold pausado. go. apply esperar_emits. Qed.

Lemma antes_emits i c e :
  own R (SAntes i) → emits (Forall R) (antes amb i c e).
Proof. intros Hs. unfold antes. go. Qed.

Lemma processar_emits i c e :
  ownRetry R (STentativa i) → emits (Forall R) (processar amb i c e).
Proof.
  intros Hs. unfold processar.
  repeat (emits_step || (apply processarRegistro_emits; [exact Hs])).
  all: go.
Qed.

Lemma salvarProgresso_emits i c e :
  own R (SDepois i) → emits (Forall R) (salvarProgresso amb i c e).
Proof. intros Hs. unfold salvarProgresso. go. Qed.

Lemma depois_emits i c e :
  own R (SDepois i) → emits (Forall R) (depois amb i c e).
Proof.
  intros Hs. unfold depois, atualizarProgresso.
  emits_step; [go|by apply salvarProgresso_emits].
Qed.

Lemma sessao_emits fileName startIndex :
  own R SSessao → emits (Forall R) (sessao amb fileName startIndex).
Proof. intros Hs. unfold sessao. go. Qed.

Lemma fim_emits : own R SFim → emits (Forall R) (fim amb).
Proof. intros Hs. unfold fim. go. Qed.

Lemma capturar_emits msg :
  own R SCatch → emits (Forall R) (capturar amb msg).
Proof. intros Hs. unfold capturar. go. Qed.

Lemma finalmente_emits : own R SFinally → emits (Forall R) finalmente.
Proof. intros Hs. unfold finalmente. go. Qed.
End EmitsSite.

(** ** Order of publishing and persisting *)

#[global] Instance publishBeforePersist_Closed : Closed publishBeforePersist.
Proof.
  split.
  - intros n i e H; by rewrite lookup_nil in H.
  - intros t1 t2 H1 H2 n i e H Hw.
    apply lookup_app_Some in H as [H|[Hle H]].
    + destruct (H1 _ _ _ H Hw) as (m & s & Hm & Hs & Hi).
      exists m, s. split_and!; [done| |done].
      by apply lookup_app_l_Some.
    + destruct (H2 _ _ _ H Hw) as (m & s & Hm & Hs & Hi).
      exists (length t1 + m), s. split_and!; [lia| |done].
      rewrite lookup_app_r by lia.
      by replace (length t1 + m - length t1) with m by lia.
Qed.

Lemma foraDeDepois_order t : Forall foraDeDepois t → publishBeforePersist t.
Proof.
  intros H n i e Hn _.
  rewrite Forall_lookup in H. by destruct (H _ _ Hn i).
Qed.

Lemma deControle_foraDeDepois e : deControle e → foraDeDepois e.
Proof. intros [H _] i. by rewrite H. Qed.

Section Order.
Variable amb : Ambiente.

Lemma emits_foraDeDepois {A} (m : M A) :
  emits (Forall foraDeDepois) m → emits publishBeforePersist m.
Proof. intros H w. apply foraDeDepois_order, H. Qed.

(** The trace of the step after a record: the snapshot, then the writes. *)
Lemma depois_trace i c e w :
  ∃ s t2,
    (depois amb i c e w).1.1 = (SDepois i, EmitStatus s) :: t2
    ∧ ProcessStatus.currentIndex s = i + 1
    ∧ Forall (λ x, x.1 = SDepois i ∨ deControle x) t2.
Proof.
  pose proof (salvarProgresso_emits amb
                (λ e, e.1 = SDepois i ∨ deControle e)
                (λ e H, or_intror H) i c e (λ x _, or_introl eq_refl)) as Hs.
  unfold depois, atualizarProgresso, bind.
  cbn [publish bind modify gets emit fst snd].
  match goal with
  | |- context [salvarProgresso amb i c e ?w1] =>
      specialize (Hs w1);
      destruct (salvarProgresso amb i c e w1) as [[t2 r2] w2]
  end.
  cbn [fst snd app] in *.
  eexists _, t2. split_and!; [reflexivity|reflexivity|exact Hs].
Qed.

Lemma depois_order i c e : emits publishBeforePersist (depois amb i c e).
Proof.
  intros w n j x Hn Hw.
  destruct (depois_trace i c e w) as (s & t2 & Ht & Hi & Hs).
  rewrite Ht in Hn |- *.
  destruct n as [|n]; simpl in Hn.
  - by simplify_eq/=.
  - rewrite Forall_lookup in Hs.
    destruct (Hs _ _ Hn) as [Hj|[Hc _]]; simplify_eq/=.
    exists 0, s. split_and!; [lia|reflexivity|exact Hi].
Qed.

Lemma laco_order fuel n : ∀ i c e,
  emits publishBeforePersist (laco amb fuel n i c e).
Proof.
  induction n as [|n IH]; intros i c e; simpl.
  - apply emits_ret; apply _.
  - repeat emits_step; try apply IH; try apply depois_order;
      apply emits_foraDeDepois.
    + apply pausado_emits; [apply deControle_foraDeDepois|..]; by intros ???.
    + apply antes_emits; [apply deControle_foraDeDepois|]; by intros ???.
    + apply processar_emits; [apply deControle_foraDeDepois|]; by intros ???.
Qed.
End Order.

Section OrderRun.
Variable amb : Ambiente.

Lemma corpo_order fuel fileName startIndex :
  emits publishBeforePersist (corpo amb fuel fileName startIndex).
Proof.
  unfold corpo. repeat emits_step;
    try apply laco_order; apply emits_foraDeDepois.
  - apply sessao_emits; [apply deControle_foraDeDepois|]; by intros ???.
  - apply initialize_emits; [apply deControle_foraDeDepois|]; by intros ???.
  - apply contar_emits.
  - apply fim_emits; [apply deControle_foraDeDepois|]; by intros ???.
Qed.

Lemma processarRegistros_order fuel rs fileName startIndex :
  emits publishBeforePersist
    (processarRegistros amb fuel rs fileName startIndex).
Proof.
  unfold processarRegistros.
  repeat emits_step;
    try (apply foraDeDepois_order; emits_single; by intros ?).
  unfold protegido. apply emits_tryFinally; [apply _| |].
  - apply emits_tryCatch; [apply _|apply corpo_order|intros msg].
    apply emits_foraDeDepois, capturar_emits;
      [apply deControle_foraDeDepois|]; by intros ???.
  - apply emits_foraDeDepois, finalmente_emits; by intros ???.
Qed.
End OrderRun.

(** C2 (as amended).  In every run, whatever the records, the actor, the
    store and the route calls do, each checkpoint write made after record [i]
    (saveRecords, updateSessionProgress) comes after the status snapshot
    with [currentIndex = i + 1] was published for that record: the program
    publishes first and persists afterwards. *)
Theorem C2_publish_before_persist (amb : Ambiente) (fuel : nat)
    (rs : list PolicyRecord.t) (fileName : string) (startIndex : nat)
    (w : World) :
  publishBeforePersist
    (processarRegistros amb fuel rs fileName startIndex w).1.1.
Proof. apply processarRegistros_order. Qed.

(** C2 (as stated) fails on a run of one pending record with the store
    attached: the snapshot of the record is the fourteenth event, and no
    checkpoint write for the record comes before it. *)
Lemma C2_counterexample :
  ¬ persistBeforePublish
      (processarRegistros ambienteCalmo 0 [registro "A0" pendente]
         "planilha.xlsx" 0 mundoInicial).1.1.
Proof.
  intros H.
  set (t := (processarRegistros _ _ _ _ _ _).1.1) in H.
  assert (Hn : t !! 13
               = Some (SDepois 0,
                       EmitStatus (ProcessStatus.mk true false 1 1 1 0 200)))
    by (vm_compute; reflexivity).
  destruct (H _ _ _ Hn) as (m & e & Hm & He & Hw).
  do 13 (destruct m as [|m]; [vm_compute in He; simplify_eq|]).
  lia.
Qed.

(** ** A rejected checkpoint write halts the loop *)

Lemma deControle_inofensivo e : deControle e → inofensivo e.
Proof. intros [H _] msg _. by rewrite H. Qed.

Lemma later_app (P : LEvent → Prop) t1 t2 n :
  (∀ m e, n < m → t1 !! m = Some e → P e) → Forall P t2 →
  ∀ m e, n < m → (t1 ++ t2) !! m = Some e → P e.
Proof.
  intros H1 H2 m e Hm He.
  apply lookup_app_Some in He as [He|[_ He]]; [by eapply H1|].
  rewrite Forall_lookup in H2. by eapply H2.
Qed.

Lemma later_app_r (P : LEvent → Prop) t1 t2 n :
  length t1 ≤ n →
  (∀ m e, n - length t1 < m → t2 !! m = Some e → P e) →
  ∀ m e, n < m → (t1 ++ t2) !! m = Some e → P e.
Proof.
  intros Hn H2 m e Hm He.
  apply lookup_app_Some in He as [He|[Hle He]].
  - apply lookup_lt_Some in He. lia.
  - eapply H2; [|exact He]. lia.
Qed.

Section Halting.
Variable amb : Ambiente.

Lemma halting_emits {A} (m : M A) :
  emits (Forall inofensivo) m → halting m.
Proof.
  intros H w n site msg Hn Hc. specialize (H w).
  rewrite Forall_lookup in H. specialize (H _ _ Hn msg eq_refl).
  simpl in H. congruence.
Qed.

Lemma halting_bind {A B} (m : M A) (k : A → M B) :
  halting m → (∀ a, halting (k a)) → halting (bind m k).
Proof.
  intros Hm Hk w. unfold bind.
  specialize (Hm w). destruct (m w) as [[t1 [a|msg1|]] w1]; simpl in *.
  2,3: intros n site msg Hn Hc;
       destruct (Hm _ _ _ Hn Hc) as [Heq Hl]; by simplify_eq.
  specialize (Hk a w1). destruct (k a w1) as [[t2 r2] w2]; simpl in *.
  intros n site msg Hn Hc.
  apply lookup_app_Some in Hn as [Hn|[Hle Hn]].
  - by destruct (Hm _ _ _ Hn Hc).
  - destruct (Hk _ _ _ Hn Hc) as [-> Hl]. split; [done|].
    by apply later_app_r.
Qed.

Lemma halting_await {A} site k (m : M A) :
  halting m → halting (await amb site k m).
Proof.
  intros Hm w. unfold await.
  specialize (Hm w). destruct (m w) as [[t1 r1] w1]; simpl in *.
  pose proof (entregar_deControle amb (comandos amb site k) w1) as Hc.
  destruct (entregar amb (comandos amb site k) w1) as [[t2 r2] w2].
  simpl in *. intros n site' msg Hn Hs.
  apply lookup_app_Some in Hn as [Hn|[Hle Hn]].
  - destruct (Hm _ _ _ Hn Hs) as [-> Hl]. split; [done|].
    by apply later_app.
  - rewrite Forall_lookup in Hc.
    destruct (Hc _ _ Hn) as [Hsite _]. simpl in Hsite; subst. done.
Qed.

Lemma halting_dbCall site e f :
  (∀ msg, e ≠ DbRejected msg) → halting (dbCall amb site e f).
Proof.
  intros He w n site' msg Hn Hs. unfold dbCall in *.
  destruct (dbRejects amb (dbCalls w)) as [msg'|]; simpl in *;
    destruct n as [|n]; simplify_eq/=.
  - split; [done|]. intros [|m] x Hm Hx; [lia|done].
  - by destruct (He msg).
Qed.
End Halting.

Ltac halting_quiet :=
  apply halting_emits;
  solve [ emits_unfold; repeat emits_step;
          emits_single; intros ? ?; simplify_eq/= ].

Ltac halting_step amb :=
  lazymatch goal with
  | |- halting (bind _ _) => apply halting_bind; [|intros ?]
  | |- halting (await _ _ _ _) => apply halting_await
  | |- halting (dbCall _ _ _ _) => apply halting_dbCall; done
  | |- halting (let _ := _ in _) => cbv zeta
  | |- halting (if ?b then _ else _) => destruct b
  | |- halting (match ?x with _ => _ end) => destruct x
  | |- halting _ => halting_quiet
  end.

Section HaltingRun.
Variable amb : Ambiente.

Ltac go := emits_unfold; repeat halting_step amb.

Lemma inofensivo_own site :
  checkpoint site = false → own inofensivo site.
Proof. intros H x _ msg _. exact H. Qed.

Lemma inofensivo_ownRetry site : ownRetry inofensivo site.
Proof. intros x Hx msg Heq. simpl in Heq. by destruct (Hx msg). Qed.

Lemma pausado_halting fuel i c e : halting (pausado amb fuel i c e).
Proof.
  unfold pausado. go.
  all: apply halting_emits, esperar_emits, deControle_inofensivo.
Qed.

Lemma antes_halting i c e : halting (antes amb i c e).
Proof. unfold antes. go. Qed.

Lemma processar_halting i c e : halting (processar amb i c e).
Proof.
  apply halting_emits, processar_emits;
    [apply deControle_inofensivo | apply inofensivo_ownRetry].
Qed.

Lemma depois_halting i c e : halting (depois amb i c e).
Proof. unfold depois, atualizarProgresso, salvarProgresso. go. Qed.

Lemma laco_halting fuel n : ∀ i c e, halting (laco amb fuel n i c e).
Proof.
  induction n as [|n IH]; intros i c e; simpl.
  - halting_quiet.
  - apply halting_bind; [halting_quiet|intros p].
    apply halting_bind;
      [destruct p; [apply pausado_halting|halting_quiet]|intros continua].
    destruct (negb continua); [halting_quiet|].
    apply halting_bind; [halting_quiet|intros r].
    destruct (negb r); [halting_quiet|].
    apply halting_bind; [apply antes_halting|intros _].
    apply halting_bind; [apply processar_halting|intros ce].
    apply halting_bind; [apply depois_halting|intros _].
    apply IH.
Qed.

Lemma sessao_halting fileName startIndex :
  halting (sessao amb fileName startIndex).
Proof. unfold sessao. go. Qed.

Lemma fim_halting : halting (fim amb).
Proof. unfold fim. go. Qed.

Lemma corpo_halting fuel fileName startIndex :
  halting (corpo amb fuel fileName startIndex).
Proof.
  unfold corpo.
  apply halting_bind; [apply sessao_halting|intros _].
  apply halting_bind;
    [apply halting_emits, initialize_emits;
     [apply deControle_inofensivo|by apply inofensivo_own]|intros _].
  apply halting_bind; [apply halting_emits, contar_emits|intros ce].
  apply halting_bind; [halting_quiet|intros n].
  apply halting_bind; [apply laco_halting|intros _].
  apply fim_halting.
Qed.
End HaltingRun.

Lemma deControle_aposFalha e : deControle e → aposFalha e.
Proof. intros [H1 H2]. split; auto. Qed.

Section Outcomes.
Variable amb : Ambiente.

(** The route calls never reject, never call the actor and leave the
    records alone. *)
Lemma comando_ok c w :
  ∃ t w', comando amb c w = (t, Ok tt, w')
          ∧ actorCalls w' = actorCalls w ∧ records w' = records w.
Proof.
  destruct c; unfold comando, pause, resume, stop, close, swallow, tryCatch,
    updateSessionProgress, finishSession, dbCall, publish, bind, modify,
    gets, emit, ret; simpl.
  all: repeat (match goal with
               | |- context [if ?b then _ else _] => destruct b
               | |- context [match ?x with Some _ => _ | None => _ end] =>
                   destruct x
               end; simpl).
  all: by eexists _, _.
Qed.

Lemma entregar_ok cs : ∀ w,
  ∃ t w', entregar amb cs w = (t, Ok tt, w')
          ∧ Forall deControle t
          ∧ actorCalls w' = actorCalls w ∧ records w' = records w.
Proof.
  induction cs as [|c cs IH]; intros w.
  - exists [], w. by repeat split.
  - pose proof (entregar_deControle amb (c :: cs) w) as Hd.
    simpl in *. unfold bind in *.
    destruct (comando_ok c w) as (t1 & w1 & E1 & Ha & Hr).
    destruct (IH w1) as (t2 & w2 & E2 & _ & Ha2 & Hr2).
    rewrite E1, E2 in *. exists (t1 ++ t2), w2.
    split_and!; [done|exact Hd|congruence..].
Qed.

Lemma await_eq {A} site k (m : M A) w t1 r w1 :
  m w = (t1, r, w1) →
  ∃ t2 w2, await amb site k m w = (t1 ++ t2, r, w2)
           ∧ Forall deControle t2
           ∧ actorCalls w2 = actorCalls w1 ∧ records w2 = records w1.
Proof.
  intros E. unfold await. rewrite E.
  destruct (entregar_ok (comandos amb site k) w1)
    as (t2 & w2 & -> & Hd & Ha & Hr).
  by exists t2, w2.
Qed.

(** The [catch] block logs the error and throws it again. *)
Lemma capturar_spec msg w :
  ∃ t w',
    capturar amb msg w
    = (t ++ [(SCatch, EmitLog (LogEntry.mk LogEntry.error
                                 ("Erro na automação: " +:+ msg)))],
       Threw msg, w')
    ∧ Forall aposFalha t.
Proof.
  unfold capturar, activeSession, bind at 1, gets.
  destruct (AutomacaoService.activeSession _) as [sid|].
  - unfold bind at 1.
    destruct (swallow (finishSession amb SCatch sid ExecutionSession.error) w)
      as [[t1 r1] w1] eqn:E1.
    assert (r1 = Ok tt ∧ Forall aposFalha t1) as [-> H1].
    { unfold swallow, tryCatch, finishSession, dbCall in E1.
      destruct (dbRejects amb _); simplify_eq/=;
        (split; [done|]); by repeat constructor. }
    destruct (await_eq SCatch 0 _ _ _ _ _ E1) as (t2 & w2 & -> & H2 & _).
    eexists (t1 ++ t2), _. split; [reflexivity|].
    apply Forall_app. split; [done|].
    eapply Forall_impl; [exact H2|apply deControle_aposFalha].
  - by eexists [], _.
Qed.
End Outcomes.

Section HaltingTop.
Variable amb : Ambiente.

Lemma finalmente_spec w :
  ∃ s w', finalmente w = ([(SFinally, EmitStatus s)], Ok tt, w').
Proof. by eexists _, _. Qed.

Lemma aposFalha_checkpoint e : aposFalha e → checkpoint e.1 = false.
Proof. by intros [[->|[->| ->]] _]. Qed.

Lemma protegido_halts fuel fileName startIndex w n site msg :
  let run := protegido amb fuel fileName startIndex w in
  run.1.1 !! n = Some (site, DbRejected msg) → checkpoint site = true →
  run.1.2 = Threw msg
  ∧ (∀ m e, n < m → run.1.1 !! m = Some e → aposFalha e)
  ∧ (SCatch, EmitLog (LogEntry.mk LogEntry.error
                        ("Erro na automação: " +:+ msg))) ∈ run.1.1.
Proof.
  unfold protegido, tryFinally, tryCatch.
  pose proof (corpo_halting amb fuel fileName startIndex w) as Hh.
  destruct (corpo amb fuel fileName startIndex w) as [[t1 r1] w1].
  simpl in Hh. destruct r1 as [[]|msg1|].
  - destruct (finalmente_spec w1) as (s & w' & ->). simpl.
    intros Hn Hc. apply lookup_app_Some in Hn as [Hn|[_ Hn]].
    + by destruct (Hh _ _ _ Hn Hc).
    + destruct (n - length t1); simplify_eq/=.
  - destruct (capturar_spec amb msg1 w1) as (t2 & w2 & -> & H2).
    destruct (finalmente_spec w2) as (s & w' & ->). simpl.
    set (log := (SCatch, EmitLog _)).
    assert (Htail : Forall aposFalha ((t2 ++ [log]) ++ [(SFinally, EmitStatus s)])).
    { apply Forall_app; split; [apply Forall_app; split; [done|]|];
        (constructor; [|constructor]); (split; [simpl; auto|reflexivity]). }
    rewrite <- (app_assoc t1). intros Hn Hc.
    apply lookup_app_Some in Hn as [Hn|[_ Hn]].
    + destruct (Hh _ _ _ Hn Hc) as [Heq Hl]. simplify_eq.
      split_and!; [done| |].
      * apply later_app; [|done].
        intros m e Hm He. by apply deControle_aposFalha, (Hl m).
      * subst log. rewrite !elem_of_app, list_elem_of_singleton. auto.
    + rewrite Forall_lookup in Htail.
      apply Htail, aposFalha_checkpoint in Hn. simpl in Hn. congruence.
  - simpl. intros Hn Hc. by destruct (Hh _ _ _ Hn Hc).
Qed.
End HaltingTop.

(** A run that is let in publishes three snapshots, then enters the
    protected block. *)
Lemma processarRegistros_eq amb fuel rs fileName startIndex w t r w4 :
  AutomacaoService.isRunning (automacao w) = false →
  protegido amb fuel fileName startIndex (entrada rs startIndex w) = (t, r, w4) →
  ∃ s1 s2 s3,
    processarRegistros amb fuel rs fileName startIndex w
    = ((SInicio, EmitStatus s1) :: (SInicio, EmitStatus s2)
       :: (SInicio, EmitStatus s3) :: t, r, w4).
Proof.
  intros H E. unfold processarRegistros, bind at 1, gets at 1.
  cbv beta iota. rewrite H. unfold entrada in E.
  cbv beta iota zeta delta [bind modify publish gets emit].
  rewrite E. by eexists _, _, _.
Qed.

(** C6 (as amended).  If a checkpoint write of a run is rejected by the
    store, [processarRegistros] rejects with that error: the loop is halted.
    Every later event belongs to a route call already under way, to the
    [catch] block or to the [finally] block, none is a call of the actor, and
    the error is logged as "Erro na automação: ...". *)
Theorem C6_rejected_write_halts (amb : Ambiente) (fuel : nat)
    (rs : list PolicyRecord.t) (fileName : string) (startIndex : nat)
    (w : World) (n : nat) (site : Site) (msg : string) :
  let run := processarRegistros amb fuel rs fileName startIndex w in
  run.1.1 !! n = Some (site, DbRejected msg) →
  checkpoint site = true →
  run.1.2 = Threw msg
  ∧ (∀ m e, n < m → run.1.1 !! m = Some e → aposFalha e)
  ∧ (SCatch, EmitLog (LogEntry.mk LogEntry.error
                        ("Erro na automação: " +:+ msg))) ∈ run.1.1.
Proof.
  destruct (AutomacaoService.isRunning (automacao w)) eqn:Hrun.
  { unfold processarRegistros, bind at 1, gets at 1. cbv beta iota.
    rewrite Hrun. simpl. intros Hn; by rewrite lookup_nil in Hn. }
  pose proof (protegido_halts amb fuel fileName startIndex
                (entrada rs startIndex w)) as Hp.
  destruct (protegido amb fuel fileName startIndex (entrada rs startIndex w))
    as [[t r] w4] eqn:E.
  destruct (processarRegistros_eq _ _ _ _ _ _ _ _ _ Hrun E)
    as (s1 & s2 & s3 & ->).
  simpl in *. intros Hn Hc.
  do 3 (destruct n as [|n]; [simplify_eq/=|]). simpl in Hn.
  destruct (Hp _ _ _ Hn Hc) as (Hr & Hl & Hlog).
  split_and!; [done| |by do 3 apply list_elem_of_further].
  intros m e Hm He.
  do 3 (destruct m as [|m]; [lia|]). simpl in He.
  apply (Hl m); [lia|done].
Qed.

(** ** The retry controller *)

Lemma attempts_app t1 t2 : attempts (t1 ++ t2) = attempts t1 ++ attempts t2.
Proof. apply omap_app. Qed.

Lemma attempts_deControle t : Forall deControle t → attempts t = [].
Proof.
  induction 1 as [|e t [_ He] _ IH]; [done|].
  change (e :: t) with ([e] ++ t). by rewrite attempts_app, He, IH.
Qed.

Lemma bind_eq {A B} (m : M A) (k : A → M B) w t1 a w1 t2 r w2 :
  m w = (t1, Ok a, w1) → k a w1 = (t2, r, w2) →
  bind m k w = (t1 ++ t2, r, w2).
Proof. intros E1 E2. unfold bind. by rewrite E1, E2. Qed.

Section Retry.
Variable amb : Ambiente.

Lemma tentar_spec site record maxRetries attempt w :
  ∃ t1 w1,
    tentar amb site record maxRetries attempt w
    = (t1, Ok (cancelarApolice amb (actorCalls w)), w1)
    ∧ attempts t1 = [(record, attempt)]
    ∧ actorCalls w1 = S (actorCalls w) ∧ records w1 = records w.
Proof.
  unfold tentar.
  edestruct (await_eq amb site (Z.to_nat (2 * (attempt - 1)))
               (callCancelarApolice amb site record attempt))
    as (t2 & w2 & E & Hd & Ha & Hr); [reflexivity|].
  eexists _, _. split; [eapply bind_eq; [reflexivity|exact E]|].
  rewrite !attempts_app, (attempts_deControle _ Hd). by rewrite Ha, Hr.
Qed.

Lemma aposErro_spec {A} site record maxRetries attempt msg (resto : M A) w :
  ∃ t1 w1,
    attempts t1 = []
    ∧ actorCalls w1 = actorCalls w ∧ records w1 = records w
    ∧ ∀ t2 r w2, resto w1 = (t2, r, w2) →
        aposErro amb site record maxRetries attempt msg resto w
        = (t1 ++ t2, r, w2).
Proof.
  unfold aposErro. destruct (decide _).
  - edestruct (await_eq amb site (S (Z.to_nat (2 * (attempt - 1)))) (ret tt))
      as (t2 & w2 & E & Hd & Ha & Hr); [reflexivity|].
    eexists (_ ++ _), w2. split_and!; [| | |intros t3 r w3 E3].
    4: { rewrite <- app_assoc.
         eapply bind_eq; [reflexivity|].
         eapply bind_eq; [exact E|exact E3]. }
    + by rewrite !attempts_app, (attempts_deControle _ Hd).
    + by rewrite Ha.
    + by rewrite Hr.
  - eexists [_], _. split_and!; [| | |intros t3 r w3 E3].
    4: { eapply bind_eq; [reflexivity|].
         eapply (bind_eq _ _ _ [] tt); [reflexivity|exact E3]. }
    all: done.
Qed.

(** When every attempt fails, the loop makes them all and returns the
    failure built from the last error. *)
Lemma tentativas_fail site record maxRetries n : ∀ attempt lastError w,
  (∀ j, j < n → is_Some (failure (cancelarApolice amb (actorCalls w + j)))) →
  ∃ t w',
    tentativas amb site record maxRetries n attempt lastError w
    = (t, Ok (AutomationResult.mk false
                (lastErrorMessage (ultimoErro amb n lastError w))), w')
    ∧ length (attempts t) = n
    ∧ actorCalls w' = actorCalls w + n ∧ records w' = records w.
Proof.
  induction n as [|n IH]; intros attempt lastError w Hall.
  - exists [], w. split_and!; [done|done|lia|done].
  - destruct (tentar_spec site record maxRetries attempt w)
      as (t1 & w1 & E1 & Ht1 & Ha1 & Hr1).
    destruct (Hall 0 ltac:(lia)) as [msg Hmsg].
    rewrite Nat.add_0_r in Hmsg.
    destruct (aposErro_spec site record maxRetries attempt msg
                (tentativas amb site record maxRetries n (attempt + 1)%Z
                   (Some msg)) w1)
      as (t2 & w2 & Ht2 & Ha2 & Hr2 & E2).
    destruct (IH (attempt + 1)%Z (Some msg) w2) as (t3 & w3 & E3 & Hl3 & Ha3 & Hr3).
    { intros j Hj. rewrite Ha2, Ha1.
      replace (S (actorCalls w) + j) with (actorCalls w + S j) by lia.
      apply Hall. lia. }
    exists (t1 ++ t2 ++ t3), w3. split_and!.
    + cbn [tentativas]. eapply bind_eq; [exact E1|].
      assert (ultimoErro amb n (Some msg) w2
              = ultimoErro amb (S n) lastError w) as <-.
      { destruct n as [|n]; simpl; [by rewrite Nat.add_0_r|].
        rewrite Ha2, Ha1. do 2 f_equal. lia. }
      destruct (cancelarApolice amb (actorCalls w)) as [res|msg'];
        simpl in Hmsg.
      * destruct (AutomationResult.success res); simplify_eq. by apply E2.
      * simplify_eq. by apply E2.
    + rewrite !attempts_app, Ht1, Ht2, !length_app, Hl3. simpl. lia.
    + lia.
    + congruence.
Qed.

(** When attempt [k] is the first to succeed, the loop stops there and
    returns its result. *)
Lemma tentativas_success site record maxRetries res k :
  ∀ n attempt lastError w,
  k < n →
  (∀ j, j < k → is_Some (failure (cancelarApolice amb (actorCalls w + j)))) →
  cancelarApolice amb (actorCalls w + k) = Resolves res →
  AutomationResult.success res = true →
  ∃ t w',
    tentativas amb site record maxRetries n attempt lastError w
    = (t, Ok res, w')
    ∧ length (attempts t) = S k
    ∧ actorCalls w' = actorCalls w + S k ∧ records w' = records w.
Proof.
  induction k as [|k IH]; intros n attempt lastError w Hk Hall Hres Hok;
    (destruct n as [|n]; [lia|]);
    destruct (tentar_spec site record maxRetries attempt w)
      as (t1 & w1 & E1 & Ht1 & Ha1 & Hr1).
  - rewrite Nat.add_0_r in Hres.
    eexists (t1 ++ [_]), _. split_and!.
    + cbn [tentativas]. eapply bind_eq; [exact E1|].
      rewrite Hres, Hok. reflexivity.
    + by rewrite attempts_app, Ht1.
    + simpl. lia.
    + done.
  - destruct (Hall 0 ltac:(lia)) as [msg Hmsg].
    rewrite Nat.add_0_r in Hmsg.
    destruct (aposErro_spec site record maxRetries attempt msg
                (tentativas amb site record maxRetries n (attempt + 1)%Z
                   (Some msg)) w1)
      as (t2 & w2 & Ht2 & Ha2 & Hr2 & E2).
    destruct (IH n (attempt + 1)%Z (Some msg) w2)
      as (t3 & w3 & E3 & Hl3 & Ha3 & Hr3); [lia| | |done|].
    { intros j Hj. rewrite Ha2, Ha1.
      replace (S (actorCalls w) + j) with (actorCalls w + S j) by lia.
      apply Hall. lia. }
    { rewrite Ha2, Ha1.
      by replace (S (actorCalls w) + k) with (actorCalls w + S k) by lia. }
    exists (t1 ++ t2 ++ t3), w3. split_and!.
    + cbn [tentativas]. eapply bind_eq; [exact E1|].
      destruct (cancelarApolice amb (actorCalls w)) as [res'|msg'];
        simpl in Hmsg.
      * destruct (AutomationResult.success res'); simplify_eq. by apply E2.
      * simplify_eq. by apply E2.
    + rewrite !attempts_app, Ht1, Ht2, !length_app, Hl3. simpl. lia.
    + lia.
    + congruence.
Qed.
End Retry.

Lemma processar_eq amb i c e record w t result w1 :
  AutomacaoService.page (automacao w) = true →
  records w !! i = Some record →
  processarRegistro amb (STentativa i) record
    (AutomacaoService.maxRetries (automacao w)) w = (t, Ok result, w1) →
  records w1 = records w →
  processar amb i c e w
  = (t,
     Ok (if AutomationResult.success result then (S c, e) else (c, S e)),
     with_records (λ rs, <[i := registrado result record]> rs) w1).
Proof.
  intros Hp Hr E Hr1. unfold registrado.
  cbv beta iota zeta delta [processar recordAt setRecord bind gets modify ret].
  rewrite Hp, Hr. cbv beta iota. rewrite E. cbv beta iota.
  destruct (AutomationResult.success result); cbv beta iota;
    rewrite Hr1, Hr; cbv beta iota; by rewrite !app_nil_r.
Qed.

(** C5 (as amended).  With [maxRetries = n >= 1], a page and a record at
    index [i]: if attempt [k] is the first to succeed, [processarRegistro]
    returns its result after exactly [k + 1] calls of the actor and the
    record ends "cancelado" with the result's message as note; if all [n]
    attempts fail, [processarRegistro] returns a failure after exactly [n]
    calls, carrying the message of the last one, or "Erro desconhecido"
    when that message is empty, and the record ends "erro" with it as
    note. *)
Theorem C5_retry_outcome (amb : Ambiente) (i c e : nat)
    (record : PolicyRecord.t) (w : World) :
  AutomacaoService.page (automacao w) = true →
  records w !! i = Some record →
  (1 ≤ AutomacaoService.maxRetries (automacao w))%Z →
  let maxRetries := AutomacaoService.maxRetries (automacao w) in
  let n := Z.to_nat maxRetries in
  let call j := cancelarApolice amb (actorCalls w + j) in
  let retry := processarRegistro amb (STentativa i) record maxRetries w in
  let item := processar amb i c e w in
  (∀ k res,
     k < n → (∀ j, j < k → is_Some (failure (call j))) →
     call k = Resolves res → AutomationResult.success res = true →
     retry.1.2 = Ok res
     ∧ length (attempts retry.1.1) = S k
     ∧ item.1.2 = Ok (S c, e)
     ∧ records item.2 !! i
       = Some (PolicyRecord.set_observacao (AutomationResult.message res)
                 (PolicyRecord.set_status cancelado record)))
  ∧ (∀ msg,
       (∀ j, j < n → is_Some (failure (call j))) →
       failure (call (n - 1)) = Some msg →
       let note := if decide (msg = "") then "Erro desconhecido" else msg in
       retry.1.2 = Ok (AutomationResult.mk false note)
       ∧ length (attempts retry.1.1) = n
       ∧ item.1.2 = Ok (c, S e)
       ∧ records item.2 !! i
         = Some (PolicyRecord.set_observacao note
                   (PolicyRecord.set_status erro record))).
Proof.
  intros Hp Hr Hn. cbv zeta.
  assert (Hi : i < length (records w)) by by eapply lookup_lt_Some.
  split.
  - intros k res Hk Hall Hres Hok.
    destruct (tentativas_success amb (STentativa i) record
                (AutomacaoService.maxRetries (automacao w)) res k
                (Z.to_nat (AutomacaoService.maxRetries (automacao w)))
                1%Z None w Hk Hall Hres Hok)
      as (t & w' & E & Hl & Ha & Hr').
    change (tentativas amb (STentativa i) record _ _ 1%Z None w)
      with (processarRegistro amb (STentativa i) record
              (AutomacaoService.maxRetries (automacao w)) w) in E.
    rewrite (processar_eq _ _ _ _ _ _ _ _ _ Hp Hr E Hr'), E.
    unfold registrado. rewrite Hok. cbn [fst snd with_records records].
    split_and!; [done..|].
    apply list_lookup_insert_eq. by rewrite Hr'.
  - intros msg Hall Hmsg.
    destruct (tentativas_fail amb (STentativa i) record
                (AutomacaoService.maxRetries (automacao w))
                (Z.to_nat (AutomacaoService.maxRetries (automacao w)))
                1%Z None w Hall)
      as (t & w' & E & Hl & Ha & Hr').
    change (tentativas amb (STentativa i) record _ _ 1%Z None w)
      with (processarRegistro amb (STentativa i) record
              (AutomacaoService.maxRetries (automacao w)) w) in E.
    assert (ultimoErro amb
              (Z.to_nat (AutomacaoService.maxRetries (automacao w))) None w
            = Some msg) as Hu.
    { destruct (Z.to_nat _) as [|m] eqn:Hm; [lia|].
      simpl in *. by rewrite Nat.sub_0_r in Hmsg. }
    rewrite Hu in E. cbn [lastErrorMessage] in E.
    rewrite (processar_eq _ _ _ _ _ _ _ _ _ Hp Hr E Hr'), E.
    unfold registrado. cbn [fst snd with_records records AutomationResult.success
                              AutomationResult.message].
    split_and!; [done..|].
    apply list_lookup_insert_eq. by rewrite Hr'.
Qed.

(** C10.  With [maxRetries <= 0] the attempt loop never runs:
    [processarRegistro] makes no call, emits nothing, leaves the world as it
    was and returns the failure "Erro desconhecido". *)
Theorem C10_no_attempt_when_max_not_positive (amb : Ambiente) (site : Site)
    (record : PolicyRecord.t) (maxRetries : Z) (w : World) :
  (maxRetries ≤ 0)%Z →
  processarRegistro amb site record maxRetries w
  = ([], Ok (AutomationResult.mk false "Erro desconhecido"), w).
Proof.
  intros H. unfold processarRegistro.
  replace (Z.to_nat maxRetries) with 0 by lia. reflexivity.
Qed.

(** C5 (as stated) fails when the last attempt fails with an empty message:
    with [maxRetries = 1] the only attempt fails with the message "", and
    the failure returned carries "Erro desconhecido" instead. *)
Lemma C5_counterexample :
  let retry := processarRegistro ambienteMudo (STentativa 0)
                 (registro "A0" processando) 1 mundoLogado in
  failure (cancelarApolice ambienteMudo (actorCalls mundoLogado)) = Some ""
  ∧ length (attempts retry.1.1) = 1
  ∧ retry.1.2 = Ok (AutomationResult.mk false "Erro desconhecido")
  ∧ retry.1.2 ≠ Ok (AutomationResult.mk false "").
Proof. vm_compute. by split_and!. Qed.

Lemma C5_witness :
  (let retry := processarRegistro ambienteFalhaSucesso (STentativa 0)
                  (registro "A0" processando) 2 mundoLogado in
   let item := processar ambienteFalhaSucesso 0 0 0 mundoLogado in
   retry.1.2 = Ok (AutomationResult.mk true "Cancelamento realizado com sucesso")
   ∧ length (attempts retry.1.1) = 2
   ∧ item.1.2 = Ok (1, 0)
   ∧ records item.2 !! 0
     = Some (PolicyRecord.set_observacao "Cancelamento realizado com sucesso"
               (PolicyRecord.set_status cancelado (registro "A0" processando))))
  ∧ (let retry := processarRegistro ambienteFalhaFalha (STentativa 0)
                    (registro "A0" processando) 2 mundoLogado in
     let item := processar ambienteFalhaFalha 0 0 0 mundoLogado in
     let note := "Erro no fluxo de cancelamento: sessão inválida" in
     retry.1.2 = Ok (AutomationResult.mk false note)
     ∧ length (attempts retry.1.1) = 2
     ∧ item.1.2 = Ok (0, 1)
     ∧ records item.2 !! 0
       = Some (PolicyRecord.set_observacao note
                 (PolicyRecord.set_status erro (registro "A0" processando)))).
Proof.
  split.
  - refine (proj1 (C5_retry_outcome ambienteFalhaSucesso 0 0 0
                     (registro "A0" processando) mundoLogado
                     eq_refl eq_refl _) 1 _ _ _ eq_refl eq_refl).
    + simpl. lia.
    + simpl. lia.
    + intros j Hj. assert (j = 0) as -> by lia. by eexists.
  - refine (proj2 (C5_retry_outcome ambienteFalhaFalha 0 0 0
                     (registro "A0" processando) mundoLogado
                     eq_refl eq_refl _) _ _ eq_refl).
    + simpl. lia.
    + intros j Hj.
      assert (j = 0 ∨ j = 1) as [-> | ->] by (simpl in Hj; lia); by eexists.
Defined.

Lemma C10_witness :
  processarRegistro ambienteCalmo (STentativa 0) (registro "A0" processando)
    0 mundoLogado
  = ([], Ok (AutomationResult.mk false "Erro desconhecido"), mundoLogado).
Proof.
  apply (C10_no_attempt_when_max_not_positive ambienteCalmo (STentativa 0)
           (registro "A0" processando) 0 mundoLogado).
  lia.
Defined.

(** C6 (as stated) fails on a run of two pending records in which the store
    rejects the [saveRecords] made after the first one: the run rejects with
    the error of the store, the second record is never handed to the actor
    and stays "pendente", and the session is closed as "error". *)
Lemma C6_counterexample :
  let run := processarRegistros ambienteBanco 0
               [registro "A0" pendente; registro "A1" pendente]
               "planilha.xlsx" 0 mundoInicial in
  run.1.1 !! 14 = Some (SDepois 0, DbRejected "SQLITE_BUSY: database is locked")
  ∧ attempted run.1.1 = ["A0"]
  ∧ run.1.2 = Threw "SQLITE_BUSY: database is locked"
  ∧ PolicyRecord.status <$> records run.2 = [cancelado; pendente]
  ∧ finishes run.1.1 = [(SCatch, ExecutionSession.error)].
Proof. vm_compute. by split_and!. Qed.

Lemma C6_witness :
  let run := processarRegistros ambienteBanco 0
               [registro "A0" pendente; registro "A1" pendente]
               "planilha.xlsx" 0 mundoInicial in
  run.1.2 = Threw "SQLITE_BUSY: database is locked"
  ∧ (∀ m e, 14 < m → run.1.1 !! m = Some e → aposFalha e)
  ∧ (SCatch, EmitLog (LogEntry.mk LogEntry.error
                        ("Erro na automação: "
                         +:+ "SQLITE_BUSY: database is locked")))
    ∈ run.1.1.
Proof.
  apply (C6_rejected_write_halts ambienteBanco 0
           [registro "A0" pendente; registro "A1" pendente]
           "planilha.xlsx" 0 mundoInicial 14 (SDepois 0)
           "SQLITE_BUSY: database is locked").
  - vm_compute. reflexivity.
  - reflexivity.
Defined.

(** ** Starting while a run is active *)




(** ** Runs on which the program departs from its design *)

(** C8.  A run of one pending record publishes six snapshots.  Listed as
    (currentIndex, total, progress): with nothing processed the percentage
    is already 100, and once the only record is processed it is 200. *)
Theorem C8_progress_of_one_record :
  let run := processarRegistros ambienteCalmo 0 [registro "A0" pendente]
               "planilha.xlsx" 0 mundoInicial in
  (λ s, (ProcessStatus.currentIndex s, ProcessStatus.total s,
         ProcessStatus.progress s)) <$> published run.1.1
  = [(0, 1, 0); (0, 1, 0); (0, 1, 100); (0, 1, 100); (1, 1, 200); (1, 1, 200)].
Proof. vm_compute. reflexivity. Qed.

(** C1.  Session 1 holds the records A0 "cancelado", A1 "erro", A2 and A3
    "pendente"; its first unfinished record is A1, at index 1.  POST
    /api/retomar/1 answers with startIndex 1, and the run it starts hands A2
    and A3 to the actor: A1 is never attempted. *)
Theorem C1_resume_skips_first_unfinished :
  let rs := [registro "A0" cancelado; registro "A1" erro;
             registro "A2" pendente; registro "A3" pendente] in
  let r := Server.retomar (Some 1) (servidorCom rs) in
  (λ x, (x.1, PolicyRecord.apolice x.2)) <$> list_find pendenteOuErro rs
  = Some (1, "A1")
  ∧ r.1.1 = Server.Resumed "Execução retomada" 1 1 4 3
  ∧ (Server.background ambienteCalmo 0 r).1.2 = Ok tt
  ∧ attempted (Server.background ambienteCalmo 0 r).1.1 = ["A2"; "A3"].
Proof. vm_compute. by split_and!. Qed.

(** C3.  Three pending records, and a stop that arrives after the first is
    completed and before the second starts.  Only A0 is attempted and A1, A2
    stay "pendente", but the loop leaves through "Finalizar sessão": the
    "stopped" written by [stop] is overwritten and the session is persisted
    as "completed". *)
Theorem C3_stop_ends_completed :
  let run := processarRegistros ambienteParar 0
               [registro "A0" pendente; registro "A1" pendente;
                registro "A2" pendente]
               "planilha.xlsx" 0 mundoInicial in
  run.1.2 = Ok tt
  ∧ attempted run.1.1 = ["A0"]
  ∧ PolicyRecord.status
      <$> DatabaseService.getSessionRecordsAsPolicyRecords 1 (database run.2)
    = [cancelado; pendente; pendente]
  ∧ finishes run.1.1
    = [(SControle, ExecutionSession.stopped); (SFim, ExecutionSession.completed)]
  ∧ ExecutionSession.status <$> DatabaseService.getSession 1 (database run.2)
    = Some ExecutionSession.completed.
Proof. vm_compute. by split_and!. Qed.

(** C4.  Two runs, with the counters of their [updateSessionProgress] calls
    as (processed, canceled, errors).  In the first, of two pending records,
    a pause arrives during the first record and a stop during the pause:
    [stop] writes 0, 0, 0 after 1, 1, 0.  In the second, POST /api/retomar/1
    on a session holding A0 "cancelado", A1 and A2 "pendente": processed is
    1 while canceled and errors are both 0. *)
Theorem C4_counters_reset_and_unbalanced :
  progressWrites
    (processarRegistros ambientePausaParar 1
       [registro "A0" pendente; registro "A1" pendente]
       "planilha.xlsx" 0 mundoInicial).1.1
  = [(0, 0, 0); (1, 1, 0); (1, 1, 0); (0, 0, 0)]
  ∧ progressWrites
      (Server.background ambienteCalmo 0
         (Server.retomar (Some 1)
            (servidorCom [registro "A0" cancelado; registro "A1" pendente;
                          registro "A2" pendente]))).1.1
    = [(1, 0, 0); (2, 1, 0)].
Proof. vm_compute. by split_and!. Qed.

(** ** A run without incident *)

(** Three pending records, all cancelled at the first attempt: the session
    ends "completed" with processed = 3, canceled = 3, errors = 0. *)
Example tres_registros_com_sucesso :
  let run := processarRegistros ambienteCalmo 0
               [registro "A0" pendente; registro "A1" pendente;
                registro "A2" pendente]
               "planilha.xlsx" 0 mundoInicial in
  run.1.2 = Ok tt
  ∧ attempted run.1.1 = ["A0"; "A1"; "A2"]
  ∧ DatabaseService.getSession 1 (database run.2)
    = Some (ExecutionSession.mk 1 "planilha.xlsx" true
              ExecutionSession.completed 3 3 3 0)
  ∧ PolicyRecord.status
      <$> DatabaseService.getSessionRecordsAsPolicyRecords 1 (database run.2)
    = [cancelado; cancelado; cancelado].
Proof. vm_compute. by split_and!. Qed.

(** ** The checkpoint store *)

Section Store.
Import DatabaseService.

Lemma updateRow_overwrite sid rs r rows :
  updateRow sid (length rs) r (overwrite sid rs <$> rows)
  = overwrite sid (rs ++ [r]) <$> rows.
Proof.
  unfold updateRow. rewrite <- list_fmap_compose. apply list_fmap_ext.
  intros _ x _. simpl. unfold overwrite.
  destruct (decide (ProcessedRecord.sessionId x = sid)) as [Hs|Hs].
  - destruct (decide (ProcessedRecord.recordIndex x < length rs)) as [Hlt|Hge].
    + rewrite lookup_app_l by done.
      destruct (lookup_lt_is_Some_2 rs _ Hlt) as [r0 ->]. simpl.
      rewrite decide_False; [done|]. simpl. lia.
    + rewrite (lookup_ge_None_2 rs) by lia.
      destruct (decide (ProcessedRecord.recordIndex x = length rs)) as [He|Hne].
      * rewrite decide_True by done.
        rewrite He, lookup_app_r, Nat.sub_diag by done. done.
      * rewrite decide_False by (intros [_ ?]; done).
        rewrite lookup_ge_None_2; [done|]. rewrite length_app. simpl. lia.
  - rewrite decide_False by (intros [? _]; done). done.
Qed.

Lemma foldl_updateRow sid rs rows :
  foldl (λ rows ir, updateRow sid ir.1 ir.2 rows) rows (imap pair rs)
  = overwrite sid rs <$> rows.
Proof.
  induction rs as [|r rs IH] using rev_ind.
  - simpl. symmetry. etrans; [|apply list_fmap_id]. apply list_fmap_ext.
    intros _ x _. unfold overwrite. by case_decide.
  - rewrite imap_app, foldl_app, IH. simpl.
    rewrite Nat.add_0_r. apply updateRow_overwrite.
Qed.

Lemma overwrite_sessionId sid rs x :
  ProcessedRecord.sessionId (overwrite sid rs x) = ProcessedRecord.sessionId x.
Proof.
  unfold overwrite. case_decide; [|done]. by destruct (rs !! _).
Qed.

Lemma filter_fmap_session (g : ProcessedRecord.t → ProcessedRecord.t) sid
    (rows : list ProcessedRecord.t) :
  (∀ x, ProcessedRecord.sessionId (g x) = ProcessedRecord.sessionId x) →
  filter (λ r, ProcessedRecord.sessionId r = sid) (g <$> rows)
  = g <$> filter (λ r, ProcessedRecord.sessionId r = sid) rows.
Proof.
  intros Hg. induction rows as [|x rows IH]; [done|].
  rewrite fmap_cons, !filter_cons, Hg.
  case_decide; by rewrite ?fmap_cons, IH.
Qed.

Lemma filter_all {A} (P : A → Prop) `{∀ x, Decision (P x)} l :
  Forall P l → filter P l = l.
Proof.
  induction 1 as [|x l Hx _ IH]; [done|]. by rewrite filter_cons_True, IH.
Qed.

Lemma filter_none {A} (P : A → Prop) `{∀ x, Decision (P x)} l :
  Forall (λ x, ¬ P x) l → filter P l = [].
Proof.
  induction 1 as [|x l Hx _ IH]; [done|]. by rewrite filter_cons_False.
Qed.

Lemma toRow_sessionId sid rs :
  Forall (λ x, ProcessedRecord.sessionId x = sid) (imap (toRow sid) rs).
Proof.
  apply Forall_lookup. intros i x Hx.
  rewrite list_lookup_imap in Hx.
  destruct (rs !! i); by simplify_eq/=.
Qed.

Lemma rowsOf_saveRecords_other sid sid' rs db :
  sid' ≠ sid → rowsOf sid' (saveRecords sid rs db) = rowsOf sid' db.
Proof.
  intros Hne. unfold saveRecords.
  destruct (rowsOf sid db) as [|x l]; unfold rowsOf; simpl.
  - rewrite filter_app, (filter_none _ (imap _ _)), app_nil_r; [done|].
    eapply Forall_impl; [apply toRow_sessionId|]. simpl. congruence.
  - rewrite foldl_updateRow, filter_fmap_session
      by apply overwrite_sessionId.
    etrans; [|apply list_fmap_id]. apply list_fmap_ext.
    intros i x' Hx'. apply list_elem_of_lookup_2, list_elem_of_filter in Hx'.
    unfold overwrite. rewrite decide_False; [done|]. destruct Hx'. congruence.
Qed.

Lemma storedAs_saveRecords_new sid rs db :
  storedAs sid [] db → storedAs sid rs (saveRecords sid rs db).
Proof.
  unfold storedAs. intros H. unfold saveRecords. rewrite H. simpl.
  unfold rowsOf in *. simpl. rewrite filter_app, H. simpl.
  apply filter_all, toRow_sessionId.
Qed.

Lemma storedAs_saveRecords_old sid old rs db :
  storedAs sid old db → old ≠ [] →
  storedAs sid (take (length old) rs ++ drop (length rs) old)
    (saveRecords sid rs db).
Proof.
  unfold storedAs. intros H Hne. unfold saveRecords. rewrite H.
  destruct old as [|o old]; [done|]. rewrite imap_cons.
  unfold rowsOf in *. cbn [processed_records].
  rewrite foldl_updateRow, filter_fmap_session by apply overwrite_sessionId.
  rewrite H. apply list_eq. intros i.
  rewrite list_lookup_fmap, !list_lookup_imap.
  destruct (decide (i < length (o :: old))) as [Hi|Hi].
  - destruct (lookup_lt_is_Some_2 (o :: old) i Hi) as [x Hx]. rewrite Hx. simpl.
    unfold overwrite. simpl. rewrite decide_True by done.
    destruct (decide (i < length rs)) as [Hr|Hr].
    + destruct (lookup_lt_is_Some_2 rs i Hr) as [r Hr']. rewrite Hr'.
      rewrite lookup_app_l by (rewrite length_take; cbn [length] in *; lia).
      rewrite lookup_take_lt by done. by rewrite Hr'.
    + rewrite (lookup_ge_None_2 rs) by lia.
      rewrite lookup_app_r by (rewrite length_take; cbn [length] in *; lia).
      rewrite length_take, lookup_drop.
      replace (length rs + (i - S (length old) `min` length rs)) with i
        by (cbn [length] in *; lia).
      by rewrite Hx.
  - rewrite (lookup_ge_None_2 (o :: old)) by lia. simpl.
    rewrite lookup_ge_None_2; [done|].
    rewrite length_app, length_take, length_drop. cbn [length] in *. lia.
Qed.

Lemma orderByIndex_imap sid l : ∀ k,
  orderByIndex (imap (λ i, toRow sid (k + i)) l)
  = imap (λ i, toRow sid (k + i)) l.
Proof.
  induction l as [|x l IH]; intros k; [done|].
  rewrite imap_cons. unfold orderByIndex in *. cbn [foldr].
  assert (Hext : imap ((λ i, toRow sid (k + i)) ∘ S) l
                 = imap (λ i, toRow sid (S k + i)) l).
  { apply imap_ext. intros i y _. simpl. f_equal. lia. }
  rewrite Hext, IH. destruct l as [|y l]; [done|].
  rewrite imap_cons. simpl. rewrite decide_True by lia. done.
Qed.

Lemma read_storedAs sid rs db :
  storedAs sid rs db → getSessionRecordsAsPolicyRecords sid db = rs.
Proof.
  unfold storedAs, getSessionRecordsAsPolicyRecords. intros ->.
  assert (H : orderByIndex (imap (toRow sid) rs) = imap (toRow sid) rs)
    by exact (orderByIndex_imap sid rs 0).
  rewrite H.
  rewrite fmap_imap. etrans; [|apply list_fmap_id].
  rewrite <- imap_const. by apply imap_ext.
Qed.

Lemma nextId_fresh db : wfDb db → storedAs (nextId db) [] db.
Proof.
  intros [_ Hrows]. unfold storedAs, rowsOf, nextId. simpl.
  apply filter_none. eapply Forall_impl; [exact Hrows|]. simpl. lia.
Qed.

Lemma getSession_fmap sid (g : ExecutionSession.t → ExecutionSession.t)
    (l : list ExecutionSession.t) :
  (∀ s, ExecutionSession.id (g s) = ExecutionSession.id s) →
  head (filter (λ s, ExecutionSession.id s = sid) (g <$> l))
  = g <$> head (filter (λ s, ExecutionSession.id s = sid) l).
Proof.
  intros Hg. induction l as [|x l IH]; [done|].
  rewrite fmap_cons, !filter_cons, Hg. by case_decide.
Qed.

Lemma getSession_updateSession sid sid' f db :
  (∀ s, ExecutionSession.id (f s) = ExecutionSession.id s) →
  getSession sid' (updateSession sid f db)
  = (if decide (sid' = sid) then fmap f else id) (getSession sid' db).
Proof.
  intros Hf. unfold getSession, updateSession. simpl.
  rewrite getSession_fmap by (intros s; case_decide; [apply Hf|done]).
  destruct (head _) as [s|] eqn:Hs; [|by case_decide].
  apply head_Some_elem_of, list_elem_of_filter in Hs as [Hs _].
  simpl. repeat case_decide; by simplify_eq/=.
Qed.

Lemma updateSession_missing sid f db :
  getSession sid db = None → updateSession sid f db = db.
Proof.
  unfold getSession, updateSession. intros H. destruct db as [ss rows]. simpl in *.
  f_equal. etrans; [|apply list_fmap_id]. apply list_fmap_ext.
  intros i s Hs. rewrite decide_False; [done|]. intros Hid.
  apply head_None in H.
  assert (s ∈ filter (λ s, ExecutionSession.id s = sid) ss) as Hin
    by (apply list_elem_of_filter; split; [done|by eapply list_elem_of_lookup_2]).
  rewrite H in Hin. by apply not_elem_of_nil in Hin.
Qed.

(** X1.  updateSessionProgress and finishSession called with an id that no
    session row carries leave the store exactly as it was: the UPDATE matches
    no row and no row is created. *)
Theorem update_missing_session_noop sid p c e st st' db :
  DatabaseService.getSession sid db = None →
  DatabaseService.updateSessionProgress sid p c e st db = db
  ∧ DatabaseService.finishSession sid st' db = db.
Proof. intros H. split; by apply updateSession_missing. Qed.

(** X2.  After updateSessionProgress, getSession of the same id gives the row
    with the three counters just written and with the status passed, or the
    old status when none is passed; after finishSession it gives the row with
    the status passed and the end date set, the counters untouched.  Id, file
    name and total never change, and an id without a row still reads as null. *)
Theorem getSession_after_update sid p c e st st' db :
  DatabaseService.getSession sid
    (DatabaseService.updateSessionProgress sid p c e st db)
  = (λ s, ExecutionSession.mk (ExecutionSession.id s)
            (ExecutionSession.fileName s) (ExecutionSession.ended s)
            (default (ExecutionSession.status s) st)
            (ExecutionSession.totalRecords s) p c e)
    <$> DatabaseService.getSession sid db
  ∧ DatabaseService.getSession sid (DatabaseService.finishSession sid st' db)
    = (λ s, ExecutionSession.mk (ExecutionSession.id s)
              (ExecutionSession.fileName s) true st'
              (ExecutionSession.totalRecords s)
              (ExecutionSession.processedRecords s)
              (ExecutionSession.canceledRecords s)
              (ExecutionSession.errorRecords s))
      <$> DatabaseService.getSession sid db.
Proof.
  unfold updateSessionProgress, finishSession.
  rewrite !getSession_updateSession by done. by rewrite !decide_True.
Qed.

Lemma updateSession_sessions_ids sid f db :
  (∀ s, ExecutionSession.id (f s) = ExecutionSession.id s) →
  ExecutionSession.id <$> execution_sessions (updateSession sid f db)
  = ExecutionSession.id <$> execution_sessions db.
Proof.
  intros Hf. unfold updateSession. simpl. rewrite <- list_fmap_compose.
  apply list_fmap_ext. intros i s _. simpl. case_decide; [apply Hf|done].
Qed.

Lemma wfDb_updateSession sid f db :
  (∀ s, ExecutionSession.id (f s) = ExecutionSession.id s) →
  wfDb db → wfDb (updateSession sid f db).
Proof.
  intros Hf [Hids Hrows]. split.
  - rewrite updateSession_sessions_ids by done.
    unfold updateSession. simpl. by rewrite length_fmap.
  - unfold updateSession. simpl. by rewrite length_fmap.
Qed.

Lemma wfDb_saveRecords sid rs db :
  1 ≤ sid ≤ length (execution_sessions db) →
  wfDb db → wfDb (saveRecords sid rs db).
Proof.
  intros Hsid [Hids Hrows]. unfold saveRecords.
  destruct (rowsOf sid db); (split; [done|]); simpl.
  - apply Forall_app. split; [done|].
    eapply Forall_impl; [apply toRow_sessionId|]. simpl. intros x ->. done.
  - rewrite foldl_updateRow. apply Forall_fmap.
    eapply Forall_impl; [exact Hrows|]. intros x Hx. simpl.
    by rewrite overwrite_sessionId.
Qed.

Lemma wfDb_createSession name rs db :
  wfDb db → wfDb (createSession name rs db).2.
Proof.
  intros [Hids Hrows]. unfold createSession. cbn [snd].
  apply wfDb_saveRecords.
  - simpl. rewrite length_app. unfold nextId. simpl. lia.
  - split; simpl.
    + rewrite fmap_app, length_app, Hids. simpl.
      rewrite Nat.add_1_r, seq_S. simpl. done.
    + rewrite length_app. eapply Forall_impl; [exact Hrows|]. simpl. lia.
Qed.

(** X3.  The empty store satisfies, and createSession, saveRecords on an
    existing session, updateSessionProgress and finishSession preserve, that
    the session ids are 1, 2, 3, ... in the order of creation and that every
    record row belongs to an existing session; createSession returns the next
    number. *)
Theorem session_ids_invariant :
  wfDb DatabaseService.empty
  ∧ ∀ db, wfDb db →
      (∀ name rs,
         (DatabaseService.createSession name rs db).1
         = S (length (DatabaseService.execution_sessions db))
         ∧ wfDb (DatabaseService.createSession name rs db).2)
      ∧ (∀ sid rs,
           1 ≤ sid ≤ length (DatabaseService.execution_sessions db) →
           wfDb (DatabaseService.saveRecords sid rs db))
      ∧ (∀ sid p c e st,
           wfDb (DatabaseService.updateSessionProgress sid p c e st db))
      ∧ (∀ sid st, wfDb (DatabaseService.finishSession sid st db)).
Proof.
  split; [by split|]. intros db Hwf. split_and!.
  - intros name rs. split; [done|by apply wfDb_createSession].
  - intros. by apply wfDb_saveRecords.
  - intros. by apply wfDb_updateSession.
  - intros. by apply wfDb_updateSession.
Qed.

Lemma getSession_fresh sid db :
  wfDb db → length (execution_sessions db) < sid → getSession sid db = None.
Proof.
  intros [Hids _] Hlt. unfold getSession.
  rewrite filter_none; [done|].
  apply Forall_forall. intros s Hs Hid.
  assert (ExecutionSession.id s ∈ seq 1 (length (execution_sessions db))) as Hin.
  { rewrite <- Hids. by apply list_elem_of_fmap_2. }
  apply elem_of_seq in Hin. lia.
Qed.

Lemma saveRecords_sessions sid rs db :
  execution_sessions (saveRecords sid rs db) = execution_sessions db.
Proof. unfold saveRecords. by destruct (rowsOf sid db). Qed.

Lemma createSession_stored name rs db :
  wfDb db →
  getSession (nextId db) db = None
  ∧ getSession (nextId db) (createSession name rs db).2
    = Some (ExecutionSession.mk (nextId db) name false
              ExecutionSession.running (length rs) 0 0 0)
  ∧ storedAs (nextId db) rs (createSession name rs db).2.
Proof.
  intros Hwf. unfold createSession. cbn [fst snd].
  pose proof (getSession_fresh (nextId db) db Hwf
                ltac:(unfold nextId; lia)) as Hf.
  assert (Hst : storedAs (nextId db) rs
                  (saveRecords (nextId db) rs
                     (mk (execution_sessions db
                          ++ [ExecutionSession.mk (nextId db) name false
                                ExecutionSession.running (length rs) 0 0 0])
                        (processed_records db)))).
  { apply storedAs_saveRecords_new. exact (nextId_fresh db Hwf). }
  split_and!; [done| |done].
  unfold getSession in *. rewrite saveRecords_sessions. simpl.
  apply head_None in Hf. rewrite filter_app, Hf. cbn [app].
  by rewrite filter_cons_True.
Qed.

(** X4.  In a store whose session ids are 1, ..., n, createSession takes an id
    that no session had; afterwards getSession gives a running session with
    that id, the file name, a total equal to the number of records and
    counters 0, and getSessionRecordsAsPolicyRecords gives back exactly the
    records handed in, in their order. *)
Theorem createSession_read_back name rs db :
  wfDb db →
  let sid := (DatabaseService.createSession name rs db).1 in
  let db' := (DatabaseService.createSession name rs db).2 in
  DatabaseService.getSession sid db = None
  ∧ DatabaseService.getSession sid db'
    = Some (ExecutionSession.mk sid name false ExecutionSession.running
              (length rs) 0 0 0)
  ∧ storedAs sid rs db'
  ∧ DatabaseService.getSessionRecordsAsPolicyRecords sid db' = rs.
Proof.
  intros Hwf. cbv zeta.
  destruct (createSession_stored name rs db Hwf) as (H1 & H2 & H3).
  split_and!; [done..|]. by apply read_storedAs.
Qed.

(** X5.  saveRecords on a session whose rows hold the list old: with no rows
    it inserts one row for each record; otherwise it overwrites the rows in
    place by index, so that a shorter list leaves the last rows as they were
    and the surplus of a longer list is dropped, not inserted.  With equal
    lengths the records read back are the ones written. *)
Theorem saveRecords_overwrites sid old rs db :
  storedAs sid old db →
  let now := if decide (old = []) then rs
             else take (length old) rs ++ drop (length rs) old in
  let db' := DatabaseService.saveRecords sid rs db in
  storedAs sid now db'
  ∧ DatabaseService.getSessionRecordsAsPolicyRecords sid db' = now
  ∧ (length rs = length old →
     DatabaseService.getSessionRecordsAsPolicyRecords sid db' = rs).
Proof.
  intros H. cbv zeta.
  assert (Hs : storedAs sid
                 (if decide (old = []) then rs
                  else take (length old) rs ++ drop (length rs) old)
                 (saveRecords sid rs db)).
  { case_decide as Ho; [subst; by apply storedAs_saveRecords_new|].
    by apply storedAs_saveRecords_old. }
  split_and!; [done|by apply read_storedAs|].
  intros Hlen. rewrite (read_storedAs _ _ _ Hs).
  case_decide; [done|].
  rewrite <- Hlen, firstn_all, drop_ge, app_nil_r by lia. done.
Qed.

(** X6.  saveRecords, updateSessionProgress and finishSession on one session
    never change the records or the session row read for another id, and the
    two updates of the session table never change a record row. *)
Theorem writes_are_isolated sid sid' rs p c e st st' db :
  sid' ≠ sid →
  let saved := DatabaseService.saveRecords sid rs db in
  let updated := DatabaseService.updateSessionProgress sid p c e st db in
  let finished := DatabaseService.finishSession sid st' db in
  DatabaseService.getSessionRecordsAsPolicyRecords sid' saved
  = DatabaseService.getSessionRecordsAsPolicyRecords sid' db
  ∧ DatabaseService.getSession sid' saved = DatabaseService.getSession sid' db
  ∧ DatabaseService.getSession sid' updated
    = DatabaseService.getSession sid' db
  ∧ DatabaseService.getSession sid' finished
    = DatabaseService.getSession sid' db
  ∧ DatabaseService.processed_records updated
    = DatabaseService.processed_records db
  ∧ DatabaseService.processed_records finished
    = DatabaseService.processed_records db.
Proof.
  intros Hne. split_and!; try done.
  - unfold getSessionRecordsAsPolicyRecords.
    by rewrite rowsOf_saveRecords_other.
  - unfold getSession. by rewrite saveRecords_sessions.
  - unfold updateSessionProgress.
    rewrite getSession_updateSession by done. by rewrite decide_False.
  - unfold finishSession.
    rewrite getSession_updateSession by done. by rewrite decide_False.
Qed.

End Store.

(** ** Rounding to a double *)

Section Doubles.
Local Open Scope Z_scope.

Lemma rne_le N D M : 0 < D → N ≤ M * D → rne N D ≤ M.
Proof.
  intros HD H. unfold rne.
  pose proof (Z.div_mod N D ltac:(lia)) as E.
  pose proof (Z.mod_pos_bound N D HD) as [Hr0 Hr1].
  set (q := N / D) in *. set (r := N mod D) in *.
  assert (q ≤ M) by nia.
  destruct (decide (q = M)) as [->|].
  - assert (r = 0) by nia. repeat case_decide; try lia.
  - repeat case_decide; destruct (Z.even q); lia.
Qed.

Lemma rne_ge N D M : 0 < D → M * D ≤ N → M ≤ rne N D.
Proof.
  intros HD H. unfold rne.
  pose proof (Z.div_mod N D ltac:(lia)) as E.
  pose proof (Z.mod_pos_bound N D HD) as [Hr0 Hr1].
  set (q := N / D) in *. set (r := N mod D) in *.
  assert (M ≤ q) by nia.
  repeat case_decide; destruct (Z.even q); lia.
Qed.

Lemma pow2_pos k : 0 < 2 ^ Z.max 0 k.
Proof. apply Z.pow_pos_nonneg; lia. Qed.

(** The scaled quotient lies in [[2^52, 2^53)]. *)
Lemma expoente_spec n d :
  0 < n → 0 < d →
  let e := expoente n d in
  2 ^ 52 * (d * 2 ^ Z.max 0 e) ≤ n * 2 ^ Z.max 0 (- e)
  ∧ n * 2 ^ Z.max 0 (- e) < 2 ^ 53 * (d * 2 ^ Z.max 0 e).
Proof.
  intros Hn Hd. cbv zeta. unfold expoente.
  set (s := Z.log2 d + 1).
  assert (0 < s) as Hs by (pose proof (Z.log2_nonneg d); lia).
  assert (d < 2 ^ s) as Hds.
  { unfold s. destruct (Z.log2_spec d Hd) as [_ H]. by rewrite Z.add_1_r. }
  assert (0 < 2 ^ s) as Hps by (apply Z.pow_pos_nonneg; lia).
  set (x := n * 2 ^ s / d).
  assert (1 ≤ x) as Hx.
  { unfold x. apply Z.div_le_lower_bound; nia. }
  destruct (Z.log2_spec x ltac:(lia)) as [Hlo Hhi].
  set (k := Z.log2 x) in *.
  assert (0 ≤ k) as Hk by apply Z.log2_nonneg.
  assert (x * d ≤ n * 2 ^ s ∧ n * 2 ^ s < (x + 1) * d) as [Hx1 Hx2].
  { unfold x. pose proof (Z.div_mod (n * 2 ^ s) d ltac:(lia)).
    pose proof (Z.mod_pos_bound (n * 2 ^ s) d Hd). nia. }
  assert (2 ^ k * d ≤ n * 2 ^ s) as H1 by nia.
  assert (n * 2 ^ s < 2 ^ (k + 1) * d) as H2.
  { rewrite Z.add_1_r in *. nia. }
  (* k = e + s + 52 *)
  set (e := k - s - 52).
  assert (2 ^ 53 = 2 * 2 ^ 52) as E53 by done.
  assert (0 < 2 ^ 52) as H52 by done.
  destruct (decide (0 ≤ e)) as [He|He].
  - rewrite (Z.max_r 0 e), (Z.max_l 0 (- e)) by lia.
    replace k with (52 + e + s) in H1 by lia.
    replace (k + 1) with (53 + e + s) in H2 by lia.
    rewrite !Z.pow_add_r in H1, H2 by lia.
    change (2 ^ 0) with 1.
    split; [apply (Z.mul_le_mono_pos_r _ _ (2 ^ s))
           |apply (Z.mul_lt_mono_pos_r (2 ^ s))]; try done.
    + etrans; [|etrans; [exact H1|]]; apply Z.eq_le_incl; ring.
    + eapply Z.le_lt_trans; [|eapply Z.lt_le_trans; [exact H2|]];
        apply Z.eq_le_incl; ring.
  - rewrite (Z.max_l 0 e), (Z.max_r 0 (- e)) by lia.
    change (2 ^ 0) with 1.
    assert (2 ^ (- e) * 2 ^ k = 2 ^ s * 2 ^ 52) as Es.
    { rewrite <- !Z.pow_add_r by lia. f_equal. lia. }
    rewrite Z.add_1_r, Z.pow_succ_r in H2 by done.
    assert (0 < 2 ^ k) by (apply Z.pow_pos_nonneg; lia).
    split; [apply (Z.mul_le_mono_pos_r _ _ (2 ^ k))
           |apply (Z.mul_lt_mono_pos_r (2 ^ k))]; try done.
    + replace (n * 2 ^ (- e) * 2 ^ k) with (n * 2 ^ s * 2 ^ 52)
        by (rewrite <- !Z.mul_assoc, Es; ring).
      replace (2 ^ 52 * (d * 1) * 2 ^ k) with (2 ^ k * d * 2 ^ 52) by ring.
      by apply Z.mul_le_mono_nonneg_r.
    + replace (n * 2 ^ (- e) * 2 ^ k) with (n * 2 ^ s * 2 ^ 52)
        by (rewrite <- !Z.mul_assoc, Es; ring).
      replace (2 ^ 53 * (d * 1) * 2 ^ k) with (2 * 2 ^ k * d * 2 ^ 52).
      * by apply Z.mul_lt_mono_pos_r.
      * change (2 ^ 53) with (2 * 2 ^ 52). ring.
Qed.

Lemma arredondar_pos n d :
  0 < n → 0 < d → 0 < (arredondar n d).1 ∧ 0 < (arredondar n d).2.
Proof.
  intros Hn Hd. destruct (expoente_spec n d Hn Hd) as [Hlo _].
  unfold arredondar. cbn [fst snd].
  pose proof (pow2_pos (expoente n d)). pose proof (pow2_pos (- expoente n d)).
  split; [|done]. apply Z.mul_pos_pos; [|done].
  eapply Z.lt_le_trans; [|apply rne_ge; [lia|exact Hlo]]. done.
Qed.

(** Rounding does not cross a number with at most 53 significant bits. *)
Lemma arredondar_ge n d u j :
  0 < n → 0 < d → 0 ≤ j → 0 < u < 2 ^ 53 → u * d ≤ n * 2 ^ j →
  u * (arredondar n d).2 ≤ (arredondar n d).1 * 2 ^ j.
Proof.
  intros Hn Hd Hj [Hu0 Hu] H.
  destruct (expoente_spec n d Hn Hd) as [Hlo Hhi].
  unfold arredondar. cbn [fst snd]. set (e := expoente n d) in *.
  assert (2 ^ 52 ≤ rne (n * 2 ^ Z.max 0 (- e)) (d * 2 ^ Z.max 0 e)) as Hm.
  { apply rne_ge; [pose proof (pow2_pos e); lia|exact Hlo]. }
  assert (0 < 2 ^ j) as Hpj by (apply Z.pow_pos_nonneg; lia).
  destruct (decide (j ≤ - e)) as [Hje|Hje].
  - (* the bound lies on the grid of the result *)
    rewrite (Z.max_l 0 e), (Z.max_r 0 (- e)) in * by lia.
    change (2 ^ 0) with 1 in *. rewrite !Z.mul_1_r in *.
    assert (2 ^ (- e) = 2 ^ (- e - j) * 2 ^ j) as E.
    { rewrite <- Z.pow_add_r by lia. f_equal. lia. }
    assert (0 < 2 ^ (- e - j)) by (apply Z.pow_pos_nonneg; lia).
    assert (u * 2 ^ (- e - j) ≤ rne (n * 2 ^ (- e)) d) as Hge.
    { apply rne_ge; [done|]. rewrite E.
      replace (u * 2 ^ (- e - j) * d) with (u * d * 2 ^ (- e - j)) by ring.
      replace (n * (2 ^ (- e - j) * 2 ^ j)) with (n * 2 ^ j * 2 ^ (- e - j))
        by ring.
      apply Z.mul_le_mono_nonneg_r; lia. }
    rewrite E at 1. rewrite Z.mul_assoc.
    apply Z.mul_le_mono_nonneg_r; lia.
  - (* the result is at least 2^52 units of a coarser grid *)
    set (m := rne _ _) in *.
    destruct (decide (0 ≤ e)) as [He|He].
    + rewrite (Z.max_r 0 e), (Z.max_l 0 (- e)) in * by lia.
      change (2 ^ 0) with 1 in *. rewrite Z.mul_1_r.
      assert (0 < 2 ^ e) by (apply Z.pow_pos_nonneg; lia).
      assert (2 ≤ 2 ^ e * 2 ^ j).
      { rewrite <- Z.pow_add_r by lia.
        change 2 with (2 ^ 1) at 1. apply Z.pow_le_mono_r; lia. }
      change (2 ^ 53) with (2 ^ 52 * 2) in Hu.
      rewrite <- Z.mul_assoc. nia.
    + rewrite (Z.max_l 0 e), (Z.max_r 0 (- e)) in * by lia.
      change (2 ^ 0) with 1 in *. rewrite !Z.mul_1_r in *.
      assert (2 ^ j = 2 ^ (j + e) * 2 ^ (- e)) as E.
      { rewrite <- Z.pow_add_r by lia. f_equal. lia. }
      assert (0 < 2 ^ (- e)) by (apply Z.pow_pos_nonneg; lia).
      assert (2 ≤ 2 ^ (j + e)).
      { change 2 with (2 ^ 1) at 1. apply Z.pow_le_mono_r; lia. }
      change (2 ^ 53) with (2 ^ 52 * 2) in Hu.
      rewrite E. nia.
Qed.

Lemma arredondar_le n d u j :
  0 < n → 0 < d → 0 ≤ j → 0 < u < 2 ^ 53 → n * 2 ^ j ≤ u * d →
  (arredondar n d).1 * 2 ^ j ≤ u * (arredondar n d).2.
Proof.
  intros Hn Hd Hj [Hu0 Hu] H.
  destruct (expoente_spec n d Hn Hd) as [Hlo Hhi].
  unfold arredondar. cbn [fst snd]. set (e := expoente n d) in *.
  assert (0 < 2 ^ j) as Hpj by (apply Z.pow_pos_nonneg; lia).
  change (2 ^ 53) with (2 ^ 52 * 2) in Hu.
  assert (0 < 2 ^ 52) as H52 by done.
  destruct (decide (j ≤ - e)) as [Hje|Hje].
  - rewrite (Z.max_l 0 e), (Z.max_r 0 (- e)) in * by lia.
    change (2 ^ 0) with 1 in *. rewrite !Z.mul_1_r in *.
    assert (2 ^ (- e) = 2 ^ (- e - j) * 2 ^ j) as E.
    { rewrite <- Z.pow_add_r by lia. f_equal. lia. }
    assert (0 < 2 ^ (- e - j)) by (apply Z.pow_pos_nonneg; lia).
    assert (rne (n * 2 ^ (- e)) d ≤ u * 2 ^ (- e - j)) as Hle.
    { apply rne_le; [done|]. rewrite E.
      replace (u * 2 ^ (- e - j) * d) with (u * d * 2 ^ (- e - j)) by ring.
      replace (n * (2 ^ (- e - j) * 2 ^ j)) with (n * 2 ^ j * 2 ^ (- e - j))
        by ring.
      apply Z.mul_le_mono_nonneg_r; lia. }
    rewrite E at 2. rewrite Z.mul_assoc.
    apply Z.mul_le_mono_nonneg_r; lia.
  - (* impossible: the quotient would be below its own exponent *)
    exfalso.
    destruct (decide (0 ≤ e)) as [He|He].
    + rewrite (Z.max_r 0 e), (Z.max_l 0 (- e)) in * by lia.
      change (2 ^ 0) with 1 in *. rewrite !Z.mul_1_r in *.
      assert (1 ≤ 2 ^ e) by (pose proof (Z.pow_pos_nonneg 2 e); lia).
      destruct (decide (e = 0)) as [E0|E0].
      * rewrite E0 in *. change (2 ^ 0) with 1 in *.
        assert (2 ≤ 2 ^ j).
        { change 2 with (2 ^ 1) at 1. apply Z.pow_le_mono_r; lia. }
        nia.
      * assert (2 ≤ 2 ^ e).
        { change 2 with (2 ^ 1) at 1. apply Z.pow_le_mono_r; lia. }
        nia.
    + rewrite (Z.max_l 0 e), (Z.max_r 0 (- e)) in * by lia.
      change (2 ^ 0) with 1 in *. rewrite !Z.mul_1_r in *.
      assert (2 ^ j = 2 ^ (j + e) * 2 ^ (- e)) as E.
      { rewrite <- Z.pow_add_r by lia. f_equal. lia. }
      assert (0 < 2 ^ (- e)) by (apply Z.pow_pos_nonneg; lia).
      assert (2 ≤ 2 ^ (j + e)).
      { change 2 with (2 ^ 1) at 1. apply Z.pow_le_mono_r; lia. }
      rewrite E in H. nia.
Qed.

Lemma Math_round_le x c : 0 < x.2 → x.1 ≤ c * x.2 → Math_round x ≤ c.
Proof.
  intros H2 H. unfold Math_round.
  apply Z.lt_succ_r, Z.div_lt_upper_bound; lia.
Qed.

Lemma Math_round_ge x c : 0 < x.2 → (2 * c - 1) * x.2 ≤ 2 * x.1 → c ≤ Math_round x.
Proof.
  intros H2 H. unfold Math_round. apply Z.div_le_lower_bound; lia.
Qed.

Lemma Math_round_pct_le num den :
  (0 < num)%nat → (num ≤ den)%nat → (Math_round_pct num den ≤ 100)%nat.
Proof.
  intros Ha Hat. unfold Math_round_pct.
  set (a := Z.of_nat num). set (t := Z.of_nat den).
  destruct (arredondar_pos a t) as [Hq1 Hq2]; [lia..|].
  pose proof (arredondar_le a t 1 0) as H1. change (2 ^ 0) with 1 in H1.
  specialize (H1 ltac:(lia) ltac:(lia) ltac:(lia) ltac:(done) ltac:(lia)).
  set (q := arredondar a t) in *.
  destruct (arredondar_pos (q.1 * 100) q.2) as [Hp1 Hp2]; [lia..|].
  pose proof (arredondar_le (q.1 * 100) q.2 100 0) as H2.
  change (2 ^ 0) with 1 in H2.
  specialize (H2 ltac:(lia) ltac:(lia) ltac:(lia) ltac:(done) ltac:(lia)).
  assert (Math_round (arredondar (q.1 * 100) q.2) ≤ 100)
    by (apply Math_round_le; lia).
  lia.
Qed.

Lemma Math_round_pct_ge num den :
  (0 < den)%nat → (den ≤ num)%nat → (100 ≤ Math_round_pct num den)%nat.
Proof.
  intros Ht Hat. unfold Math_round_pct.
  set (a := Z.of_nat num). set (t := Z.of_nat den).
  destruct (arredondar_pos a t) as [Hq1 Hq2]; [lia..|].
  pose proof (arredondar_ge a t 1 0) as H1. change (2 ^ 0) with 1 in H1.
  specialize (H1 ltac:(lia) ltac:(lia) ltac:(lia) ltac:(done) ltac:(lia)).
  set (q := arredondar a t) in *.
  destruct (arredondar_pos (q.1 * 100) q.2) as [Hp1 Hp2]; [lia..|].
  pose proof (arredondar_ge (q.1 * 100) q.2 100 0) as H2.
  change (2 ^ 0) with 1 in H2.
  specialize (H2 ltac:(lia) ltac:(lia) ltac:(lia) ltac:(done) ltac:(lia)).
  assert (100 ≤ Math_round (arredondar (q.1 * 100) q.2))
    by (apply Math_round_ge; lia).
  lia.
Qed.

(** Below a total of 200, one record too many already shows: the quotient
    is at least 1 + 41/8192, and a hundred times that is above 100.5. *)
Lemma Math_round_pct_gt num den :
  (0 < den)%nat → (den < 200)%nat → (den < num)%nat →
  (101 ≤ Math_round_pct num den)%nat.
Proof.
  intros Ht Ht200 Hat. unfold Math_round_pct.
  set (a := Z.of_nat num). set (t := Z.of_nat den).
  destruct (arredondar_pos a t) as [Hq1 Hq2]; [lia..|].
  pose proof (arredondar_ge a t 8233 13) as H1.
  change (2 ^ 13) with 8192 in H1.
  specialize (H1 ltac:(lia) ltac:(lia) ltac:(lia) ltac:(done) ltac:(lia)).
  set (q := arredondar a t) in *.
  destruct (arredondar_pos (q.1 * 100) q.2) as [Hp1 Hp2]; [lia..|].
  pose proof (arredondar_ge (q.1 * 100) q.2 201 1) as H2.
  change (2 ^ 1) with 2 in H2.
  specialize (H2 ltac:(lia) ltac:(lia) ltac:(lia) ltac:(done) ltac:(lia)).
  assert (101 ≤ Math_round (arredondar (q.1 * 100) q.2))
    by (apply Math_round_ge; lia).
  lia.
Qed.
End Doubles.

(** On every total up to 40 and every index up to twice the total, the
    percentage is the one that the binary64 division and multiplication of
    the Standard Library give. *)
Lemma Math_round_pct_is_binary64 (num den : nat) :
  0 < den ≤ 40 → 0 < num ≤ 2 * den + 2 →
  Math_round_pct num den = Math_round_pct_binary64 num den.
Proof.
  intros Hd Hn.
  assert (forallb
            (λ d, forallb
                    (λ n, Math_round_pct n d =? Math_round_pct_binary64 n d)
                    (seq 1 (2 * d + 2)))
            (seq 1 40) = true) as H by (vm_compute; reflexivity).
  rewrite forallb_forall in H.
  specialize (H den ltac:(apply in_seq; lia)).
  rewrite forallb_forall in H.
  specialize (H num ltac:(apply in_seq; lia)).
  by apply Nat.eqb_eq.
Qed.

(** ** The progress bar, the reset of failed records, the status column *)

(** X7.  updateProgress keeps the total and the logs.  Its percentage is
    computed in double precision, as in the code: the quotient (index + 1) /
    total is rounded to a double, so is its product by 100, and Math.round is
    applied.  It is 0 when the total is 0, at most 100 when index + 1 <=
    total, at least 100 when index + 1 >= total (so exactly 100 when index + 1
    = total), and at least 101 when index >= total and the total is below 200. *)
Theorem updateProgress_progress_bounds index c e s :
  let s' := StatusService.updateProgress index c e s in
  let total := ProcessStatus.total (StatusService.getStatus s) in
  let progress := ProcessStatus.progress (StatusService.getStatus s') in
  ProcessStatus.total (StatusService.getStatus s') = total
  ∧ StatusService.getLogs s' = StatusService.getLogs s
  ∧ (total = 0 → progress = 0)
  ∧ (0 < total → index + 1 ≤ total → progress ≤ 100)
  ∧ (0 < total → total ≤ index + 1 → 100 ≤ progress)
  ∧ (0 < total → total < 200 → total ≤ index → 100 < progress).
Proof.
  cbv zeta. unfold StatusService.updateProgress, StatusService.getStatus,
    StatusService.getLogs. simpl.
  split_and!; try done.
  - intros ->. done.
  - intros H1 H2. rewrite decide_True by done.
    apply Math_round_pct_le; lia.
  - intros H1 H2. rewrite decide_True by done.
    apply Math_round_pct_ge; lia.
  - intros H1 H2 H3. rewrite decide_True by done.
    apply Nat.lt_le_trans with 101; [lia|].
    apply Math_round_pct_gt; lia.
Qed.

Lemma pendenteOuErro_resetErro r :
  pendenteOuErro (resetErro r) ↔ pendenteOuErro r.
Proof.
  unfold pendenteOuErro, resetErro.
  destruct r as [a p pr v vg c n st o]; simpl. destruct st; simpl; intuition congruence.
Qed.

(** X8.  The reset loop of POST /api/reprocessar keeps the number and the
    order of the records, turns exactly the records in error into pending ones
    with the note Aguardando reprocessamento and leaves every other record
    untouched; afterwards no record is in error, the position of the first
    unfinished record (findIndex) and the number of unfinished records are
    what they were, and running the loop again changes nothing. *)
Theorem reprocessar_resets_errors (rs : list PolicyRecord.t) :
  let rs' := reprocessar rs in
  length rs' = length rs
  ∧ Forall (λ r, PolicyRecord.status r ≠ erro) rs'
  ∧ (∀ i r, rs !! i = Some r →
       rs' !! i
       = Some (if decide (PolicyRecord.status r = erro)
               then PolicyRecord.set_observacao "Aguardando reprocessamento"
                      (PolicyRecord.set_status pendente r)
               else r))
  ∧ findIndex rs' = findIndex rs
  ∧ length (filter pendenteOuErro rs') = length (filter pendenteOuErro rs)
  ∧ reprocessar rs' = rs'.
Proof.
  cbv zeta. unfold reprocessar. split_and!.
  - apply length_fmap.
  - apply Forall_fmap, Forall_forall. intros r _. simpl.
    unfold resetErro. by case_decide.
  - intros i r Hr. by rewrite list_lookup_fmap, Hr.
  - unfold findIndex. rewrite list_find_fmap.
    rewrite (list_find_ext _ pendenteOuErro)
      by (intros r; apply pendenteOuErro_resetErro).
    by destruct (list_find pendenteOuErro rs) as [[i r]|].
  - induction rs as [|r rs IH]; [done|].
    rewrite fmap_cons, !filter_cons.
    destruct (decide (pendenteOuErro r)) as [H|H].
    + rewrite decide_True by by apply pendenteOuErro_resetErro.
      simpl. by rewrite IH.
    + rewrite decide_False by by rewrite pendenteOuErro_resetErro.
      done.
  - rewrite <- list_fmap_compose. apply list_fmap_ext. intros _ r _. simpl.
    unfold resetErro. destruct r as [a p pr v vg c n st o]; simpl.
    by destruct st.
Qed.

Lemma app_cons c s t : String c s +:+ t = String c (s +:+ t).
Proof. reflexivity. Qed.

Lemma app_empty_r s : s +:+ "" = s.
Proof. induction s as [|c s IH]; [done|]. by rewrite app_cons, IH. Qed.

Lemma string_app_assoc s1 s2 s3 : (s1 +:+ s2) +:+ s3 = s1 +:+ s2 +:+ s3.
Proof. induction s1 as [|c s1 IH]; [done|]. by rewrite !app_cons, IH. Qed.

Lemma rev_app_app s1 s2 : String.rev_app s1 s2 = String.rev s1 +:+ s2.
Proof.
  unfold String.rev. revert s2. induction s1 as [|c s1 IH]; intros s2; [done|].
  cbn [String.rev_app]. by rewrite (IH (String c "")), IH, string_app_assoc.
Qed.

Lemma rev_cons c s : String.rev (String c s) = String.rev s +:+ String c "".
Proof. unfold String.rev at 1. cbn [String.rev_app]. apply rev_app_app. Qed.

Lemma rev_append s1 s2 :
  String.rev (s1 +:+ s2) = String.rev s2 +:+ String.rev s1.
Proof.
  induction s1 as [|c s1 IH].
  - by rewrite app_empty_r.
  - by rewrite app_cons, !rev_cons, IH, string_app_assoc.
Qed.

Lemma rev_rev s : String.rev (String.rev s) = s.
Proof.
  induction s as [|c s IH]; [done|].
  by rewrite rev_cons, rev_append, IH.
Qed.

Lemma brancos_app s1 s2 : brancos (s1 +:+ s2) = brancos s1 && brancos s2.
Proof.
  induction s1 as [|c s1 IH]; [done|].
  rewrite app_cons. cbn [brancos]. by rewrite IH, andb_assoc.
Qed.

Lemma brancos_rev s : brancos (String.rev s) = brancos s.
Proof.
  induction s as [|c s IH]; [done|].
  rewrite rev_cons, brancos_app, IH. simpl.
  by rewrite andb_true_r, andb_comm.
Qed.

Lemma trimStart_brancos l s : brancos l → trimStart (l +:+ s) = trimStart s.
Proof.
  induction l as [|c l IH]; [done|]. rewrite app_cons. cbn [brancos trimStart].
  intros [Hc Hl]%andb_prop_elim. destruct (Ascii.is_space c); [|done].
  by apply IH.
Qed.

Lemma trimStart_only_brancos l : brancos l → trimStart l = "".
Proof.
  intros Hl. rewrite <- (app_empty_r l). by rewrite trimStart_brancos.
Qed.

Lemma trimStart_app v r :
  ¬ brancos v → trimStart (v +:+ r) = trimStart v +:+ r.
Proof.
  induction v as [|c v IH]; [done|]. rewrite app_cons. cbn [brancos trimStart].
  destruct (Ascii.is_space c); [|done]. by intros H; apply IH.
Qed.

Lemma brancos_trimStart v : brancos (trimStart v) → brancos v.
Proof.
  induction v as [|c v IH]; [done|]. cbn [brancos trimStart].
  destruct (Ascii.is_space c) eqn:E; [done|].
  cbn [brancos]. by rewrite E.
Qed.

(** Blanks around a text do not change what [trim] leaves of it. *)
Lemma trim_brancos l v r :
  brancos l → brancos r → trim (l +:+ v +:+ r) = trim v.
Proof.
  intros Hl Hr. unfold trim, trimEnd.
  rewrite (trimStart_brancos l) by done.
  destruct (decide (brancos v)) as [Hv|Hv].
  - rewrite (trimStart_brancos v) by done.
    by rewrite (trimStart_only_brancos r), (trimStart_only_brancos v).
  - rewrite trimStart_app, rev_append by done.
    by rewrite (trimStart_brancos (String.rev r)) by by rewrite brancos_rev.
Qed.

Lemma is_space_lower c : Ascii.is_space (lower c) = Ascii.is_space c.
Proof. by destruct c as [[] [] [] [] [] [] [] []]. Qed.

Lemma toLowerCase_app s1 s2 :
  toLowerCase (s1 +:+ s2) = toLowerCase s1 +:+ toLowerCase s2.
Proof.
  induction s1 as [|c s1 IH]; [done|].
  rewrite app_cons. cbn [toLowerCase]. by rewrite app_cons, IH.
Qed.

Lemma toLowerCase_rev s : toLowerCase (String.rev s) = String.rev (toLowerCase s).
Proof.
  induction s as [|c s IH]; [done|].
  cbn [toLowerCase]. by rewrite !rev_cons, toLowerCase_app, IH.
Qed.

Lemma toLowerCase_trimStart s :
  toLowerCase (trimStart s) = trimStart (toLowerCase s).
Proof.
  induction s as [|c s IH]; [done|]. cbn [trimStart toLowerCase].
  rewrite is_space_lower. by destruct (Ascii.is_space c).
Qed.

(** Trimming and lowering can be done in either order. *)
Lemma toLowerCase_trim s : toLowerCase (trim s) = trim (toLowerCase s).
Proof.
  unfold trim, trimEnd.
  by rewrite toLowerCase_rev, toLowerCase_trimStart, toLowerCase_rev,
    toLowerCase_trimStart.
Qed.


(** ** The routes that start a run *)

Lemma findIndex_filter rs :
  filter pendenteOuErro rs ≠ [] ↔ is_Some (findIndex rs).
Proof.
  unfold findIndex. rewrite fmap_is_Some. split.
  - intros H. destruct (filter pendenteOuErro rs) as [|r l] eqn:E; [done|].
    assert (r ∈ filter pendenteOuErro rs) as Hr by (rewrite E; left).
    apply list_elem_of_filter in Hr as [HP Hr].
    apply list_elem_of_lookup in Hr as [i Hi].
    destruct (list_find_elem_of pendenteOuErro rs r) as [[j y] Hj];
      [by eapply list_elem_of_lookup_2|done|]. by exists (j, y).
  - intros [[i r] H]. apply list_find_Some in H as (Hi & HP & _).
    intros E. assert (r ∈ filter pendenteOuErro rs) as Hr.
    { apply list_elem_of_filter. split; [done|].
      by eapply list_elem_of_lookup_2. }
    rewrite E in Hr. by apply not_elem_of_nil in Hr.
Qed.


(** ** Stopping *)

Section Stop.
Variable amb : Ambiente.

(** X11.  AutomacaoService.stop always resolves: it clears isRunning, the
    pause flag and the processing flag, gives up the page and the browser,
    leaves the records and the actor alone, makes at most one call into the
    store, whose rejection it swallows, and logs nothing. *)
Theorem stop_releases (w : World) :
  ∃ t w',
    stop amb w = (t, Ok tt, w')
    ∧ AutomacaoService.isRunning (automacao w') = false
    ∧ AutomacaoService.page (automacao w') = false
    ∧ AutomacaoService.browser (automacao w') = false
    ∧ StatusService.isPaused (statusService w') = false
    ∧ ProcessStatus.isProcessing (StatusService.getStatus (statusService w'))
      = false
    ∧ records w' = records w
    ∧ actorCalls w' = actorCalls w
    ∧ dbCalls w' ≤ S (dbCalls w)
    ∧ logLines t = [].
Proof.
  unfold stop, close, swallow, tryCatch, updateSessionProgress, finishSession,
    dbCall, publish, bind, modify, gets, emit, ret; simpl.
  repeat (match goal with
          | |- context [if ?b then _ else _] => destruct b eqn:?
          | |- context [match ?x with Some _ => _ | None => _ end] =>
              destruct x eqn:?
          end; simpl).
  all: eexists _, _; split; [reflexivity|]; simpl.
  all: split_and!; try done; try lia.
  all: by destruct (AutomacaoService.page _), (AutomacaoService.browser _).
Qed.
End Stop.

(** ** The retry controller never rejects *)

Lemma tentativas_total amb site record maxRetries n :
  ∀ attempt lastError w,
  ∃ k t result w',
    tentativas amb site record maxRetries n attempt lastError w
    = (t, Ok result, w')
    ∧ k ≤ n
    ∧ attempts t = (λ j, (record, (attempt + Z.of_nat j)%Z)) <$> seq 0 k
    ∧ actorCalls w' = actorCalls w + k
    ∧ records w' = records w
    ∧ (AutomationResult.success result = false → k = n)
    ∧ (AutomationResult.success result = true →
       0 < k ∧ cancelarApolice amb (actorCalls w + k - 1) = Resolves result).
Proof.
  induction n as [|n IH]; intros attempt lastError w.
  - exists 0, [], (AutomationResult.mk false (lastErrorMessage lastError)), w.
    by split_and!.
  - destruct (tentar_spec amb site record maxRetries attempt w)
      as (t1 & w1 & E1 & Ht1 & Ha1 & Hr1).
    assert (∀ msg,
      ∃ k t result w',
        aposErro amb site record maxRetries attempt msg
          (tentativas amb site record maxRetries n (attempt + 1)%Z (Some msg))
          w1 = (t, Ok result, w')
        ∧ k ≤ n
        ∧ attempts t
          = (λ j, (record, (attempt + Z.of_nat (S j))%Z)) <$> seq 0 k
        ∧ actorCalls w' = actorCalls w1 + k
        ∧ records w' = records w1
        ∧ (AutomationResult.success result = false → k = n)
        ∧ (AutomationResult.success result = true →
           0 < k
           ∧ cancelarApolice amb (actorCalls w1 + k - 1) = Resolves result))
      as Hfail.
    { intros msg.
      destruct (aposErro_spec amb site record maxRetries attempt msg
                  (tentativas amb site record maxRetries n (attempt + 1)%Z
                     (Some msg)) w1)
        as (t2 & w2 & Ht2 & Ha2 & Hr2 & E2).
      destruct (IH (attempt + 1)%Z (Some msg) w2)
        as (k & t3 & result & w3 & E3 & Hk & Ht3 & Ha3 & Hr3 & Hf & Hs).
      exists k, (t2 ++ t3), result, w3. split_and!.
      - by apply E2.
      - done.
      - rewrite attempts_app, Ht2, Ht3. simpl. apply list_fmap_ext.
        intros _ j _. simpl. f_equal. lia.
      - lia.
      - congruence.
      - done.
      - intros H. destruct (Hs H) as [? ?]. by rewrite <- Ha2. }
    cbn [tentativas]. unfold bind at 1. rewrite E1.
    destruct (cancelarApolice amb (actorCalls w)) as [res|msg] eqn:Hc.
    + destruct (AutomationResult.success res) eqn:Hres.
      * exists 1. eexists _, res, _. split_and!.
        -- unfold bind, addLog, modify, emit, ret. reflexivity.
        -- lia.
        -- rewrite attempts_app, Ht1. simpl. do 3 f_equal. lia.
        -- simpl. lia.
        -- done.
        -- congruence.
        -- intros _. split; [lia|].
           by replace (actorCalls w + 1 - 1) with (actorCalls w) by lia.
      * destruct (Hfail (AutomationResult.message res))
          as (k & t & result & w' & E & Hk & Ht & Ha & Hr & Hf & Hs).
        rewrite E. exists (S k), (t1 ++ t), result, w'. split_and!.
        -- done.
        -- lia.
        -- rewrite attempts_app, Ht1, Ht. cbn [seq fmap list_fmap app].
           rewrite <- fmap_S_seq, <- list_fmap_compose.
           f_equal; try done; f_equal; lia.
        -- lia.
        -- congruence.
        -- intros H. by rewrite (Hf H).
        -- intros H. destruct (Hs H) as [? Hx]. split; [lia|].
           rewrite <- Hx. f_equal. lia.
    + destruct (Hfail msg)
        as (k & t & result & w' & E & Hk & Ht & Ha & Hr & Hf & Hs).
      rewrite E. exists (S k), (t1 ++ t), result, w'. split_and!.
      * done.
      * lia.
      * rewrite attempts_app, Ht1, Ht. cbn [seq fmap list_fmap app].
        rewrite <- fmap_S_seq, <- list_fmap_compose.
        f_equal; try done; f_equal; lia.
      * lia.
      * congruence.
      * intros H. by rewrite (Hf H).
      * intros H. destruct (Hs H) as [? Hx]. split; [lia|].
        rewrite <- Hx. f_equal. lia.
Qed.


(** ** Specifications and invariants *)

#[global] Instance qualquer_Closed : Closed qualquer.
Proof. by split. Qed.

#[global] Instance semTentativa_Closed : Closed semTentativa.
Proof.
  split; [done|]. unfold semTentativa. intros t1 t2 H1 H2.
  by rewrite attempts_app, H1, H2.
Qed.

Section Triple.
Variable amb : Ambiente.

Lemma triple_conseq {A} (P P' : World → Prop) (m : M A) T T'
    (R R' : Outcome A → World → Prop) :
  triple P m T R →
  (∀ w, P' w → P w) → (∀ t, T t → T' t) → (∀ o w, R o w → R' o w) →
  triple P' m T' R'.
Proof. intros H HP HT HR w Hw. destruct (H w (HP w Hw)). split; auto. Qed.

Lemma triple_pre {A} (P P' : World → Prop) (m : M A) T R :
  triple P m T R → (∀ w, P' w → P w) → triple P' m T R.
Proof. intros H HP w Hw. exact (H w (HP w Hw)). Qed.

Lemma triple_bind {A B} P (m : M A) (k : A → M B) T1 T2 T R1 R2 :
  triple P m T1 R1 →
  (∀ a, triple (R1 (Ok a)) (k a) T2 R2) →
  (∀ msg w, R1 (Threw msg) w → R2 (Threw msg) w) →
  (∀ w, R1 Blocked w → R2 Blocked w) →
  (∀ t1, T1 t1 → T t1) →
  (∀ t1 t2, T1 t1 → T2 t2 → T (t1 ++ t2)) →
  triple P (bind m k) T R2.
Proof.
  intros Hm Hk Ht Hb HT1 HT w Hw. unfold bind.
  destruct (Hm w Hw) as [H1 H2].
  destruct (m w) as [[t1 [a|msg|]] w1]; simpl in *; auto.
  destruct (Hk a w1 H2) as [H3 H4].
  destruct (k a w1) as [[t2 r2] w2]; simpl in *. auto.
Qed.

Lemma triple_gets_bind {A B} P (f : World → A) (k : A → M B) T R :
  (∀ a, triple (λ w, P w ∧ f w = a) (k a) T R) →
  triple P (bind (gets f) k) T R.
Proof.
  intros Hk w Hw. unfold bind, gets.
  destruct (Hk (f w) w (conj Hw eq_refl)) as [H1 H2].
  by destruct (k (f w) w) as [[t2 r2] w2].
Qed.

Lemma triple_tryCatch {A} P (m : M A) h T1 T2 T R1 R2 :
  triple P m T1 R1 →
  (∀ msg, triple (R1 (Threw msg)) (h msg) T2 R2) →
  (∀ a w, R1 (Ok a) w → R2 (Ok a) w) →
  (∀ w, R1 Blocked w → R2 Blocked w) →
  (∀ t1, T1 t1 → T t1) →
  (∀ t1 t2, T1 t1 → T2 t2 → T (t1 ++ t2)) →
  triple P (tryCatch m h) T R2.
Proof.
  intros Hm Hh Ho Hb HT1 HT w Hw. unfold tryCatch.
  destruct (Hm w Hw) as [H1 H2].
  destruct (m w) as [[t1 [a|msg|]] w1]; simpl in *; auto.
  destruct (Hh msg w1 H2) as [H3 H4].
  destruct (h msg w1) as [[t2 r2] w2]; simpl in *. auto.
Qed.

(** *** Invariants *)

Context (I : World → Prop) (T : list LEvent → Prop) (B : World → Prop)
  `{!Closed T}.

Lemma mantem_ret {A} (a : A) : mantem I T B (ret a).
Proof. intros w Hw. by split; [apply closed_nil|]. Qed.

Lemma mantem_throw {A} msg : mantem I T B (@throw A msg).
Proof. intros w Hw. by split; [apply closed_nil|]. Qed.

Lemma mantem_gets {A} (f : World → A) : mantem I T B (gets f).
Proof. intros w Hw. by split; [apply closed_nil|]. Qed.

Lemma mantem_modify f : (∀ w, I w → I (f w)) → mantem I T B (modify f).
Proof. intros Hf w Hw. split; [apply closed_nil|by apply Hf]. Qed.

Lemma mantem_emit site e : T [(site, e)] → mantem I T B (emit site e).
Proof. intros He w Hw. by split. Qed.

Lemma mantem_bind {A A'} (m : M A) (k : A → M A') :
  mantem I T B m → (∀ a, mantem I T B (k a)) → mantem I T B (bind m k).
Proof.
  intros Hm Hk.
  eapply triple_bind; [exact Hm|exact Hk|done..|apply closed_app].
Qed.

Lemma mantem_tryCatch {A} (m : M A) h :
  mantem I T B m → (∀ msg, mantem I T B (h msg)) →
  mantem I T B (tryCatch m h).
Proof.
  intros Hm Hh.
  eapply triple_tryCatch; [exact Hm|exact Hh|done..|apply closed_app].
Qed.

Lemma mantem_swallow m : mantem I T B m → mantem I T B (swallow m).
Proof. intros Hm. apply mantem_tryCatch; [done|intros; apply mantem_ret]. Qed.

Lemma mantem_publish site f :
  (∀ w, I w → I (with_status f w)) → (∀ s, T [(site, EmitStatus s)]) →
  mantem I T B (publish site f).
Proof. intros Hf He w Hw. split; [apply He|by apply Hf]. Qed.

Lemma mantem_addLog site ty msg :
  (∀ w, I w → I (with_status (StatusService.addLog ty msg) w)) →
  (∀ l, T [(site, EmitLog l)]) →
  mantem I T B (addLog site ty msg).
Proof. intros Hf He w Hw. split; [apply He|by apply Hf]. Qed.

Lemma mantem_dbCall site e f :
  (∀ w g, I w →
     I (mkWorld (automacao w) (statusService w) (g (database w)) (records w)
          (S (dbCalls w)) (actorCalls w))) →
  T [(site, e)] → (∀ msg, T [(site, DbRejected msg)]) →
  mantem I T B (dbCall amb site e f).
Proof.
  intros Hf He Hr w Hw. unfold dbCall.
  destruct (dbRejects amb (dbCalls w)); simpl.
  - split; [apply Hr|]. by apply (Hf w id).
  - split; [apply He|]. by apply (Hf w f).
Qed.

(** A call into the store, when the statement itself matters. *)
Lemma mantem_dbCall_f site e f :
  (∀ w, I w →
     I (mkWorld (automacao w) (statusService w) (database w) (records w)
          (S (dbCalls w)) (actorCalls w))) →
  (∀ w, I w →
     I (mkWorld (automacao w) (statusService w) (f (database w)) (records w)
          (S (dbCalls w)) (actorCalls w))) →
  T [(site, e)] → (∀ msg, T [(site, DbRejected msg)]) →
  mantem I T B (dbCall amb site e f).
Proof.
  intros Hb Hf He Hr w Hw. unfold dbCall.
  destruct (dbRejects amb (dbCalls w)); simpl.
  - split; [apply Hr|]. by apply Hb.
  - split; [apply He|]. by apply Hf.
Qed.

Lemma mantem_tryFinally {A} (m : M A) f :
  mantem I T B m → mantem I T nunca f → mantem I T B (tryFinally m f).
Proof.
  intros Hm Hf w Hw. unfold tryFinally.
  destruct (Hm w Hw) as [H1 H2].
  destruct (m w) as [[t1 r1] w1]; simpl in *.
  destruct r1 as [a|msg|]; [| |done].
  all: destruct (Hf w1 H2) as [H3 H4].
  all: destruct (f w1) as [[t2 r2] w2]; simpl in *.
  all: destruct r2; simpl; (split; [by apply closed_app|done]).
Qed.

Lemma mantem_callCancelarApolice site record attempt :
  (∀ w, I w →
     I (mkWorld (automacao w) (statusService w) (database w) (records w)
          (dbCalls w) (S (actorCalls w)))) →
  T [(site, CancelarApolice record attempt)] →
  mantem I T B (callCancelarApolice amb site record attempt).
Proof. intros Hf He w Hw. split; [apply He|by apply Hf]. Qed.

(** The general rule for [await]: what is awaited never polls, and the
    route calls that arrive keep the invariant. *)
Lemma mantem_await_gen {A} site k (m : M A) :
  (∀ cs, mantem I T nunca (entregar amb cs)) →
  mantem I T nunca m → mantem I T B (await amb site k m).
Proof.
  intros Hc Hm w Hw. unfold await.
  destruct (Hm w Hw) as [H1 H2].
  destruct (m w) as [[t1 r1] w1]; simpl in *.
  destruct r1 as [a|msg|]; [| |done].
  all: destruct (Hc (comandos amb site k) w1 H2) as [H3 H4].
  all: pose proof (entregar_ok amb (comandos amb site k) w1)
         as (t2 & w2 & E & _).
  all: rewrite E in *; simpl in *.
  all: split; [by apply closed_app|done].
Qed.

(** What the code awaits never polls. *)
Lemma mantem_await {A} site k (m : M A) :
  estavel amb I → discreto amb T →
  mantem I T nunca m → mantem I T B (await amb site k m).
Proof.
  intros HI HT Hm w Hw. unfold await.
  destruct (Hm w Hw) as [H1 H2].
  destruct (m w) as [[t1 r1] w1]; simpl in *.
  specialize (HI site k w1). specialize (HT site k w1).
  destruct (entregar amb (comandos amb site k) w1) as [[t2 r2] w2].
  simpl in *. split; [by apply closed_app|].
  destruct r1; [by apply HI|by apply HI|done].
Qed.
End Triple.

Ltac mantem_step :=
  lazymatch goal with
  | |- mantem _ _ _ (bind _ _) =>
      apply mantem_bind; [typeclasses eauto| |intros ?]
  | |- mantem _ _ _ (ret _) => apply mantem_ret; typeclasses eauto
  | |- mantem _ _ _ (throw _) => apply mantem_throw; typeclasses eauto
  | |- mantem _ _ _ (gets _) => apply mantem_gets; typeclasses eauto
  | |- mantem _ _ _ (modify _) => apply mantem_modify; [typeclasses eauto|]
  | |- mantem _ _ _ (emit _ _) => apply mantem_emit
  | |- mantem _ _ _ (publish _ _) => apply mantem_publish; [|intros ?]
  | |- mantem _ _ _ (addLog _ _ _) => apply mantem_addLog; [|intros ?]
  | |- mantem _ _ _ (dbCall _ _ _ _) => apply mantem_dbCall; [| |intros ?]
  | |- mantem _ _ _ (callCancelarApolice _ _ _ _) =>
      apply mantem_callCancelarApolice
  | |- mantem _ _ _ (swallow _) => apply mantem_swallow; [typeclasses eauto|]
  | |- mantem _ _ _ (await _ _ _ _) =>
      apply mantem_await; [typeclasses eauto| | |]
  | |- mantem _ _ _ (let _ := _ in _) => cbv zeta
  | |- mantem _ _ _ (if ?b then _ else _) => destruct b
  | |- mantem _ _ _ (match ?x with _ => _ end) => destruct x
  end.

Lemma entregar_outcome amb cs w : (entregar amb cs w).1.2 = Ok tt.
Proof. by destruct (entregar_ok amb cs w) as (t & w' & -> & _). Qed.

(** An invariant that every step of a route call keeps. *)
Lemma estavel_intro amb (I : World → Prop) :
  (∀ w f, I w → I (with_status f w)) →
  (∀ w g, I w →
     I (mkWorld (automacao w) (statusService w) (g (database w)) (records w)
          (S (dbCalls w)) (actorCalls w))) →
  (∀ w, I w → I (with_automacao (AutomacaoService.set_isRunning false) w)) →
  (∀ w, I w → I (with_automacao (AutomacaoService.set_browser false) w)) →
  estavel amb I.
Proof.
  intros Hs Hd Hr Hb site k.
  assert (∀ cs, mantem I qualquer nunca (entregar amb cs)) as H.
  { induction cs as [|c cs IH]; simpl.
    - apply mantem_ret; apply _.
    - apply mantem_bind; [apply _| |intros; exact IH].
      destruct c; unfold comando, stop; emits_unfold;
        repeat mantem_step; auto; done. }
  intros w Hw. destruct (H (comandos amb site k) w Hw) as [_ Hc].
  by rewrite entregar_outcome in Hc.
Qed.

Lemma discreto_controle amb (T : list LEvent → Prop) :
  (∀ t, Forall deControle t → T t) → discreto amb T.
Proof. intros HT site k w. apply HT, entregar_deControle. Qed.

Lemma estavel_sossegado amb I : sossegado amb → estavel amb I.
Proof. intros [Hc _] site k w Hw. by rewrite Hc. Qed.

Lemma discreto_sossegado amb T : sossegado amb → T [] → discreto amb T.
Proof. intros [Hc _] HT site k w. by rewrite Hc. Qed.

Lemma semTentativa_controle t : Forall deControle t → semTentativa t.
Proof. apply attempts_deControle. Qed.

Lemma proprios_app t1 t2 : proprios (t1 ++ t2) = proprios t1 ++ proprios t2.
Proof. apply filter_app. Qed.

Lemma proprios_cons site x t :
  site ≠ SControle → proprios ((site, x) :: t) = (site, x) :: proprios t.
Proof. intros H. unfold proprios. by rewrite filter_cons_True. Qed.

Lemma attempts_cons site x t :
  attempts [(site, x)] = [] → attempts ((site, x) :: t) = attempts t.
Proof.
  intros H. change ((site, x) :: t) with ([(site, x)] ++ t).
  by rewrite attempts_app, H.
Qed.

Lemma proprios_controle t : Forall deControle t → proprios t = [].
Proof.
  induction 1 as [|ev t [Hs _] _ IH]; [done|].
  unfold proprios. rewrite filter_cons_False; [exact IH|]. by intros H.
Qed.

Section Stopped.
Variable amb : Ambiente.

Lemma parado_estavel rs : estavel amb (parado rs).
Proof. apply estavel_intro; (try by intros w ? H); by intros w [??]. Qed.

Lemma esperar_parado rs fuel i n w :
  parado rs w → esperar amb fuel i n w = ([], Ok tt, w).
Proof.
  intros [H _]. destruct fuel; simpl; unfold bind, gets; simpl;
    by rewrite H, andb_false_r.
Qed.

Lemma await_parado {A} rs site k (m : M A) w t1 r w1 :
  m w = (t1, r, w1) → parado rs w1 →
  ∃ t2 w2, await amb site k m w = (t1 ++ t2, r, w2)
           ∧ proprios t2 = [] ∧ attempts t2 = [] ∧ parado rs w2
           ∧ AutomacaoService.activeSession (automacao w2)
             = AutomacaoService.activeSession (automacao w1).
Proof.
  intros E Hw. unfold await. rewrite E.
  pose proof (parado_estavel rs site k w1 Hw) as Hp.
  assert (estavel amb (λ w, AutomacaoService.activeSession (automacao w)
                            = AutomacaoService.activeSession (automacao w1)))
    as Hs by (apply estavel_intro; by intros).
  specialize (Hs site k w1 eq_refl).
  destruct (entregar_ok amb (comandos amb site k) w1)
    as (t2 & w2 & E2 & Hd & _). rewrite E2 in *.
  exists t2, w2. split_and!; try done.
  - by apply proprios_controle.
  - by apply attempts_deControle.
Qed.

Lemma dbCall_parado rs site ev f w :
  parado rs w →
  (dbRejects amb (dbCalls w) = None
   ∧ ∃ w1, dbCall amb site ev f w = ([(site, ev)], Ok tt, w1) ∧ parado rs w1
           ∧ automacao w1 = automacao w)
  ∨ (∃ msg w1, dbRejects amb (dbCalls w) = Some msg
       ∧ dbCall amb site ev f w = ([(site, DbRejected msg)], Threw msg, w1)
       ∧ parado rs w1 ∧ automacao w1 = automacao w).
Proof.
  intros Hw. unfold dbCall. destruct (dbRejects amb (dbCalls w)) as [msg|].
  - right. by eexists _, _.
  - left. split; [done|]. by eexists.
Qed.

(** X13.  Once isRunning is false, the processing loop, entered at any index
    with any counters, attempts no record, does not poll and leaves isRunning
    false.  When the run is not paused, or no iteration remains, it returns at
    once with no event and no change.  When the run is paused and an iteration
    remains, it makes the writes of the pause block and then breaks: with no
    session to write to it returns at once; otherwise its own events (those
    not made by a route call) are updateSessionProgress(sessionId, i,
    cancelados, erros, paused) followed by saveRecords, after which it
    resolves, unless the store rejects one of the two writes, in which case it
    rejects with that error and the rejected write is its last event. *)
Theorem stopped_loop_attempts_nothing fuel n i c e (w : World) :
  AutomacaoService.isRunning (automacao w) = false →
  let run := laco amb fuel n i c e w in
  attempts run.1.1 = []
  ∧ run.1.2 ≠ Blocked
  ∧ AutomacaoService.isRunning (automacao run.2) = false
  ∧ (n = 0 ∨ StatusService.isPaused (statusService w) = false →
     run = ([], Ok tt, w))
  ∧ (0 < n → StatusService.isPaused (statusService w) = true →
     match AutomacaoService.activeSession (automacao w) with
     | None => run = ([], Ok tt, w)
     | Some sid =>
         let progresso :=
           (SPausa i, DbUpdateSessionProgress sid i c e
                        (Some ExecutionSession.paused)) in
         (run.1.2 = Ok tt
          ∧ ∃ rs, proprios run.1.1
                  = [progresso; (SPausa i, DbSaveRecords sid rs)])
         ∨ ∃ msg,
             run.1.2 = Threw msg
             ∧ (proprios run.1.1 = [(SPausa i, DbRejected msg)]
                ∨ proprios run.1.1 = [progresso; (SPausa i, DbRejected msg)])
     end).
Proof.
  intros Hr. cbv zeta.
  destruct n as [|n].
  { simpl. unfold ret. simpl. split_and!; try done. lia. }
  destruct (StatusService.isPaused (statusService w)) eqn:Hp.
  2:{ assert (laco amb fuel (S n) i c e w = ([], Ok tt, w)) as ->.
      { cbn [laco]. cbv beta delta [bind gets]. rewrite Hp. simpl.
        by rewrite Hr. }
      split_and!; try done. }
  assert (Hw : parado (records w) w) by by split.
  assert (∀ t o w', pausado amb fuel i c e w = (t, o, w') →
            (o = Ok false ∨ ∃ msg, o = Threw msg) →
            laco amb fuel (S n) i c e w
            = (t, match o with Ok _ => Ok tt | Threw m => Threw m
                         | Blocked => Blocked end, w')) as Hl.
  { intros t o w' E Ho. cbn [laco]. cbv beta delta [bind gets].
    rewrite Hp. cbv beta iota. rewrite E.
    destruct Ho as [->|[msg ->]]; simpl; by rewrite ?app_nil_r. }
  assert (∀ w1, parado (records w) w1 →
            (esperar amb fuel i 0 ;;;
             r <- gets (λ w, AutomacaoService.isRunning (automacao w)) ;;
             if negb r then ret false
             else
               s <- activeSession ;;
               match s with
               | Some sid =>
                   await amb (SRetoma i) 0
                     (updateSessionProgress amb (SRetoma i) sid i c e
                        (Some ExecutionSession.running))
               | None => ret tt
               end ;;;
               ret true) w1 = ([], Ok false, w1)) as Hresto.
  { intros w1 Hw1. cbv beta delta [bind].
    rewrite (esperar_parado (records w) fuel i 0 w1 Hw1).
    unfold gets. destruct Hw1 as [-> _]. done. }
  destruct (AutomacaoService.activeSession (automacao w)) as [sid|] eqn:Hs.
  2:{ assert (pausado amb fuel i c e w = ([], Ok false, w)) as E.
      { unfold pausado. unfold bind at 1. unfold activeSession at 1.
        unfold gets at 1.
        rewrite Hs. unfold bind at 1. unfold ret at 1. cbv beta iota.
        by rewrite (Hresto w Hw). }
      rewrite (Hl _ _ _ E) by eauto.
      split_and!; try done; by intros [?|?]. }
  (* the first write *)
  destruct (dbCall_parado (records w) (SPausa i)
              (DbUpdateSessionProgress sid i c e (Some ExecutionSession.paused))
              (DatabaseService.updateSessionProgress sid i c e
                 (Some ExecutionSession.paused)) w Hw)
    as [(_ & w1 & E1 & Hw1 & Ha1)|(msg & w1 & _ & E1 & Hw1 & Ha1)];
    destruct (await_parado (records w) (SPausa i) 0
                (updateSessionProgress amb (SPausa i) sid i c e
                   (Some ExecutionSession.paused)) w _ _ w1 E1 Hw1)
      as (t1 & w1' & A1 & Hp1 & Hat1 & Hw1' & Hs1).
  2:{ assert (pausado amb fuel i c e w
              = ([(SPausa i, DbRejected msg)] ++ t1, Threw msg, w1')) as E.
      { unfold pausado. unfold bind at 1. unfold activeSession at 1.
        unfold gets at 1.
        rewrite Hs. unfold bind at 1. unfold bind at 1.
        by rewrite A1. }
      rewrite (Hl _ _ _ E) by eauto. destruct Hw1' as [Hr1 Hrs1].
      split_and!; try done; try (by intros [?|?]).
      intros _ _. right. exists msg. split; [done|]. left.
        cbn [fst snd app]. by rewrite proprios_cons, Hp1. }
  (* the second write *)
  assert (∀ ev o w2,
            dbCall amb (SPausa i) (DbSaveRecords sid (records w))
              (DatabaseService.saveRecords sid (records w)) w1'
            = (ev, o, w2) →
            saveRecords amb (SPausa i) sid w1' = (ev, o, w2)) as Hsave.
  { intros ev o w2 E2. unfold saveRecords, bind, gets.
    destruct Hw1' as [_ ->]. rewrite E2. by destruct o. }
  destruct (dbCall_parado (records w) (SPausa i)
              (DbSaveRecords sid (records w))
              (DatabaseService.saveRecords sid (records w)) w1' Hw1')
    as [(_ & w2 & E2 & Hw2 & Ha2)|(msg & w2 & _ & E2 & Hw2 & Ha2)];
    apply Hsave in E2;
    destruct (await_parado (records w) (SPausa i) 1 _ w1' _ _ w2 E2 Hw2)
      as (t2 & w2' & A2 & Hp2 & Hat2 & Hw2' & Hs2).
  - assert (∃ t, pausado amb fuel i c e w = (t, Ok false, w2')
                 ∧ t = (SPausa i, DbUpdateSessionProgress sid i c e
                                    (Some ExecutionSession.paused))
                       :: t1 ++ (SPausa i, DbSaveRecords sid (records w))
                       :: t2) as (t & E & ->).
    { eexists. split.
      - unfold pausado. unfold bind at 1. unfold activeSession at 1.
        unfold gets at 1. rewrite Hs. unfold bind at 1. unfold bind at 1.
        rewrite A1. cbv beta iota. rewrite A2. cbv beta iota.
        rewrite (Hresto w2' Hw2'). reflexivity.
      - cbn [app]. by rewrite app_nil_r. }
    rewrite (Hl _ _ _ E) by eauto. destruct Hw2' as [Hr2 Hrs2].
    cbn [fst snd].
    split_and!; try done; try (by intros [?|?]).
    + rewrite attempts_cons, attempts_app, Hat1 by done.
      by rewrite attempts_cons.
    + intros _ _. left. split; [done|]. exists (records w).
      rewrite proprios_cons, proprios_app, Hp1 by done.
      by rewrite proprios_cons, Hp2.
  - assert (∃ t, pausado amb fuel i c e w = (t, Threw msg, w2')
                 ∧ t = (SPausa i, DbUpdateSessionProgress sid i c e
                                    (Some ExecutionSession.paused))
                       :: t1 ++ (SPausa i, DbRejected msg) :: t2)
      as (t & E & ->).
    { eexists. split.
      - unfold pausado. unfold bind at 1. unfold activeSession at 1.
        unfold gets at 1. rewrite Hs. unfold bind at 1. unfold bind at 1.
        rewrite A1. cbv beta iota. rewrite A2. reflexivity.
      - reflexivity. }
    rewrite (Hl _ _ _ E) by eauto. destruct Hw2' as [Hr2 Hrs2].
    cbn [fst snd].
    split_and!; try done; try (by intros [?|?]).
    + rewrite attempts_cons, attempts_app, Hat1 by done.
      by rewrite attempts_cons.
    + intros _ _. right. exists msg. split; [done|]. right.
      rewrite proprios_cons, proprios_app, Hp1 by done.
      by rewrite proprios_cons, Hp2.
Qed.
End Stopped.

Section Polling.
Variable amb : Ambiente.

Local Abbreviation polls m := (mantem sempre qualquer emEspera m).

Ltac go :=
  emits_unfold;
  repeat first [mantem_step | done | by intros ? ? ?].

Lemma esperar_polls fuel i : ∀ n, polls (esperar amb fuel i n).
Proof.
  induction fuel as [|fuel IH]; intros n.
  - intros w _. simpl. unfold bind, gets. simpl.
    destruct (StatusService.isPaused _) eqn:Hp,
      (AutomacaoService.isRunning _) eqn:Hr; by simpl.
  - simpl. go.
Qed.

Lemma tentativas_polls site record maxRetries n :
  ∀ attempt lastError,
    polls (tentativas amb site record maxRetries n attempt lastError).
Proof.
  induction n as [|n IH]; intros attempt lastError; simpl;
    unfold tentar, aposErro; go.
Qed.

Lemma laco_polls fuel n : ∀ i c e, polls (laco amb fuel n i c e).
Proof.
  induction n as [|n IH]; intros i c e; simpl.
  - go.
  - unfold pausado, antes, processar, processarRegistro, depois,
      atualizarProgresso, salvarProgresso.
    go; try apply esperar_polls; try apply tentativas_polls; try apply IH.
Qed.

Lemma contar_polls n : ∀ i c e, polls (contar n i c e).
Proof. induction n as [|n IH]; intros i c e; simpl; go. Qed.

Lemma corpo_polls fuel fileName startIndex :
  polls (corpo amb fuel fileName startIndex).
Proof.
  unfold corpo, sessao, initialize, fim.
  go; try apply contar_polls; try apply laco_polls.
Qed.
End Polling.

Lemma capturar_polls amb msg : mantem sempre qualquer emEspera (capturar amb msg).
Proof.
  unfold capturar. emits_unfold.
  repeat first [mantem_step | done | by intros ? ? ?].
Qed.

(** X14.  A run that was let in (isRunning was false) and that resolves or
    rejects ends with isRunning false, the pause flag and the processing flag
    cleared, and the snapshot published by the finally block as its last
    event.  The bounded model stops following a run only inside the wait of a
    pause, in a state that is paused and not told to stop. *)
Theorem run_ends_with_flags_cleared (amb : Ambiente) (fuel : nat)
    (rs : list PolicyRecord.t) (fileName : string) (startIndex : nat)
    (w : World) :
  AutomacaoService.isRunning (automacao w) = false →
  let run := processarRegistros amb fuel rs fileName startIndex w in
  match run.1.2 with
  | Blocked =>
      StatusService.isPaused (statusService run.2) = true
      ∧ AutomacaoService.isRunning (automacao run.2) = true
  | _ =>
      AutomacaoService.isRunning (automacao run.2) = false
      ∧ StatusService.isPaused (statusService run.2) = false
      ∧ ProcessStatus.isProcessing
          (StatusService.getStatus (statusService run.2)) = false
      ∧ last run.1.1
        = Some (SFinally,
                EmitStatus (StatusService.getStatus (statusService run.2)))
  end.
Proof.
  intros Hr.
  destruct (protegido amb fuel fileName startIndex (entrada rs startIndex w))
    as [[t r] w4] eqn:E.
  destruct (processarRegistros_eq _ _ _ _ _ _ _ _ _ Hr E)
    as (s1 & s2 & s3 & E').
  cbv zeta. rewrite E'. cbn [fst snd].
  unfold protegido, tryFinally in E.
  assert (mantem sempre qualquer emEspera
            (tryCatch (corpo amb fuel fileName startIndex) (capturar amb)))
    as H.
  { apply mantem_tryCatch; [apply _|apply corpo_polls|].
    intros msg. apply capturar_polls. }
  destruct (H (entrada rs startIndex w) I) as [_ Hb].
  destruct (tryCatch _ _ _) as [[t1 r1] w1]. simpl in Hb.
  destruct r1 as [[]|msg|]; simplify_eq/=; [| |done].
  all: split_and!; try done.
  all: by rewrite !app_comm_cons, last_snoc.
Qed.

Section LoginFails.
Variable amb : Ambiente.
Variable rs : list PolicyRecord.t.
Variable msg : string.
Hypothesis Hlogin : erroDeLogin (initBrowserLogin amb) = Some msg.

Lemma semNavegador_estavel : estavel amb (semNavegador rs).
Proof. apply estavel_intro; (try by intros w ? H); by intros w [??]. Qed.

Lemma comRegistros_estavel : estavel amb (comRegistros rs).
Proof. apply estavel_intro; by intros w. Qed.

Ltac go :=
  emits_unfold;
  repeat first [mantem_step | reflexivity | exact semNavegador_estavel
               | exact comRegistros_estavel
               | exact (discreto_controle _ _ semTentativa_controle)
               | by intros ? ? ? | by intros ? ?].

(** The session block rejects only when the store rejects its call. *)
Lemma sessao_outcome fileName startIndex w :
  ∃ t o w',
    sessao amb fileName startIndex w = (t, o, w')
    ∧ (o = Ok tt
       ∨ ∃ m, o = Threw m
              ∧ AutomacaoService.databaseService (automacao w) = true
              ∧ dbRejects amb (dbCalls w) = Some m).
Proof.
  unfold sessao. unfold bind at 1, gets at 1. cbv beta iota.
  destruct (AutomacaoService.databaseService (automacao w));
    [|by eexists _, _, _; split; [|left]].
  destruct (dbRejects amb (dbCalls w)) as [m|] eqn:Hrej;
    (destruct (AutomacaoService.sessionId (automacao w)) as [[|n]|];
     cbv beta iota zeta;
     [unfold bind at 1, modify at 1; cbv beta iota; unfold bind at 1
     |
     |unfold bind at 1, modify at 1; cbv beta iota; unfold bind at 1]).
  all: match goal with
       | |- context [await amb SSessao 0 ?m ?w'] =>
           edestruct (await_eq amb SSessao 0 m w') as (t2 & w2 & E & _);
             [unfold createSession, updateSessionProgress, bind, gets, dbCall;
              simpl; rewrite Hrej; reflexivity|]
       end.
  all: rewrite E; unfold bind, modify, addLog, emit.
  all: eexists _, _, _; split; [reflexivity|]; eauto 10.
Qed.

Lemma sessao_semNavegador fileName startIndex :
  mantem (semNavegador rs) semTentativa nunca (sessao amb fileName startIndex).
Proof. unfold sessao. go. Qed.

(** With no browser and a login that fails, [initialize] rejects. *)
Lemma initialize_fails w :
  AutomacaoService.browser (automacao w) = false →
  ∃ t w', initialize amb w = (t, Threw msg, w')
          ∧ attempts t = [] ∧ records w' = records w.
Proof.
  intros Hb. unfold initialize.
  unfold bind at 1, gets at 1. cbv beta iota.
  unfold bind at 1, gets at 1. cbv beta iota.
  rewrite Hb. cbn [negb orb].
  destruct (initBrowserLogin amb) as [m|m| |] eqn:E; simplify_eq/=.
  - edestruct (await_eq (A:=unit) amb SLogin 0
                 (emit SLogin InitBrowser ;;; throw msg) w)
      as (t2 & w2 & E2 & Hd & _ & Hr); [reflexivity|].
    rewrite E2. eexists _, _. split; [reflexivity|].
    by rewrite attempts_app, (attempts_deControle _ Hd).
  - unfold bind at 1.
    edestruct (await_eq amb SLogin 0 (emit SLogin InitBrowser) w)
      as (t2 & w2 & E2 & Hd & _ & Hr); [reflexivity|].
    rewrite E2. unfold bind at 1, modify at 1. cbv beta iota.
    unfold bind at 1.
    edestruct (await_eq (A:=unit) amb SLogin 1
                 (throw ("Falha no login: " +:+ m))
                 (with_automacao (AutomacaoService.set_browser true) w2))
      as (t3 & w3 & E3 & Hd3 & _ & Hr3); [reflexivity|].
    rewrite E3. eexists _, _. split; [reflexivity|].
    rewrite !attempts_app, (attempts_deControle _ Hd),
      (attempts_deControle _ Hd3). split; [done|]. by rewrite Hr3.
  - unfold bind at 1.
    edestruct (await_eq amb SLogin 0 (emit SLogin InitBrowser) w)
      as (t2 & w2 & E2 & Hd & _ & Hr); [reflexivity|].
    rewrite E2. unfold bind at 1, modify at 1. cbv beta iota.
    unfold bind at 1.
    edestruct (await_eq amb SLogin 1 (ret tt)
                 (with_automacao (AutomacaoService.set_browser true) w2))
      as (t3 & w3 & E3 & Hd3 & _ & Hr3); [reflexivity|].
    rewrite E3. eexists _, _. split; [reflexivity|].
    rewrite !attempts_app, (attempts_deControle _ Hd),
      (attempts_deControle _ Hd3). split; [done|]. by rewrite Hr3.
Qed.

Lemma capturar_comRegistros m :
  mantem (comRegistros rs) semTentativa nunca (capturar amb m).
Proof. unfold capturar. go. Qed.

Lemma corpo_login_fails fuel fileName startIndex w :
  semNavegador rs w →
  ∃ t m w',
    corpo amb fuel fileName startIndex w = (t, Threw m, w')
    ∧ attempts t = [] ∧ records w' = rs
    ∧ (m = msg
       ∨ AutomacaoService.databaseService (automacao w) = true
         ∧ dbRejects amb (dbCalls w) = Some m).
Proof.
  intros Hw.
  destruct (sessao_outcome fileName startIndex w) as (t & o & w1 & E & Ho).
  destruct (sessao_semNavegador fileName startIndex w Hw) as [Ht Hi].
  rewrite E in Ht, Hi. simpl in Ht, Hi.
  unfold corpo, bind at 1. rewrite E.
  destruct Ho as [->|(m & -> & Hm)].
  - destruct Hi as [Hb Hr].
    destruct (initialize_fails w1 Hb) as (t2 & w2 & E2 & Ht2 & Hr2).
    unfold bind at 1. rewrite E2.
    eexists _, _, _. split; [reflexivity|].
    split_and!; [|congruence|by left].
    by rewrite attempts_app, Ht, Ht2.
  - destruct Hi as [Hb Hr]. eexists _, _, _. split; [reflexivity|]. eauto.
Qed.
End LoginFails.


(** ** The wait of a paused run *)

Lemma esperar_now amb fuel i n w :
  StatusService.isPaused (statusService w)
  && AutomacaoService.isRunning (automacao w) = false →
  esperar amb fuel i n w = ([], Ok tt, w).
Proof.
  intros H. destruct fuel; simpl; unfold bind, gets; simpl; by rewrite H.
Qed.

Lemma esperar_poll amb fuel i n w :
  StatusService.isPaused (statusService w)
  && AutomacaoService.isRunning (automacao w) = true →
  ∃ t1 w1,
    entregar amb (comandos amb (SEspera i) n) w = (t1, Ok tt, w1)
    ∧ Forall deControle t1 ∧ records w1 = records w
    ∧ ∀ t2 r w2, esperar amb fuel i (S n) w1 = (t2, r, w2) →
        esperar amb (S fuel) i n w = (t1 ++ t2, r, w2).
Proof.
  intros H.
  destruct (entregar_ok amb (comandos amb (SEspera i) n) w)
    as (t1 & w1 & E1 & Hd & _ & Hr).
  exists t1, w1. split_and!; [done..|]. intros t2 r w2 E2.
  cbn [esperar]. unfold bind at 1, gets at 1. cbv beta iota.
  unfold bind at 1, gets at 1. cbv beta iota. rewrite H.
  unfold sleep, await, bind, ret. by rewrite E1, E2.
Qed.

(** X18.  The wait of a paused run returns only in a state in which the pause
    flag is cleared or isRunning is false, and never rejects; while it lasts
    the loop itself emits nothing and calls no actor: every event is made by a
    route call.  It returns at once, with no event, when that state already
    holds, and after the first poll when the route calls that arrive during it
    bring it about; when the fuel of the model runs out it is still paused and
    not told to stop. *)
Theorem pause_wait_ends_on_resume_or_stop (amb : Ambiente) (fuel i n : nat)
    (w : World) :
  let wait := esperar amb fuel i n w in
  let polling w :=
    StatusService.isPaused (statusService w)
    && AutomacaoService.isRunning (automacao w) in
  Forall deControle wait.1.1
  ∧ match wait.1.2 with
    | Ok _ => polling wait.2 = false
    | Threw _ => False
    | Blocked => polling wait.2 = true
    end
  ∧ (polling w = false → wait = ([], Ok tt, w))
  ∧ (0 < fuel →
     polling (entregar amb (comandos amb (SEspera i) n) w).2 = false →
     wait.1.2 = Ok tt).
Proof.
  cbv zeta. revert n w. induction fuel as [|fuel IH]; intros n w.
  - destruct (StatusService.isPaused (statusService w)
              && AutomacaoService.isRunning (automacao w)) eqn:H.
    + assert (esperar amb 0 i n w = ([], Blocked, w)) as ->.
      { simpl. unfold bind, gets. simpl. by rewrite H. }
      simpl. split_and!; [done..|lia].
    + rewrite (esperar_now amb 0 i n w H). simpl. split_and!; [done..|lia].
  - destruct (StatusService.isPaused (statusService w)
              && AutomacaoService.isRunning (automacao w)) eqn:H.
    + destruct (esperar_poll amb fuel i n w H)
        as (t1 & w1 & E1 & Hd & Hr & E).
      destruct (IH (S n) w1) as (Hd2 & Ho2 & Hnow & _).
      destruct (esperar amb fuel i (S n) w1) as [[t2 r2] w2] eqn:E2.
      rewrite (E _ _ _ eq_refl), E1. simpl in *.
      split_and!; [by apply Forall_app|done|done|].
      intros _ Hclear. specialize (Hnow Hclear). by simplify_eq.
    + rewrite (esperar_now amb (S fuel) i n w H). simpl.
      by split_and!.
Qed.

(** ** The order of the attempts *)

Lemma emOrdem_weaken rs lo lo' t :
  lo' ≤ lo → emOrdem rs lo t → emOrdem rs lo' t.
Proof.
  revert lo lo'. induction t as [|[s e] t IH]; intros lo lo' Hle; [done|].
  simpl. destruct e; eauto.
  intros (i & ? & ? & ? & ?). exists i. split_and!; [done|lia|done|done].
Qed.

Lemma emOrdem_app_l rs i t1 t2 :
  Forall (tentativaDe rs i) t1 → emOrdem rs i t2 → emOrdem rs i (t1 ++ t2).
Proof.
  induction 1 as [|[s e] t1 He _ IH]; intros H2; [done|].
  simpl. unfold tentativaDe in He. simpl in He. destruct e; auto.
  destruct He as [-> Hp]. exists i. auto.
Qed.

Lemma emOrdem_Forall rs i t :
  Forall (tentativaDe rs i) t → emOrdem rs i t.
Proof.
  intros H. rewrite <- (app_nil_r t). by apply emOrdem_app_l.
Qed.

Lemma emOrdem_app_r rs t2 : ∀ t1 lo,
  emOrdem rs lo t1 → attempts t2 = [] → emOrdem rs lo (t1 ++ t2).
Proof.
  intros t1 lo H1 H2. revert lo H1.
  induction t1 as [|[s e] t1 IH]; intros lo H1.
  - simpl. clear H1. revert lo.
    induction t2 as [|[s e] t2 IH]; intros lo; [done|].
    simpl. destruct e; try (apply IH; exact H2). done.
  - simpl in *. destruct e; auto.
    destruct H1 as (i & ? & ? & ? & ?). exists i. auto.
Qed.

Lemma tentativaDe_semTentativa rs i t :
  attempts t = [] → Forall (tentativaDe rs i) t.
Proof.
  induction t as [|[s e] t IH]; intros H; [done|].
  destruct e; simpl in H; try done; constructor; try done; by apply IH.
Qed.

Lemma tentativaDe_controle rs i t :
  Forall deControle t → Forall (tentativaDe rs i) t.
Proof. intros H. by apply tentativaDe_semTentativa, attempts_deControle. Qed.

Lemma emOrdem_attempted rs t : ∀ lo,
  emOrdem rs lo t →
  Forall (λ a, a ∈ PolicyRecord.apolice <$> drop lo rs) (attempted t).
Proof.
  assert (∀ lo i a, lo ≤ i →
            a ∈ PolicyRecord.apolice <$> drop i rs →
            a ∈ PolicyRecord.apolice <$> drop lo rs) as Hmono.
  { intros lo i a Hle. rewrite !list_elem_of_fmap.
    intros (r & -> & Hr). exists r. split; [done|].
    apply list_elem_of_lookup in Hr as [j Hj]. rewrite lookup_drop in Hj.
    apply list_elem_of_lookup. exists (i + j - lo). rewrite lookup_drop.
    rewrite <- Hj. f_equal. lia. }
  induction t as [|[s e] t IH]; intros lo H; [constructor|].
  unfold attempted in *. simpl in *.
  destruct e; try (by apply IH).
  destruct H as (i & _ & Hle & Hp & Ht). simpl. constructor.
  - destruct (rs !! i) as [r'|] eqn:Hi; simplify_eq/=.
    apply list_elem_of_fmap. exists r'. split; [done|].
    apply list_elem_of_lookup. exists (i - lo). rewrite lookup_drop.
    rewrite <- Hi. f_equal. lia.
  - eapply Forall_impl; [apply IH, Ht|]. intros a. by apply Hmono.
Qed.

Section Ordem.
Variable amb : Ambiente.
Variable rs : list PolicyRecord.t.

Local Abbreviation Inv := (mesmaApolice rs).

Lemma mesmaApolice_estavel : estavel amb Inv.
Proof. apply estavel_intro; by intros. Qed.

Lemma setRecord_mesmaApolice T `{!Closed T} i st obs :
  mantem Inv T Inv (setRecord i st obs).
Proof.
  intros w Hw. unfold setRecord, recordAt, bind, gets, modify, throw, ret.
  destruct (records w !! i) as [r|] eqn:Hr; simpl;
    (split; [apply closed_nil|]); [|done].
  unfold mesmaApolice in *. cbn [records with_records].
  rewrite list_fmap_insert, <- Hw. apply list_insert_id.
  rewrite list_lookup_fmap, Hr. by destruct obs, r.
Qed.

Lemma bind_recordAt {A} i (k : PolicyRecord.t → M A) w r :
  records w !! i = Some r → bind (recordAt i) k w = k r w.
Proof.
  intros Hr. unfold recordAt. unfold bind, gets, ret. rewrite Hr.
  by destruct (k r w) as [[t o] w'].
Qed.

Lemma bind_recordAt_None {A} i (k : PolicyRecord.t → M A) w :
  records w !! i = None →
  bind (recordAt i) k w = ([], Threw typeErrorStatus, w).
Proof.
  intros Hr. unfold recordAt. unfold bind, gets, throw. by rewrite Hr.
Qed.

Lemma mantem_recordAt_bind {A} (T : list LEvent → Prop) i
    (k : PolicyRecord.t → M A) :
  (∀ r, PolicyRecord.apolice <$> rs !! i = Some (PolicyRecord.apolice r) →
        mantem Inv T Inv (k r)) →
  T [] → mantem Inv T Inv (bind (recordAt i) k).
Proof.
  intros Hk Hnil w Hw. destruct (records w !! i) as [r|] eqn:Hr.
  - rewrite (bind_recordAt i k w r Hr). apply Hk; [|done].
    rewrite <- list_lookup_fmap, <- Hw, list_lookup_fmap. by rewrite Hr.
  - rewrite (bind_recordAt_None i k w Hr). by split.
Qed.

Section Sitio.
Variable i : nat.

Local Abbreviation Tr := (Forall (tentativaDe rs i)).

Ltac side :=
  first [ exact mesmaApolice_estavel
        | exact (discreto_controle _ _ (tentativaDe_controle rs i))
        | by intros ? ? ? | by intros ? ?
        | by constructor ].

Ltac go :=
  unfold updateSessionProgress, finishSession, saveRecords, createSession,
    activeSession, sleep, recordAt;
  repeat first [ apply setRecord_mesmaApolice; typeclasses eauto
               | mantem_step | side ].

Lemma esperar_ordem fuel j : ∀ k, mantem Inv Tr Inv (esperar amb fuel j k).
Proof.
  induction fuel as [|fuel IH]; intros k.
  - intros w Hw. simpl. unfold bind, gets. simpl.
    by destruct (_ && _).
  - simpl. go. apply IH.
Qed.

Lemma pausado_ordem fuel j c e : mantem Inv Tr Inv (pausado amb fuel j c e).
Proof. unfold pausado. go. apply esperar_ordem. Qed.

Lemma antes_ordem j c e : mantem Inv Tr Inv (antes amb j c e).
Proof. unfold antes. go. Qed.

Lemma depois_ordem j c e : mantem Inv Tr Inv (depois amb j c e).
Proof. unfold depois, atualizarProgresso, salvarProgresso. go. Qed.

Lemma tentativas_ordem record maxRetries n :
  PolicyRecord.apolice <$> rs !! i = Some (PolicyRecord.apolice record) →
  ∀ attempt lastError,
    mantem Inv Tr Inv
      (tentativas amb (STentativa i) record maxRetries n attempt lastError).
Proof.
  intros Hp. induction n as [|n IH]; intros attempt lastError; simpl;
    unfold tentar, aposErro; go; try apply IH.
  all: by constructor.
Qed.

Lemma processar_ordem c e : mantem Inv Tr Inv (processar amb i c e).
Proof.
  unfold processar. apply mantem_bind; [apply _|go|intros p].
  destruct p; [|go].
  apply mantem_recordAt_bind; [|constructor]. intros record Hp.
  unfold processarRegistro. go. by apply tentativas_ordem.
Qed.
End Sitio.

(** A step that stays at record [i], then steps in order from [i] on. *)
Lemma mantem_bind_ordem {A A'} i (m : M A) (k : A → M A') :
  mantem Inv (Forall (tentativaDe rs i)) Inv m →
  (∀ a, mantem Inv (emOrdem rs i) Inv (k a)) →
  mantem Inv (emOrdem rs i) Inv (bind m k).
Proof.
  intros Hm Hk. eapply triple_bind; [exact Hm|exact Hk|done..| |].
  - apply emOrdem_Forall.
  - apply emOrdem_app_l.
Qed.

(** Steps in order, then a step that does not call the actor. *)
Lemma mantem_ordem_bind {A A'} lo (m : M A) (k : A → M A') :
  mantem Inv (emOrdem rs lo) Inv m →
  (∀ a, mantem Inv semTentativa Inv (k a)) →
  mantem Inv (emOrdem rs lo) Inv (bind m k).
Proof.
  intros Hm Hk. eapply triple_bind; [exact Hm|exact Hk|done..|].
  intros t1 t2. apply emOrdem_app_r.
Qed.

Lemma laco_ordem fuel n : ∀ i c e,
  mantem Inv (emOrdem rs i) Inv (laco amb fuel n i c e).
Proof.
  induction n as [|n IH]; intros i c e; cbn [laco]; [by intros w Hw|].
  apply mantem_bind_ordem; [apply mantem_gets; apply _|intros p].
  apply mantem_bind_ordem.
  { destruct p; [apply pausado_ordem|apply mantem_ret; apply _]. }
  intros continua. destruct (negb continua); [by intros w Hw|].
  apply mantem_bind_ordem; [apply mantem_gets; apply _|intros r].
  destruct (negb r); [by intros w Hw|].
  apply mantem_bind_ordem; [apply antes_ordem|intros _].
  apply mantem_bind_ordem; [apply processar_ordem|intros ce].
  apply mantem_bind_ordem; [apply depois_ordem|intros _].
  eapply triple_conseq; [apply IH|done| |done].
  intros t. apply emOrdem_weaken. lia.
Qed.

Ltac quiet :=
  unfold updateSessionProgress, finishSession, saveRecords, createSession,
    activeSession, sleep, recordAt;
  repeat first [ mantem_step
               | exact mesmaApolice_estavel
               | exact (discreto_controle _ _ (tentativaDe_controle rs _))
               | exact (discreto_controle _ _ semTentativa_controle)
               | by intros ? ? ? | by intros ? ?
               | by constructor ].

Lemma contar_ordem T `{!Closed T} n : ∀ i c e,
  mantem Inv T Inv (contar n i c e).
Proof.
  induction n as [|n IH]; intros i c e; simpl; quiet. apply IH.
Qed.

Lemma corpo_ordem fuel fileName startIndex :
  mantem Inv (emOrdem rs startIndex) Inv (corpo amb fuel fileName startIndex).
Proof.
  unfold corpo.
  apply mantem_bind_ordem; [unfold sessao; quiet|intros _].
  apply mantem_bind_ordem; [unfold initialize; quiet|intros _].
  apply mantem_bind_ordem; [apply contar_ordem; apply _|intros ce].
  apply mantem_bind_ordem; [apply mantem_gets; apply _|intros n].
  apply mantem_ordem_bind; [apply laco_ordem|intros _].
  unfold fim. quiet.
Qed.
End Ordem.

Lemma emOrdem_protegido amb rs fuel fileName startIndex w :
  mesmaApolice rs w →
  emOrdem rs startIndex (protegido amb fuel fileName startIndex w).1.1.
Proof.
  intros Hw. destruct (corpo_ordem amb rs fuel fileName startIndex w Hw)
    as [Ht _].
  unfold protegido, tryFinally, tryCatch.
  destruct (corpo amb fuel fileName startIndex w) as [[t1 r1] w1].
  simpl in Ht. destruct r1 as [[]|msg1|]; [| |done].
  - destruct (finalmente_spec w1) as (s & w' & ->). simpl.
    by apply emOrdem_app_r.
  - destruct (capturar_spec amb msg1 w1) as (t2 & w2 & -> & H2).
    destruct (finalmente_spec w2) as (s & w' & ->). simpl.
    apply emOrdem_app_r; [|done]. apply emOrdem_app_r; [done|].
    rewrite attempts_app. simpl. rewrite app_nil_r.
    induction H2 as [|x t2 [_ Hx] _ IH]; [done|].
    change (x :: t2) with ([x] ++ t2). by rewrite attempts_app, Hx.
Qed.

(** X16.  In every run, whatever the environment does, every call of the actor
    is made while some record i is processed and is for the policy at position
    i of the list handed to processarRegistros; the positions are visited in
    non-decreasing order from startIndex on, never an earlier record and never
    going back, so that every policy handed to the actor is one of the records
    from startIndex on. *)
Theorem attempts_follow_the_list (amb : Ambiente) (fuel : nat)
    (rs : list PolicyRecord.t) (fileName : string) (startIndex : nat)
    (w : World) :
  let run := processarRegistros amb fuel rs fileName startIndex w in
  emOrdem rs startIndex run.1.1
  ∧ Forall (λ a, a ∈ PolicyRecord.apolice <$> drop startIndex rs)
      (attempted run.1.1).
Proof.
  cbv zeta.
  assert (emOrdem rs startIndex
            (processarRegistros amb fuel rs fileName startIndex w).1.1) as H.
  { destruct (AutomacaoService.isRunning (automacao w)) eqn:Hr.
    - unfold processarRegistros, bind, gets. by rewrite Hr.
    - pose proof (emOrdem_protegido amb rs fuel fileName startIndex
                    (entrada rs startIndex w) eq_refl) as Hp.
      destruct (protegido _ _ _ _ _) as [[t r] w4] eqn:E.
      destruct (processarRegistros_eq _ _ _ _ _ _ _ _ _ Hr E)
        as (s1 & s2 & s3 & ->).
      exact Hp. }
  split; [exact H|]. by apply emOrdem_attempted.
Qed.

(** ** The retry loop as a function of the actor *)

Lemma tentativas_desfecho amb site record maxRetries n :
  ∀ attempt lastError w,
  ∃ t w',
    tentativas amb site record maxRetries n attempt lastError w
    = (t, Ok (desfecho (cancelarApolice amb) n (actorCalls w) lastError).1,
       w')
    ∧ actorCalls w'
      = actorCalls w
        + (desfecho (cancelarApolice amb) n (actorCalls w) lastError).2.
Proof.
  induction n as [|n IH]; intros attempt lastError w.
  - exists [], w. split; [done|]. simpl. lia.
  - destruct (tentar_spec amb site record maxRetries attempt w)
      as (t1 & w1 & E1 & _ & Ha1 & _).
    assert (∀ msg,
      ∃ t w',
        aposErro amb site record maxRetries attempt msg
          (tentativas amb site record maxRetries n (attempt + 1)%Z (Some msg))
          w1
        = (t, Ok (desfecho (cancelarApolice amb) n (S (actorCalls w))
                    (Some msg)).1, w')
        ∧ actorCalls w'
          = S (actorCalls w)
            + (desfecho (cancelarApolice amb) n (S (actorCalls w))
                 (Some msg)).2) as Hfail.
    { intros msg.
      destruct (aposErro_spec amb site record maxRetries attempt msg
                  (tentativas amb site record maxRetries n (attempt + 1)%Z
                     (Some msg)) w1)
        as (t2 & w2 & _ & Ha2 & _ & E2).
      destruct (IH (attempt + 1)%Z (Some msg) w2) as (t3 & w3 & E3 & Ha3).
      rewrite Ha2, Ha1 in E3, Ha3.
      exists (t2 ++ t3), w3. split; [by apply E2|done]. }
    cbn [tentativas desfecho]. unfold bind at 1. rewrite E1.
    destruct (cancelarApolice amb (actorCalls w)) as [res|msg].
    + destruct (AutomationResult.success res).
      * eexists _, _. split.
        -- unfold bind, addLog, modify, emit, ret. reflexivity.
        -- simpl. lia.
      * destruct (Hfail (AutomationResult.message res))
          as (t & w' & E & Ha).
        rewrite E. eexists _, _. split; [reflexivity|]. simpl. lia.
    + destruct (Hfail msg) as (t & w' & E & Ha).
      rewrite E. eexists _, _. split; [reflexivity|]. simpl. lia.
Qed.

(** ** A run without interference *)

Lemma progressWrites_app t1 t2 :
  progressWrites (t1 ++ t2) = progressWrites t1 ++ progressWrites t2.
Proof. apply omap_app. Qed.

#[global] Instance semEscrita_Closed : Closed semEscrita.
Proof.
  split; [done|]. unfold semEscrita. intros t1 t2 H1 H2.
  by rewrite progressWrites_app, H1, H2.
Qed.

Lemma storedAs_updateSession sid sid' f old db :
  storedAs sid old db → storedAs sid old (DatabaseService.updateSession sid' f db).
Proof. done. Qed.

Lemma storedAs_saveRecords_same sid rs db :
  (∃ old, storedAs sid old db ∧ length old = length rs) →
  storedAs sid rs (DatabaseService.saveRecords sid rs db).
Proof.
  intros (old & Hold & Hlen). destruct old as [|o old].
  - by apply storedAs_saveRecords_new.
  - pose proof (storedAs_saveRecords_old sid (o :: old) rs db Hold) as H.
    rewrite Hlen, firstn_all, drop_ge, app_nil_r in H by lia.
    by apply H.
Qed.

Lemma getSession_saveRecords sid sid' rs db :
  DatabaseService.getSession sid' (DatabaseService.saveRecords sid rs db)
  = DatabaseService.getSession sid' db.
Proof. unfold DatabaseService.getSession. by rewrite saveRecords_sessions. Qed.

Lemma guardado_saveRecords sid name rs db :
  guardado sid name (length rs) db →
  guardado sid name (length rs) (DatabaseService.saveRecords sid rs db).
Proof.
  intros [Hold (p & c & e & Hs)]. split.
  - exists rs. split; [by apply storedAs_saveRecords_same|done].
  - exists p, c, e. by rewrite getSession_saveRecords.
Qed.

Lemma getSession_updateSessionProgress sid name n p c e p' c' e' db :
  DatabaseService.getSession sid db
  = Some (ExecutionSession.mk sid name false ExecutionSession.running
            n p' c' e') →
  DatabaseService.getSession sid
    (DatabaseService.updateSessionProgress sid p c e None db)
  = Some (ExecutionSession.mk sid name false ExecutionSession.running
            n p c e).
Proof.
  intros Hs. unfold DatabaseService.updateSessionProgress.
  rewrite getSession_updateSession by done.
  rewrite decide_True by done. by rewrite Hs.
Qed.

Lemma guardado_updateSessionProgress sid name n p c e db :
  guardado sid name n db →
  guardado sid name n
    (DatabaseService.updateSessionProgress sid p c e None db).
Proof.
  intros [(old & Hold & Hlen) (p' & c' & e' & Hs)].
  split; [by exists old|]. exists p, c, e.
  by eapply getSession_updateSessionProgress.
Qed.

Lemma registrado_set_status result st r :
  registrado result (PolicyRecord.set_status st r) = registrado result r.
Proof. by destruct r. Qed.

Lemma registrado_cancelado result r :
  PolicyRecord.status (registrado result r) = cancelado
  ↔ AutomationResult.success result = true.
Proof.
  unfold registrado. destruct r, (AutomationResult.success result); simpl;
    by split.
Qed.

(** The records that ended "cancelado" are those whose result is a
    success. *)
Lemma cancelados_resultados res rs : ∀ finais k,
  length finais = length rs →
  (∀ i r, rs !! i = Some r → finais !! i = Some (registrado (res (k + i)) r)) →
  length (filter (λ r, PolicyRecord.status r = cancelado) finais)
  = length (filter (λ i, AutomationResult.success (res i) = true)
              (seq k (length rs))).
Proof.
  induction rs as [|r rs IH]; intros [|f finais] k Hlen H; try done.
  pose proof (H 0 r eq_refl) as H0. rewrite Nat.add_0_r in H0.
  simpl in H0. injection H0 as ->.
  cbn [length seq]. rewrite !filter_cons.
  assert (length (filter (λ r, PolicyRecord.status r = cancelado) finais)
          = length (filter (λ i, AutomationResult.success (res i) = true)
                      (seq (S k) (length rs)))) as E.
  { apply IH; [by injection Hlen|]. intros i r' Hr'.
    replace (S k + i) with (k + S i) by lia. by apply (H (S i)). }
  destruct (decide (AutomationResult.success (res k) = true)) as [Hs|Hs].
  - rewrite decide_True by by apply registrado_cancelado.
    simpl. by rewrite E.
  - rewrite decide_False by by rewrite registrado_cancelado.
    done.
Qed.

Ltac calmo Hc Hd :=
  repeat first
    [ progress cbv beta iota
    | progress cbn [entregar automacao statusService database records
                    dbCalls actorCalls with_status with_records
                    with_automacao]
    | rewrite Hd
    | rewrite Hc
    | progress unfold ret ].

Section Quiet.
Variable amb : Ambiente.
Hypothesis Hq : sossegado amb.
Variable a0 : AutomacaoService.t.
Variable sid : nat.
Variable name : string.
Variable n : nat.
Hypothesis Hrun : AutomacaoService.isRunning a0 = true.
Hypothesis Hpage : AutomacaoService.page a0 = true.
Hypothesis Hact : AutomacaoService.activeSession a0 = Some sid.

Lemma antes_quiet i c e w r :
  emCurso a0 sid name n w → records w !! i = Some r →
  ∃ t w',
    antes amb i c e w = (t, Ok tt, w')
    ∧ emCurso a0 sid name n w'
    ∧ records w' = <[i := PolicyRecord.set_status processando r]> (records w)
    ∧ progressWrites t = [(i, c, e)]
    ∧ attempts t = []
    ∧ actorCalls w' = actorCalls w.
Proof.
  destruct Hq as (Hc & Hd & Hl). intros (Ha & Hp & Hn & Hg) Hr.
  unfold antes, setRecord, recordAt, publish, activeSession, saveRecords,
    updateSessionProgress, await, dbCall.
  cbv beta iota zeta delta [bind gets modify emit ret].
  rewrite Hr. cbv beta iota.
  cbn [automacao with_status with_records]. rewrite Ha, Hact.
  calmo Hc Hd.
  eexists _, _. split; [reflexivity|].
  split_and!; try done.
  unfold emCurso. cbn [automacao statusService database records].
  split_and!; [done|done|by rewrite length_insert|].
  apply guardado_updateSessionProgress.
  rewrite <- Hn, <- (length_insert (records w) i
                       (PolicyRecord.set_status processando r)).
  apply guardado_saveRecords. by rewrite length_insert, Hn.
Qed.

Lemma depois_quiet i c e w :
  emCurso a0 sid name n w →
  ∃ t w',
    depois amb i c e w = (t, Ok tt, w')
    ∧ emCurso a0 sid name n w'
    ∧ records w' = records w
    ∧ DatabaseService.getSession sid (database w')
      = Some (ExecutionSession.mk sid name false ExecutionSession.running
                n (i + 1) c e)
    ∧ progressWrites t = [(i + 1, c, e)]
    ∧ attempts t = []
    ∧ actorCalls w' = actorCalls w.
Proof.
  destruct Hq as (Hc & Hd & Hl). intros (Ha & Hp & Hn & Hg).
  unfold depois, atualizarProgresso, salvarProgresso, publish, activeSession,
    saveRecords, updateSessionProgress, await, dbCall.
  cbv beta iota zeta delta [bind gets modify emit ret].
  cbn [automacao with_status with_records]. rewrite Ha, Hact.
  calmo Hc Hd.
  eexists _, _. split; [reflexivity|].
  assert (guardado sid name n
            (DatabaseService.saveRecords sid (records w) (database w)))
    as Hg'.
  { rewrite <- Hn. apply guardado_saveRecords. by rewrite Hn. }
  split_and!; try done.
  - unfold emCurso. cbn [automacao statusService database records].
    split_and!; [done|done|done|].
    by apply guardado_updateSessionProgress.
  - destruct Hg' as [_ (p' & c' & e' & Hs)].
    by eapply getSession_updateSessionProgress.
Qed.

Ltac go :=
  emits_unfold;
  repeat first [mantem_step | reflexivity
               | exact (estavel_sossegado _ _ Hq)
               | by apply (discreto_sossegado _ _ Hq)
               | by intros ? ? ? | by intros ? ?].

Lemma tentativas_emCurso site record maxRetries k :
  ∀ attempt lastError,
    mantem (emCurso a0 sid name n) semEscrita nunca
      (tentativas amb site record maxRetries k attempt lastError).
Proof.
  induction k as [|k IH]; intros attempt lastError; simpl;
    unfold tentar, aposErro; go; apply IH.
Qed.

Lemma processar_quiet i c e w record :
  emCurso a0 sid name n w → records w !! i = Some record →
  ∃ t result w',
    processar amb i c e w
    = (t, Ok (if AutomationResult.success result then (S c, e) else (c, S e)),
       w')
    ∧ emCurso a0 sid name n w'
    ∧ records w' = <[i := registrado result record]> (records w)
    ∧ progressWrites t = []
    ∧ actorCalls w' = actorCalls w + length (attempts t)
    ∧ (result, length (attempts t))
      = desfecho (cancelarApolice amb)
          (Z.to_nat (AutomacaoService.maxRetries a0)) (actorCalls w) None.
Proof.
  intros Hw Hr.
  destruct (tentativas_desfecho amb (STentativa i) record
              (AutomacaoService.maxRetries (automacao w))
              (Z.to_nat (AutomacaoService.maxRetries (automacao w)))
              1%Z None w) as (t' & w1' & E' & Hac').
  destruct (tentativas_total amb (STentativa i) record
              (AutomacaoService.maxRetries (automacao w))
              (Z.to_nat (AutomacaoService.maxRetries (automacao w)))
              1%Z None w)
    as (k & t & result & w1 & E & Hk & Ht & Hac & Hrec & _).
  destruct (tentativas_emCurso (STentativa i) record
              (AutomacaoService.maxRetries (automacao w))
              (Z.to_nat (AutomacaoService.maxRetries (automacao w)))
              1%Z None w Hw) as [Hpw Hw1].
  rewrite E in Hpw, Hw1. simpl in Hpw, Hw1.
  exists t, result, (with_records (λ rs, <[i := registrado result record]> rs) w1).
  split_and!.
  - apply processar_eq; try done.
    destruct Hw as (Ha & _). by rewrite Ha.
  - destruct Hw1 as (Ha1 & Hp1 & Hn1 & Hg1).
    split_and!; [done|done| |done].
    cbn [records with_records]. by rewrite length_insert.
  - cbn [records with_records]. by rewrite Hrec.
  - done.
  - cbn [actorCalls with_records]. rewrite Hac, Ht, length_fmap, length_seq.
    done.
  - rewrite E in E'. injection E' as <- -> <-.
    destruct Hw as (<- & _). rewrite Ht, length_fmap, length_seq.
    rewrite Hac in Hac'.
    destruct (desfecho _ _ _ _) as [d1 d2]. simpl in *. f_equal. lia.
Qed.

Lemma processados_step rs res i c e w w' r result :
  length rs = n → i < n → rs !! i = Some r → length (records w) = n →
  res i = result →
  processados rs res sid name i c e w →
  records w' = <[i := registrado result r]> (records w) →
  let ce := if AutomationResult.success result then (S c, e) else (c, S e) in
  DatabaseService.getSession sid (database w')
  = Some (ExecutionSession.mk sid name false ExecutionSession.running
            n (i + 1) ce.1 ce.2) →
  processados rs res sid name (S i) ce.1 ce.2 w'.
Proof.
  intros Hlen Hi Hr Hn Hres (Hdone & Hrest & Hc & He & Hsum & _) Hrec ce Hs.
  assert (take (S i) (records w')
          = take i (records w) ++ [registrado result r]) as Htake.
  { rewrite Hrec. erewrite take_S_r
      by (apply list_lookup_insert_eq; lia).
    by rewrite take_insert_ge by lia. }
  unfold processados. rewrite Htake, !filter_app, !length_app, <- Hc, <- He.
  split_and!.
  - intros j r' Hj Hr'. rewrite Hrec.
    destruct (decide (j = i)) as [->|Hne].
    + rewrite Hres, list_lookup_insert_eq by lia. congruence.
    + rewrite list_lookup_insert_ne by done. apply Hdone; [lia|done].
  - intros j Hj. rewrite Hrec, list_lookup_insert_ne by lia.
    apply Hrest. lia.
  - subst ce. unfold registrado.
    destruct (AutomationResult.success result); simpl;
      rewrite ?filter_cons_True, ?filter_cons_False, ?filter_nil by done;
      simpl; lia.
  - subst ce. unfold registrado.
    destruct (AutomationResult.success result); simpl;
      rewrite ?filter_cons_True, ?filter_cons_False, ?filter_nil by done;
      simpl; lia.
  - subst ce. destruct (AutomationResult.success result); simpl; lia.
  - rewrite Hs, Hlen. do 2 f_equal. lia.
Qed.

Lemma laco_quiet fuel rs k0 :
  length rs = n →
  let res :=
    resultadoDe (cancelarApolice amb)
      (Z.to_nat (AutomacaoService.maxRetries a0)) k0 in
  ∀ m i c e w,
    i + m = n → emCurso a0 sid name n w →
    processados rs res sid name i c e w →
    actorCalls w
    = primeiraChamada (cancelarApolice amb)
        (Z.to_nat (AutomacaoService.maxRetries a0)) k0 i →
    ∃ t c' e' w',
      laco amb fuel m i c e w = (t, Ok tt, w')
      ∧ emCurso a0 sid name n w'
      ∧ processados rs res sid name n c' e' w'
      ∧ Forall equilibrado (progressWrites t)
      ∧ actorCalls w' = actorCalls w + length (attempts t).
Proof.
  intros Hlen res. induction m as [|m IH]; intros i c e w Him Hw Hproc Hk.
  - assert (i = n) as -> by lia. exists [], c, e, w.
    split_and!; [done|done|done|constructor|simpl; lia].
  - assert (is_Some (rs !! i)) as [r Hr].
    { apply lookup_lt_is_Some. lia. }
    pose proof Hw as (Ha & Hp & Hn & Hg).
    pose proof Hproc as (_ & Hrest & _ & _ & Hsum & _).
    assert (records w !! i = Some r) as Hri by (by rewrite Hrest).
    destruct (antes_quiet i c e w r Hw Hri)
      as (t1 & w1 & E1 & Hw1 & Hrec1 & Hpw1 & Hat1 & Hac1).
    destruct (processar_quiet i c e w1 (PolicyRecord.set_status processando r)
                Hw1)
      as (t2 & result & w2 & E2 & Hw2 & Hrec2 & Hpw2 & Hac2 & Hd).
    { rewrite Hrec1. apply list_lookup_insert_eq. lia. }
    rewrite Hac1, Hk in Hd.
    assert (res i = result) as Hres.
    { unfold res, resultadoDe. by rewrite <- Hd. }
    set (ce := if AutomationResult.success result then (S c, e) else (c, S e))
      in *.
    destruct (depois_quiet i ce.1 ce.2 w2 Hw2)
      as (t3 & w3 & E3 & Hw3 & Hrec3 & Hs3 & Hpw3 & Hat3 & Hac3).
    assert (processados rs res sid name (S i) ce.1 ce.2 w3) as Hproc3.
    { eapply (processados_step rs res i c e w w3 r result); try done; [lia|].
      rewrite Hrec3, Hrec2, Hrec1, list_insert_insert_eq.
      by rewrite registrado_set_status. }
    assert (actorCalls w3
            = primeiraChamada (cancelarApolice amb)
                (Z.to_nat (AutomacaoService.maxRetries a0)) k0 (S i)) as Hk3.
    { cbn [primeiraChamada]. rewrite <- Hd. cbn [snd].
      rewrite Hac3, Hac2, Hac1, Hk. done. }
    destruct (IH (S i) ce.1 ce.2 w3 ltac:(lia) Hw3 Hproc3 Hk3)
      as (t4 & c' & e' & w4 & E4 & Hw4 & Hproc4 & Hpw4 & Hac4).
    eexists _, c', e', w4. split_and!; [|done|done| |].
    + cbn [laco].
      eapply bind_eq; [reflexivity|]. rewrite Hp.
      eapply bind_eq; [reflexivity|]. cbn [negb].
      eapply bind_eq; [reflexivity|]. rewrite Ha, Hrun. cbn [negb].
      eapply bind_eq; [exact E1|].
      eapply bind_eq; [exact E2|].
      eapply bind_eq; [exact E3|exact E4].
    + rewrite !progressWrites_app, Hpw1, Hpw2, Hpw3. cbn [app progressWrites omap].
      constructor; [unfold equilibrado; simpl; lia|].
      constructor; [|done].
      unfold equilibrado. subst ce.
      destruct (AutomationResult.success result); simpl; lia.
    + rewrite !attempts_app, Hat1, Hat3, !length_app.
      change (attempts []) with (@nil (PolicyRecord.t * Z)).
      cbn [length]. lia.
Qed.

Lemma fim_quiet w :
  emCurso a0 sid name n w →
  ∃ t w',
    fim amb w = (t, Ok tt, w')
    ∧ automacao w' = a0
    ∧ records w' = records w
    ∧ database w'
      = DatabaseService.saveRecords sid (records w)
          (DatabaseService.finishSession sid ExecutionSession.completed
             (database w))
    ∧ progressWrites t = []
    ∧ attempts t = []
    ∧ actorCalls w' = actorCalls w.
Proof.
  destruct Hq as (Hc & Hd & Hl). intros (Ha & Hp & Hn & Hg).
  unfold fim, activeSession, saveRecords, finishSession, addLog, await, dbCall.
  cbv beta iota zeta delta [bind gets modify emit ret].
  rewrite Ha, Hact. calmo Hc Hd.
  eexists _, _. split; [reflexivity|]. by split_and!.
Qed.
End Quiet.

Section QuietRun.
Variable amb : Ambiente.
Hypothesis Hq : sossegado amb.

Lemma sessao_quiet fileName w :
  AutomacaoService.databaseService (automacao w) = true →
  AutomacaoService.sessionId (automacao w) = None →
  let name := if decide (fileName = "") then "execucao_.xlsx" else fileName in
  ∃ t w',
    sessao amb fileName 0 w = (t, Ok tt, w')
    ∧ automacao w'
      = AutomacaoService.set_sessionId (DatabaseService.nextId (database w))
          (AutomacaoService.set_currentFileName name (automacao w))
    ∧ StatusService.isPaused (statusService w')
      = StatusService.isPaused (statusService w)
    ∧ records w' = records w
    ∧ database w'
      = (DatabaseService.createSession name (records w) (database w)).2
    ∧ progressWrites t = []
    ∧ attempts t = []
    ∧ actorCalls w' = actorCalls w.
Proof.
  destruct Hq as (Hc & Hd & Hl). intros Hds Hsid name.
  unfold sessao, createSession, addLog, await, dbCall.
  cbv beta iota zeta delta [bind gets modify emit ret].
  rewrite Hds, Hsid. calmo Hc Hd.
  eexists _, _. split; [reflexivity|]. by split_and!.
Qed.

Lemma initialize_quiet w :
  ∃ t w',
    initialize amb w = (t, Ok tt, w')
    ∧ AutomacaoService.page (automacao w') = true
    ∧ AutomacaoService.isRunning (automacao w')
      = AutomacaoService.isRunning (automacao w)
    ∧ AutomacaoService.activeSession (automacao w')
      = AutomacaoService.activeSession (automacao w)
    ∧ AutomacaoService.maxRetries (automacao w')
      = AutomacaoService.maxRetries (automacao w)
    ∧ StatusService.isPaused (statusService w')
      = StatusService.isPaused (statusService w)
    ∧ records w' = records w
    ∧ database w' = database w
    ∧ progressWrites t = []
    ∧ attempts t = []
    ∧ actorCalls w' = actorCalls w.
Proof.
  destruct Hq as (Hc & Hd & Hl).
  unfold initialize, addLog, sleep, await.
  cbv beta iota zeta delta [bind gets modify emit ret].
  rewrite Hl.
  destruct (AutomacaoService.browser (automacao w)) eqn:Hb,
    (AutomacaoService.page (automacao w)) eqn:Hp; cbn [negb orb];
    calmo Hc Hd; eexists _, _; (split; [reflexivity|]); by split_and!.
Qed.
End QuietRun.

(** X17.  Without interference (no route call, no rejection by the store, a
    login that succeeds; the actor is arbitrary), a first run from index 0 on
    a store whose session ids are 1, ..., n resolves, whatever the fuel.
    Every record ends with the outcome that the retry loop computes from the
    replies of the actor, the calls being numbered through the run: cancelado
    with the message of the first successful reply among at most maxRetries
    calls, or erro with the message of the last failed call (Erro desconhecido
    when that message is empty or no call was made), its other fields
    unchanged.  The number of records that ended cancelado is the number of
    retry loops that succeeded.  Session n + 1 of the store is completed, its
    total and its processed counter are the number of records and its canceled
    and error counters are the numbers of records that ended so; the records
    read from the store are those in memory; every progress write has
    processed = canceled + errors; isRunning ends false. *)
Theorem quiet_run_completes (amb : Ambiente) (fuel : nat)
    (rs : list PolicyRecord.t) (fileName : string) (w : World) :
  sossegado amb →
  AutomacaoService.isRunning (automacao w) = false →
  AutomacaoService.databaseService (automacao w) = true →
  AutomacaoService.sessionId (automacao w) = None →
  wfDb (database w) →
  let run := processarRegistros amb fuel rs fileName 0 w in
  let sid := DatabaseService.nextId (database w) in
  let name := if decide (fileName = "") then "execucao_.xlsx" else fileName in
  let finais := records run.2 in
  let cancelados :=
    length (filter (λ r, PolicyRecord.status r = cancelado) finais) in
  let erros := length (filter (λ r, PolicyRecord.status r = erro) finais) in
  let result :=
    resultadoDe (cancelarApolice amb)
      (Z.to_nat (AutomacaoService.maxRetries (automacao w))) (actorCalls w) in
  run.1.2 = Ok tt
  ∧ length finais = length rs
  ∧ (∀ i r, rs !! i = Some r → finais !! i = Some (registrado (result i) r))
  ∧ cancelados
    = length (filter (λ i, AutomationResult.success (result i) = true)
                (seq 0 (length rs)))
  ∧ cancelados + erros = length rs
  ∧ DatabaseService.getSessionRecordsAsPolicyRecords sid (database run.2)
    = finais
  ∧ DatabaseService.getSession sid (database run.2)
    = Some (ExecutionSession.mk sid name true ExecutionSession.completed
              (length rs) (length rs) cancelados erros)
  ∧ Forall equilibrado (progressWrites run.1.1)
  ∧ actorCalls run.2 = actorCalls w + length (attempts run.1.1)
  ∧ AutomacaoService.isRunning (automacao run.2) = false.
Proof.
  intros Hq Hr Hds Hsid Hwf.
  set (we := entrada rs 0 w).
  destruct (sessao_quiet amb Hq fileName we Hds Hsid)
    as (t1 & w1 & E1 & Ha1 & Hp1 & Hrec1 & Hdb1 & Hpw1 & Hat1 & Hac1).
  destruct (initialize_quiet amb Hq w1)
    as (t2 & w2 & E2 & Hpage & Hrun & Hact & Hmx & Hp2 & Hrec2 & Hdb2 & Hpw2
        & Hat2 & Hac2).
  set (sid := DatabaseService.nextId (database w)).
  set (name := if decide (fileName = "") then "execucao_.xlsx" else fileName)
    in *.
  destruct (createSession_stored name rs (database w) Hwf)
    as (_ & Hsess & Hst).
  assert (emCurso (automacao w2) sid name (length rs) w2) as Hw2.
  { split_and!; [done|by rewrite Hp2, Hp1|by rewrite Hrec2, Hrec1|].
    rewrite Hdb2, Hdb1. split; [by exists rs|by eexists _, _, _]. }
  assert (AutomacaoService.maxRetries (automacao w2)
          = AutomacaoService.maxRetries (automacao w)) as Hmax.
  { by rewrite Hmx, Ha1. }
  assert (processados rs
            (resultadoDe (cancelarApolice amb)
               (Z.to_nat (AutomacaoService.maxRetries (automacao w2)))
               (actorCalls w)) sid name 0 0 0 w2) as Hproc2.
  { split_and!; try done; [lia|by rewrite Hrec2, Hrec1|].
    by rewrite Hdb2, Hdb1. }
  assert (AutomacaoService.activeSession (automacao w2) = Some sid) as Hact2.
  { rewrite Hact, Ha1. unfold AutomacaoService.activeSession. simpl.
    by rewrite Hds. }
  assert (AutomacaoService.isRunning (automacao w2) = true) as Hrun2.
  { by rewrite Hrun, Ha1. }
  destruct (laco_quiet amb Hq (automacao w2) sid name (length rs)
              Hrun2 Hpage Hact2 fuel rs (actorCalls w) eq_refl (length rs)
              0 0 0 w2 eq_refl Hw2 Hproc2 ltac:(by rewrite Hac2, Hac1))
    as (t3 & c & e & w3 & E3 & Hw3 & Hproc3 & Hpw3 & Hac3).
  destruct (fim_quiet amb Hq (automacao w2) sid name (length rs) Hact2 w3 Hw3)
    as (t4 & w4 & E4 & Ha4 & Hrec4 & Hdb4 & Hpw4 & Hat4 & Hac4).
  assert (corpo amb fuel fileName 0 we
          = (t1 ++ t2 ++ [] ++ [] ++ t3 ++ t4, Ok tt, w4)) as Ecorpo.
  { unfold corpo.
    eapply bind_eq; [exact E1|]. eapply bind_eq; [exact E2|].
    eapply bind_eq; [reflexivity|]. eapply bind_eq; [reflexivity|].
    rewrite Hrec2, Hrec1. cbn [records we entrada with_status with_records].
    rewrite Nat.sub_0_r.
    eapply bind_eq; [exact E3|exact E4]. }
  destruct (processarRegistros_eq amb fuel rs fileName 0 w
              ((t1 ++ t2 ++ [] ++ [] ++ t3 ++ t4)
               ++ [(SFinally,
                    EmitStatus (StatusService.getStatus
                                  (StatusService.stop (statusService w4))))])
              (Ok tt)
              (with_status StatusService.stop
                 (with_automacao (AutomacaoService.set_isRunning false) w4))
              Hr)
    as (s1 & s2 & s3 & E).
  { unfold protegido, tryFinally, tryCatch. fold we. by rewrite Ecorpo. }
  destruct Hw3 as (_ & _ & Hn3 & [(old & Hold & Hlen) _]).
  destruct Hproc3 as (Hdone & _ & Hc & He & Hsum & Hs3).
  rewrite take_ge in Hc, He by lia.
  cbv zeta. rewrite E. cbn [fst snd records database automacao actorCalls
                            with_status with_automacao].
  rewrite Hrec4, Hdb4.
  split_and!.
  - done.
  - done.
  - intros i r Hi. rewrite <- Hmax. apply (Hdone i r); [|done].
    by apply lookup_lt_Some in Hi.
  - apply (cancelados_resultados _ rs (records w3) 0); [done|].
    intros i r Hi. rewrite <- Hmax. apply (Hdone i r); [|done].
    by apply lookup_lt_Some in Hi.
  - by rewrite <- Hc, <- He.
  - apply read_storedAs, storedAs_saveRecords_same.
    exists old. split; [by apply storedAs_updateSession|lia].
  - rewrite getSession_saveRecords.
    unfold DatabaseService.finishSession.
    rewrite getSession_updateSession by done.
    rewrite decide_True by done. rewrite Hs3. simpl. by rewrite <- Hc, <- He.
  - match goal with
    | |- context [?a :: ?b :: ?c :: (?x ++ ?y)] =>
        change (a :: b :: c :: (x ++ y)) with ([a; b; c] ++ (x ++ y))
    end.
    rewrite !progressWrites_app, Hpw1, Hpw2, Hpw4.
    cbn. by rewrite !app_nil_r.
  - match goal with
    | |- context [?a :: ?b :: ?c :: (?x ++ ?y)] =>
        change (a :: b :: c :: (x ++ y)) with ([a; b; c] ++ (x ++ y))
    end.
    rewrite !attempts_app, Hat1, Hat2, Hat4.
    cbn. rewrite !app_nil_r, Hac4, Hac3, Hac2, Hac1. done.
  - done.
Qed.

(** ** Sessions that existed before a run *)

Lemma intocada_saveRecords id sid rs db0 db :
  id ≠ sid → intocada id db0 db →
  intocada id db0 (DatabaseService.saveRecords sid rs db).
Proof.
  intros Hne [Hs Hr]. split.
  - by rewrite getSession_saveRecords.
  - by rewrite rowsOf_saveRecords_other.
Qed.

Lemma intocada_updateSession id sid f db0 db :
  (∀ s, ExecutionSession.id (f s) = ExecutionSession.id s) →
  id ≠ sid → intocada id db0 db →
  intocada id db0 (DatabaseService.updateSession sid f db).
Proof.
  intros Hf Hne [Hs Hr]. split; [|done].
  rewrite getSession_updateSession by done. by rewrite decide_False.
Qed.

Lemma intocada_createSession id name rs db0 db :
  id ≠ DatabaseService.nextId db → intocada id db0 db →
  intocada id db0 (DatabaseService.createSession name rs db).2.
Proof.
  intros Hne [Hs Hr]. unfold DatabaseService.createSession. cbn [snd].
  apply intocada_saveRecords; [done|]. split; [|done].
  rewrite <- Hs. unfold DatabaseService.getSession. cbn.
  rewrite filter_app, filter_cons_False, filter_nil, app_nil_r; [done|].
  simpl. congruence.
Qed.

Lemma nextId_saveRecords sid rs db :
  DatabaseService.nextId (DatabaseService.saveRecords sid rs db)
  = DatabaseService.nextId db.
Proof. unfold DatabaseService.nextId. by rewrite saveRecords_sessions. Qed.

Lemma nextId_updateSession sid f db :
  DatabaseService.nextId (DatabaseService.updateSession sid f db)
  = DatabaseService.nextId db.
Proof.
  unfold DatabaseService.nextId, DatabaseService.updateSession. simpl.
  by rewrite length_fmap.
Qed.

Lemma soNaSessao_one sid site e :
  (∀ x, sessaoDe e = Some x → x = sid) → Forall (soNaSessao sid) [(site, e)].
Proof. intros H. by constructor. Qed.

Section NewSession.
Variable amb : Ambiente.
Variables id n : nat.
Variable db0 : DatabaseService.t.
Hypothesis Hne : id ≠ S n.

Local Abbreviation sid := (S n).
Local Abbreviation J := (novaSessao id sid db0).
Local Abbreviation J0 := (semSessao id db0).
Local Abbreviation Tr := (Forall (soNaSessao sid)).

Lemma novaSessao_frame w w' :
  J w →
  AutomacaoService.sessionId (automacao w')
  = AutomacaoService.sessionId (automacao w) →
  intocada id db0 (database w') →
  DatabaseService.nextId (database w') = DatabaseService.nextId (database w) →
  J w'.
Proof.
  intros [Hi Hs] Ha Hi' Hn. split; [done|]. rewrite Ha, Hn. exact Hs.
Qed.

Ltac evento :=
  try intros ?; apply soNaSessao_one; intros ? ?; by simplify_eq/=.

Ltac quadro :=
  let H := fresh in
  intros ? H;
  first
    [ exact H
    | eapply novaSessao_frame;
        [exact H|reflexivity|
         first [ apply H
               | apply intocada_saveRecords; [exact Hne|apply H]
               | apply intocada_updateSession; [done|exact Hne|apply H] ]|
         first [ reflexivity | apply nextId_saveRecords
               | apply nextId_updateSession ]]
    | split; [first [ apply H
                    | apply intocada_saveRecords; [exact Hne|apply H]
                    | apply intocada_updateSession; [done|exact Hne|apply H] ]
             |apply H] ].

Lemma mantem_activeSession {A} B (k : option nat → M A) :
  mantem J Tr B (k None) → mantem J Tr B (k (Some sid)) →
  mantem J Tr B
    (bind (gets (λ w, AutomacaoService.activeSession (automacao w))) k).
Proof.
  intros Hn Hs w Hw. unfold bind, gets.
  assert (AutomacaoService.activeSession (automacao w) = None
          ∨ AutomacaoService.activeSession (automacao w) = Some sid) as Ha.
  { destruct Hw as [_ [Hw|[Hw _]]]; unfold AutomacaoService.activeSession;
      rewrite Hw; destruct (AutomacaoService.databaseService _); auto. }
  destruct Ha as [-> | ->]; [specialize (Hn w Hw)|specialize (Hs w Hw)].
  - by destruct (k None w) as [[t r] w'].
  - by destruct (k (Some sid) w) as [[t r] w'].
Qed.

Lemma mantem_activeSession0 {A} B (k : option nat → M A) :
  mantem J0 Tr B (k None) →
  mantem J0 Tr B
    (bind (gets (λ w, AutomacaoService.activeSession (automacao w))) k).
Proof.
  intros Hn w Hw. unfold bind, gets.
  assert (AutomacaoService.activeSession (automacao w) = None) as ->.
  { destruct Hw as [_ Hw]. unfold AutomacaoService.activeSession.
    rewrite Hw. by destruct (AutomacaoService.databaseService _). }
  specialize (Hn w Hw). by destruct (k None w) as [[t r] w'].
Qed.

Ltac passo :=
  first [ apply mantem_activeSession; cbv beta iota
        | apply mantem_activeSession0; cbv beta iota
        | apply mantem_dbCall_f
        | mantem_step
        | evento
        | quadro ].

Lemma entregar_nova cs : mantem J Tr nunca (entregar amb cs).
Proof.
  induction cs as [|c cs IH]; simpl.
  - apply mantem_ret; apply _.
  - apply mantem_bind; [apply _| |intros; exact IH].
    destruct c; unfold comando, stop, pause, resume, close,
      updateSessionProgress, finishSession,
      DatabaseService.updateSessionProgress, DatabaseService.finishSession;
      repeat passo.
Qed.

Lemma entregar_semSessao cs : mantem J0 Tr nunca (entregar amb cs).
Proof.
  induction cs as [|c cs IH]; simpl.
  - apply mantem_ret; apply _.
  - apply mantem_bind; [apply _| |intros; exact IH].
    destruct c; unfold comando, stop, pause, resume, close; repeat passo.
Qed.

Ltac nova :=
  unfold updateSessionProgress, finishSession, saveRecords, createSession,
    activeSession, sleep, setRecord, recordAt,
    DatabaseService.updateSessionProgress, DatabaseService.finishSession;
  repeat first [ apply mantem_await_gen;
                   [typeclasses eauto|exact entregar_nova|]
               | passo ].

Lemma esperar_nova fuel i : ∀ k, mantem J Tr J (esperar amb fuel i k).
Proof.
  induction fuel as [|fuel IH]; intros k.
  - intros w Hw. simpl. unfold bind, gets. simpl.
    by destruct (_ && _).
  - simpl. nova. apply IH.
Qed.

Lemma tentativas_nova site record maxRetries k : ∀ attempt lastError,
  mantem J Tr J (tentativas amb site record maxRetries k attempt lastError).
Proof.
  induction k as [|k IH]; intros attempt lastError; simpl;
    unfold tentar, aposErro; nova; apply IH.
Qed.

Lemma laco_nova fuel k : ∀ i c e, mantem J Tr J (laco amb fuel k i c e).
Proof.
  induction k as [|k IH]; intros i c e; simpl.
  - nova.
  - unfold pausado, antes, processar, processarRegistro, depois,
      atualizarProgresso, salvarProgresso.
    nova; try apply esperar_nova; try apply tentativas_nova; try apply IH.
Qed.

Lemma contar_nova k : ∀ i c e, mantem J Tr J (contar k i c e).
Proof. induction k as [|k IH]; intros i c e; simpl; nova. apply IH. Qed.

(** Opening the session: the new row gets the id [sid], and until the
    service has taken note of it the route calls find no session to write
    to. *)
Lemma criar_nova name w :
  J w → AutomacaoService.sessionId (automacao w) = None →
  let r := await amb SSessao 0 (createSession amb SSessao name) w in
  Tr r.1.1
  ∧ match r.1.2 with
    | Ok a => a = sid ∧ J0 r.2
    | Threw _ => J r.2
    | Blocked => False
    end.
Proof.
  intros [Hi [Hs|[_ Hn]]] Hnone; [congruence|]. cbv zeta.
  unfold await.
  destruct (createSession amb SSessao name w) as [[t1 r1] w1] eqn:E1.
  assert (Tr t1 ∧ match r1 with
                  | Ok a => a = sid ∧ J0 w1
                  | Threw _ => J w1
                  | Blocked => False
                  end) as [Ht1 Hr1].
  { unfold createSession, bind, gets, dbCall in E1. rewrite Hn in E1.
    destruct (dbRejects amb (dbCalls w)); simplify_eq/=.
    - split; [evento|]. split; [done|]. right. by split.
    - split; [evento|]. split; [done|]. split; [|done].
      apply intocada_createSession; [by rewrite Hn|done]. }
  destruct r1 as [a|msg|]; [| |done].
  - destruct Hr1 as [-> Hw1].
    destruct (entregar_semSessao (comandos amb SSessao 0) w1 Hw1) as [H3 H4].
    pose proof (entregar_ok amb (comandos amb SSessao 0) w1)
      as (t2 & w2 & E & _).
    rewrite E in *. simpl in *. split; [by apply Forall_app|done].
  - destruct (entregar_nova (comandos amb SSessao 0) w1 Hr1) as [H3 H4].
    pose proof (entregar_ok amb (comandos amb SSessao 0) w1)
      as (t2 & w2 & E & _).
    rewrite E in *. simpl in *. split; [by apply Forall_app|done].
Qed.

Lemma sessao_nova fileName startIndex :
  mantem J Tr nunca (sessao amb fileName startIndex).
Proof.
  unfold sessao. apply triple_gets_bind. intros a.
  destruct (AutomacaoService.databaseService a);
    [|by eapply triple_pre; [apply mantem_ret; apply _|intros w [H _]]].
  destruct (AutomacaoService.sessionId a) as [[|k]|] eqn:Ha.
  - intros w [[_ [Hs|[Hs _]]] <-]; congruence.
  - intros w [Hw <-].
    assert (k = n) as -> by (destruct Hw as [_ [Hs|[Hs _]]]; congruence).
    clear Ha. revert w Hw. nova.
  - cbv zeta. intros w [Hw <-].
    pose proof (criar_nova
                  (if decide (fileName = "") then "execucao_.xlsx"
                   else fileName)
                  (with_automacao
                     (AutomacaoService.set_currentFileName
                        (if decide (fileName = "") then "execucao_.xlsx"
                         else fileName)) w) Hw Ha) as H.
    cbv zeta in H. destruct H as [Ht Hr].
    cbv beta iota delta [bind modify addLog emit].
    destruct (await amb SSessao 0 _ _) as [[t1 r1] w2]. simpl in Ht, Hr.
    destruct r1 as [a|msg|]; [|done|done].
    destruct Hr as [-> [Hi Hs]]. simpl.
    split; [|split; [done|by left]].
    apply Forall_app. split; [done|evento].
Qed.

Lemma corpo_nova fuel fileName startIndex :
  mantem J Tr J (corpo amb fuel fileName startIndex).
Proof.
  unfold corpo.
  apply mantem_bind; [apply _| |intros _].
  { eapply triple_conseq; [apply sessao_nova|done..|by intros []]. }
  unfold initialize, fim. nova; try apply contar_nova; try apply laco_nova.
Qed.

Lemma processarRegistros_nova fuel rs fileName startIndex :
  mantem J Tr J (processarRegistros amb fuel rs fileName startIndex).
Proof.
  unfold processarRegistros, protegido.
  apply mantem_bind; [apply _|apply mantem_gets; apply _|intros running].
  destruct running; [apply mantem_throw; apply _|].
  do 5 (apply mantem_bind; [apply _|nova|intros _]).
  apply mantem_tryFinally; [apply _| |unfold finalmente; nova].
  apply mantem_tryCatch; [apply _|apply corpo_nova|intros msg].
  unfold capturar. nova.
Qed.
End NewSession.

Lemma run_keeps_session amb fuel rs fileName startIndex w id :
  AutomacaoService.sessionId (automacao w) = None →
  id ≤ length (DatabaseService.execution_sessions (database w)) →
  let run := processarRegistros amb fuel rs fileName startIndex w in
  DatabaseService.getSession id (database run.2)
  = DatabaseService.getSession id (database w)
  ∧ DatabaseService.getSessionRecordsAsPolicyRecords id (database run.2)
    = DatabaseService.getSessionRecordsAsPolicyRecords id (database w)
  ∧ Forall (soNaSessao (DatabaseService.nextId (database w))) run.1.1.
Proof.
  intros Hs Hid. cbv zeta.
  destruct (processarRegistros_nova amb id
              (length (DatabaseService.execution_sessions (database w)))
              (database w) ltac:(lia) fuel rs fileName startIndex w)
    as [Ht Hw].
  { split; [done|]. right. by split. }
  assert (novaSessao id (DatabaseService.nextId (database w)) (database w)
            (processarRegistros amb fuel rs fileName startIndex w).2)
    as [[Hg Hr] _].
  { by destruct (processarRegistros amb fuel rs fileName startIndex w).1.2. }
  split_and!; [done| |done].
  unfold DatabaseService.getSessionRecordsAsPolicyRecords. by rewrite Hr.
Qed.



(** ** The records of a run *)

Lemma mesmoRegistro_refl r : mesmoRegistro r r.
Proof.
  exists (PolicyRecord.status r), (PolicyRecord.observacao r). by destruct r.
Qed.

Lemma mesmoRegistro_set r r' st obs :
  mesmoRegistro r r' →
  mesmoRegistro r
    (match obs with
     | Some o => PolicyRecord.set_observacao o (PolicyRecord.set_status st r')
     | None => PolicyRecord.set_status st r'
     end).
Proof.
  intros (st' & obs' & ->). destruct obs as [o|].
  - exists st, o. by destruct r.
  - exists st, obs'. by destruct r.
Qed.

Section Registros.
Variable amb : Ambiente.
Variable rs : list PolicyRecord.t.

Local Abbreviation Inv := (soEstado rs).

Lemma soEstado_estavel : estavel amb Inv.
Proof. apply estavel_intro; by intros. Qed.

Lemma setRecord_soEstado i st obs :
  mantem Inv qualquer Inv (setRecord i st obs).
Proof.
  intros w Hall.
  unfold setRecord, recordAt, bind, gets, modify, throw, ret.
  destruct (records w !! i) as [r'|] eqn:Hr; simpl; (split; [done|]);
    [|done].
  unfold soEstado. cbn [records with_records].
  destruct (Forall2_lookup_r _ _ _ _ _ Hall Hr) as (r & Hri & Hrel).
  rewrite <- (list_insert_id rs i r Hri).
  apply Forall2_insert; [done|]. by apply mesmoRegistro_set.
Qed.

Ltac regs :=
  unfold updateSessionProgress, finishSession, saveRecords, createSession,
    activeSession, sleep, recordAt;
  repeat first [ exact I
               | apply setRecord_soEstado
               | mantem_step
               | exact soEstado_estavel
               | by apply discreto_controle
               | by intros ? ? ? | by intros ? ? ].

Lemma esperar_soEstado fuel i : ∀ k,
  mantem Inv qualquer Inv (esperar amb fuel i k).
Proof.
  induction fuel as [|fuel IH]; intros k.
  - intros w Hw. simpl. unfold bind, gets. simpl.
    by destruct (_ && _).
  - simpl. regs. apply IH.
Qed.

Lemma tentativas_soEstado site record maxRetries k : ∀ attempt lastError,
  mantem Inv qualquer Inv
    (tentativas amb site record maxRetries k attempt lastError).
Proof.
  induction k as [|k IH]; intros attempt lastError; simpl;
    unfold tentar, aposErro; regs; apply IH.
Qed.

Lemma laco_soEstado fuel k : ∀ i c e,
  mantem Inv qualquer Inv (laco amb fuel k i c e).
Proof.
  induction k as [|k IH]; intros i c e; simpl.
  - regs.
  - unfold pausado, antes, processar, processarRegistro, depois,
      atualizarProgresso, salvarProgresso.
    regs; try apply esperar_soEstado; try apply tentativas_soEstado.
    apply IH.
Qed.

Lemma contar_soEstado k : ∀ i c e, mantem Inv qualquer Inv (contar k i c e).
Proof. induction k as [|k IH]; intros i c e; simpl; regs. apply IH. Qed.

Lemma protegido_soEstado fuel fileName startIndex :
  mantem Inv qualquer Inv (protegido amb fuel fileName startIndex).
Proof.
  unfold protegido.
  apply mantem_tryFinally; [apply _| |unfold finalmente; regs].
  apply mantem_tryCatch; [apply _| |intros msg; unfold capturar; regs].
  unfold corpo, sessao, initialize, fim.
  regs; try apply contar_soEstado. apply laco_soEstado.
Qed.
End Registros.

(** X21.  A run that was let in (isRunning was false) changes nothing of the
    records it was given but the status and the note: however it ends, the
    records it holds afterwards are as many, in the same order, and each is
    the record handed in up to status and note. *)
Theorem run_changes_status_and_note_only (amb : Ambiente) (fuel : nat)
    (rs : list PolicyRecord.t) (fileName : string) (startIndex : nat)
    (w : World) :
  AutomacaoService.isRunning (automacao w) = false →
  let run := processarRegistros amb fuel rs fileName startIndex w in
  length (records run.2) = length rs
  ∧ ∀ i r, rs !! i = Some r →
      ∃ st obs,
        records run.2 !! i
        = Some (PolicyRecord.set_observacao obs
                  (PolicyRecord.set_status st r)).
Proof.
  intros Hr. cbv zeta.
  destruct (protegido amb fuel fileName startIndex (entrada rs startIndex w))
    as [[t r] w4] eqn:E.
  destruct (processarRegistros_eq _ _ _ _ _ _ _ _ _ Hr E)
    as (s1 & s2 & s3 & ->).
  destruct (protegido_soEstado amb rs fuel fileName startIndex
              (entrada rs startIndex w)) as [_ Hw].
  { apply Forall2_same_length_lookup_2; [done|].
    intros i x y Hx Hy. cbn in Hy. simplify_eq. apply mesmoRegistro_refl. }
  rewrite E in Hw. cbn [fst snd] in *.
  assert (soEstado rs w4) as Hall by by destruct r.
  split; [by erewrite <- Forall2_length|].
  intros i x Hx.
  destruct (Forall2_lookup_l _ _ _ _ _ Hall Hx) as (y & Hy & st & obs & ->).
  by exists st, obs.
Qed.

(** ** The hypotheses of the properties above, on concrete inputs *)

Lemma update_missing_session_witness :
  DatabaseService.updateSessionProgress 7 3 2 1
    (Some ExecutionSession.paused) bancoComSessao = bancoComSessao
  ∧ DatabaseService.finishSession 7 ExecutionSession.stopped bancoComSessao
    = bancoComSessao.
Proof.
  apply (update_missing_session_noop 7 3 2 1 (Some ExecutionSession.paused)
           ExecutionSession.stopped bancoComSessao).
  reflexivity.
Defined.

Lemma createSession_read_back_witness :
  let sid := (DatabaseService.createSession "planilha.xlsx"
                [registro "A0" pendente] DatabaseService.empty).1 in
  let db' := (DatabaseService.createSession "planilha.xlsx"
                [registro "A0" pendente] DatabaseService.empty).2 in
  DatabaseService.getSession sid DatabaseService.empty = None
  ∧ DatabaseService.getSession sid db'
    = Some (ExecutionSession.mk sid "planilha.xlsx" false
              ExecutionSession.running (length [registro "A0" pendente])
              0 0 0)
  ∧ storedAs sid [registro "A0" pendente] db'
  ∧ DatabaseService.getSessionRecordsAsPolicyRecords sid db'
    = [registro "A0" pendente].
Proof.
  apply (createSession_read_back "planilha.xlsx" [registro "A0" pendente]
           DatabaseService.empty).
  split; [reflexivity|constructor].
Defined.

Lemma saveRecords_overwrites_witness :
  let old := [registro "A0" pendente; registro "A1" pendente] in
  let rs := [registro "A0" cancelado] in
  let now := if decide (old = []) then rs
             else take (length old) rs ++ drop (length rs) old in
  let db' := DatabaseService.saveRecords 1 rs bancoComSessao in
  storedAs 1 now db'
  ∧ DatabaseService.getSessionRecordsAsPolicyRecords 1 db' = now
  ∧ (length rs = length old →
     DatabaseService.getSessionRecordsAsPolicyRecords 1 db' = rs).
Proof.
  apply (saveRecords_overwrites 1
           [registro "A0" pendente; registro "A1" pendente]
           [registro "A0" cancelado] bancoComSessao).
  reflexivity.
Defined.

Lemma writes_are_isolated_witness :
  let saved :=
    DatabaseService.saveRecords 2 [registro "B0" pendente] bancoComSessao in
  let updated :=
    DatabaseService.updateSessionProgress 2 1 1 0 None bancoComSessao in
  let finished :=
    DatabaseService.finishSession 2 ExecutionSession.stopped bancoComSessao in
  DatabaseService.getSessionRecordsAsPolicyRecords 1 saved
  = DatabaseService.getSessionRecordsAsPolicyRecords 1 bancoComSessao
  ∧ DatabaseService.getSession 1 saved
    = DatabaseService.getSession 1 bancoComSessao
  ∧ DatabaseService.getSession 1 updated
    = DatabaseService.getSession 1 bancoComSessao
  ∧ DatabaseService.getSession 1 finished
    = DatabaseService.getSession 1 bancoComSessao
  ∧ DatabaseService.processed_records updated
    = DatabaseService.processed_records bancoComSessao
  ∧ DatabaseService.processed_records finished
    = DatabaseService.processed_records bancoComSessao.
Proof.
  apply (writes_are_isolated 2 1 [registro "B0" pendente] 1 1 0 None
           ExecutionSession.stopped bancoComSessao).
  lia.
Defined.

Lemma stopped_loop_witness :
  let w := mundoPausado in
  let run := laco ambienteCalmo 0 1 0 0 0 w in
  attempts run.1.1 = []
  ∧ run.1.2 ≠ Blocked
  ∧ AutomacaoService.isRunning (automacao run.2) = false
  ∧ (1 = 0 ∨ StatusService.isPaused (statusService w) = false →
     run = ([], Ok tt, w))
  ∧ (0 < 1 → StatusService.isPaused (statusService w) = true →
     match AutomacaoService.activeSession (automacao w) with
     | None => run = ([], Ok tt, w)
     | Some sid =>
         let progresso :=
           (SPausa 0, DbUpdateSessionProgress sid 0 0 0
                        (Some ExecutionSession.paused)) in
         (run.1.2 = Ok tt
          ∧ ∃ rs, proprios run.1.1
                  = [progresso; (SPausa 0, DbSaveRecords sid rs)])
         ∨ ∃ msg,
             run.1.2 = Threw msg
             ∧ (proprios run.1.1 = [(SPausa 0, DbRejected msg)]
                ∨ proprios run.1.1 = [progresso; (SPausa 0, DbRejected msg)])
     end).
Proof.
  apply (stopped_loop_attempts_nothing ambienteCalmo 0 1 0 0 0 mundoPausado).
  reflexivity.
Defined.

Lemma run_ends_witness :
  let run := processarRegistros ambienteCalmo 0 [registro "A0" pendente]
               "planilha.xlsx" 0 mundoInicial in
  match run.1.2 with
  | Blocked =>
      StatusService.isPaused (statusService run.2) = true
      ∧ AutomacaoService.isRunning (automacao run.2) = true
  | _ =>
      AutomacaoService.isRunning (automacao run.2) = false
      ∧ StatusService.isPaused (statusService run.2) = false
      ∧ ProcessStatus.isProcessing
          (StatusService.getStatus (statusService run.2)) = false
      ∧ last run.1.1
        = Some (SFinally,
                EmitStatus (StatusService.getStatus (statusService run.2)))
  end.
Proof.
  apply (run_ends_with_flags_cleared ambienteCalmo 0
           [registro "A0" pendente] "planilha.xlsx" 0 mundoInicial).
  reflexivity.
Defined.


Lemma quiet_run_witness :
  let rs := [registro "A0" pendente; registro "A1" erro] in
  let run := processarRegistros ambienteCalmo 0 rs "planilha.xlsx" 0
               mundoInicial in
  let sid := DatabaseService.nextId (database mundoInicial) in
  let name := if decide ("planilha.xlsx" = "") then "execucao_.xlsx"
              else "planilha.xlsx" in
  let finais := records run.2 in
  let cancelados :=
    length (filter (λ r, PolicyRecord.status r = cancelado) finais) in
  let erros := length (filter (λ r, PolicyRecord.status r = erro) finais) in
  let result :=
    resultadoDe (cancelarApolice ambienteCalmo)
      (Z.to_nat (AutomacaoService.maxRetries (automacao mundoInicial)))
      (actorCalls mundoInicial) in
  run.1.2 = Ok tt
  ∧ length finais = length rs
  ∧ (∀ i r, rs !! i = Some r → finais !! i = Some (registrado (result i) r))
  ∧ cancelados
    = length (filter (λ i, AutomationResult.success (result i) = true)
                (seq 0 (length rs)))
  ∧ cancelados + erros = length rs
  ∧ DatabaseService.getSessionRecordsAsPolicyRecords sid (database run.2)
    = finais
  ∧ DatabaseService.getSession sid (database run.2)
    = Some (ExecutionSession.mk sid name true ExecutionSession.completed
              (length rs) (length rs) cancelados erros)
  ∧ Forall equilibrado (progressWrites run.1.1)
  ∧ actorCalls run.2 = actorCalls mundoInicial + length (attempts run.1.1)
  ∧ AutomacaoService.isRunning (automacao run.2) = false.
Proof.
  apply (quiet_run_completes ambienteCalmo 0
           [registro "A0" pendente; registro "A1" erro] "planilha.xlsx"
           mundoInicial).
  - by split_and!.
  - reflexivity.
  - reflexivity.
  - reflexivity.
  - split; [reflexivity|constructor].
Defined.



Lemma run_changes_witness :
  let rs := [registro "A0" pendente; registro "A1" erro] in
  let run := processarRegistros ambienteCalmo 0 rs "planilha.xlsx" 1
               mundoInicial in
  length (records run.2) = length rs
  ∧ ∀ i r, rs !! i = Some r →
      ∃ st obs,
        records run.2 !! i
        = Some (PolicyRecord.set_observacao obs
                  (PolicyRecord.set_status st r)).
Proof.
  apply (run_changes_status_and_note_only ambienteCalmo 0
           [registro "A0" pendente; registro "A1" erro] "planilha.xlsx" 1
           mundoInicial).
  reflexivity.
Defined.
